(** * Portia: MySQL-backed git storage and the snapshot ORM

    A shallow embedding of [slyd/gitstorage/repo.py] and of the model layer
    under [slyd/orm/], with the properties of their specification.

    Python objects that are mutated in place (tables of the database, the
    identity map, snapshot stores, collections) are modelled by explicit
    state passing; a call that may raise returns a [result]. *)

From Stdlib Require Import ZArith List String Ascii Bool Lia.
From Stdlib Require Strings.Byte.
From stdpp Require Import base option list gmap strings fin_maps.

Set Default Proof Using "Type".
Open Scope string_scope.
Open Scope list_scope.
Open Scope stdpp_scope.

(** ** Outcomes of Python calls *)

(** The exception classes that the modelled code raises or catches. *)
Inductive exn : Type :=
| ConnectionLost (ident : nat)
| OperationalError (code : Z) (ident : nat)
| IOError (ident : nat)
| TypeError (msg : string)
| KeyError (key : string)
| RefFormatError (name : string)
| ValidationError (msg : string)
| AttributeError (name : string)
| PathResolutionError (msg : string)
| IndexError
| OtherError (ident : nat).

Inductive result (A : Type) : Type :=
| Return (a : A)
| Raise (e : exn).
Arguments Return {A} a.
Arguments Raise {A} e.

#[global] Instance exn_eq_dec : EqDecision exn.
Proof. solve_decision. Defined.

(** ** SQL tables with a primary key

    A table is the list of its rows, in insertion order.  The statements
    used by [repo.py] are [INSERT IGNORE], [REPLACE INTO], [DELETE ... WHERE]
    and [SELECT ... WHERE] on the primary key. *)
Module Sql.
Section Table.
Context {Row Key : Type} `{EqDecision Key}.
Variable key_of : Row -> Key.

Definition select_where (k : Key) (t : list Row) : list Row :=
filter (fun r => key_of r = k) t.

Definition has_key (k : Key) (t : list Row) : bool :=
bool_decide (select_where k t <> []).

(** [INSERT IGNORE]: a row whose primary key is taken is dropped, with a
  warning instead of an error; the stored row is left as it is. *)
Definition insert_ignore (r : Row) (t : list Row) : list Row :=
if has_key (key_of r) t then t else t ++ [r].

(** [DELETE FROM t WHERE key = k]. *)
Definition delete_where (k : Key) (t : list Row) : list Row :=
filter (fun r => key_of r <> k) t.

(** [REPLACE INTO]: the rows with the same primary key are deleted, then
  the new row is inserted. *)
Definition replace_into (r : Row) (t : list Row) : list Row :=
delete_where (key_of r) t ++ [r].

(** The primary-key constraint. *)
Definition pk_unique (t : list Row) : Prop := NoDup (key_of <$> t).

Lemma select_where_app k t u :
select_where k (t ++ u) = select_where k t ++ select_where k u.
Proof. unfold select_where. apply filter_app. Qed.

Lemma has_key_true k t : has_key k t = true <-> exists r, r ∈ t /\ key_of r = k.
Proof.
unfold has_key, select_where. rewrite bool_decide_eq_true. split.
- intros Hne. destruct (filter (fun r => key_of r = k) t) as [|r l] eqn:E; [done|].
  exists r. apply and_comm.
  apply (list_elem_of_filter (fun r => key_of r = k) t r).
  rewrite E. left.
- intros (r & Hin & Hk) E.
  assert (r ∈ filter (fun r => key_of r = k) t) as Hf
    by (apply list_elem_of_filter; done).
  rewrite E in Hf. by apply elem_of_nil in Hf.
Qed.

Lemma has_key_false k t : has_key k t = false <-> select_where k t = [].
Proof.
unfold has_key. rewrite bool_decide_eq_false. split.
- intros Hn. destruct (select_where k t); [done|]. by destruct Hn.
- intros -> Hn. done.
Qed.

Lemma select_where_absent k t : k ∉ (key_of <$> t) -> select_where k t = [].
Proof.
intros Hn. apply has_key_false. destruct (has_key k t) eqn:E; [|done].
apply has_key_true in E as (r & Hin & Hk). destruct Hn.
apply list_elem_of_fmap. by exists r.
Qed.

Lemma select_where_unique k t : pk_unique t -> length (select_where k t) <= 1.
Proof.
unfold pk_unique. induction t as [|r t IH]; intros Hnd; [simpl; lia|].
rewrite fmap_cons in Hnd. apply NoDup_cons in Hnd as [Hr Hnd].
unfold select_where. rewrite filter_cons. case_decide as Hk.
- subst k. fold (select_where (key_of r) t).
  rewrite (select_where_absent _ _ Hr). simpl. lia.
- by apply IH.
Qed.

Lemma insert_ignore_present r t :
has_key (key_of r) t = true -> insert_ignore r t = t.
Proof. unfold insert_ignore. by intros ->. Qed.

Lemma insert_ignore_has_key r t : has_key (key_of r) (insert_ignore r t) = true.
Proof.
unfold insert_ignore. destruct (has_key (key_of r) t) eqn:E; [done|].
apply has_key_true. exists r. split; [|done]. apply elem_of_app. right. left.
Qed.

Lemma insert_ignore_idem r t :
insert_ignore r (insert_ignore r t) = insert_ignore r t.
Proof. apply insert_ignore_present, insert_ignore_has_key. Qed.

Lemma insert_ignore_prefix r t : exists u, insert_ignore r t = t ++ u.
Proof.
unfold insert_ignore. destruct (has_key (key_of r) t).
- exists []. by rewrite app_nil_r.
- by exists [r].
Qed.

Lemma insert_ignore_pk_unique r t : pk_unique t -> pk_unique (insert_ignore r t).
Proof.
unfold insert_ignore, pk_unique. intros Hnd.
destruct (has_key (key_of r) t) eqn:E; [done|].
rewrite fmap_app. apply NoDup_app. split; [done|]. split.
- intros k Hk Hk'. simpl in Hk'. apply list_elem_of_singleton in Hk'. subst k.
  apply list_elem_of_fmap in Hk as (r' & Hk & Hin).
  assert (has_key (key_of r) t = true) as Ht
    by (apply has_key_true; by exists r').
  congruence.
- simpl. apply NoDup_singleton.
Qed.

Lemma insert_ignore_count r t :
pk_unique t -> length (select_where (key_of r) (insert_ignore r t)) = 1.
Proof.
intros Hnd.
pose proof (select_where_unique (key_of r) _ (insert_ignore_pk_unique r t Hnd)) as Hle.
pose proof (insert_ignore_has_key r t) as Hk.
unfold has_key in Hk. apply bool_decide_eq_true in Hk.
destruct (select_where (key_of r) (insert_ignore r t)); [done|]. simpl in *. lia.
Qed.

Lemma select_where_delete_eq k t : select_where k (delete_where k t) = [].
Proof.
unfold select_where, delete_where. induction t as [|r t IH]; [done|].
rewrite filter_cons. case_decide as Hk; [|done].
rewrite filter_cons. by case_decide.
Qed.

Lemma select_where_delete_ne k k' t :
k <> k' -> select_where k (delete_where k' t) = select_where k t.
Proof.
intros Hne. unfold select_where, delete_where.
induction t as [|r t IH]; [done|].
rewrite !filter_cons. case_decide as Hk'.
- rewrite filter_cons. case_decide; by rewrite IH.
- case_decide as Hk; [|done]. destruct Hk'. congruence.
Qed.

Lemma select_where_replace_eq r t :
select_where (key_of r) (replace_into r t) = [r].
Proof.
unfold replace_into. rewrite select_where_app, select_where_delete_eq.
unfold select_where. rewrite filter_cons. by case_decide.
Qed.

Lemma select_where_replace_ne k r t :
k <> key_of r -> select_where k (replace_into r t) = select_where k t.
Proof.
intros Hne. unfold replace_into.
rewrite select_where_app, select_where_delete_ne by done.
unfold select_where at 2. rewrite filter_cons. case_decide; [congruence|].
by rewrite filter_nil, app_nil_r.
Qed.
End Table.
End Sql.

(** ** [slyd/gitstorage/repo.py]: the object store *)
Module ObjectStore.

(** A dulwich object as the store uses it: [obj.id] (40 hexadecimal
    characters), [obj.get_type()] and [obj.as_raw_string()]. *)
Record ShaFile := {
  obj_id : string;
  obj_type : nat;
  obj_raw : string
}.

(** A row of the table [objs]; its primary key is [(oid, repo)]. *)
Record ObjRow := {
  row_oid : string;
  row_type : nat;
  row_size : nat;
  row_data : string;
  row_repo : string
}.

Definition objs_key (r : ObjRow) : string * string := (row_oid r, row_repo r).

(** [MysqlObjectStore]: the repository namespace the store is opened on. *)
Record MysqlObjectStore := { _repo : string }.

Section Statements.
(** MySQL's [COMPRESS], applied to the data column on insertion. *)
Variable COMPRESS : string -> string.

(** statements["HAS"] *)
Definition HAS (sha repo : string) (objs : list ObjRow) : bool :=
  Sql.has_key objs_key (sha, repo) objs.

(** statements["ADD"]: [INSERT IGNORE INTO objs values(...)] *)
Definition ADD (oid : string) (tnum len : nat) (data repo : string)
    (objs : list ObjRow) : list ObjRow :=
  Sql.insert_ignore objs_key
    {| row_oid := oid; row_type := tnum; row_size := len;
       row_data := COMPRESS data; row_repo := repo |} objs.

(** statements["DEL"] *)
Definition DEL (oid repo : string) (objs : list ObjRow) : list ObjRow :=
  Sql.delete_where objs_key (oid, repo) objs.

Definition _has_sha (self : MysqlObjectStore) (sha : string)
    (objs : list ObjRow) : bool :=
  HAS sha (_repo self) objs.

(** [_add_object]: one [ADD] statement; the call returns [None]. *)
Definition _add_object (self : MysqlObjectStore) (obj : ShaFile)
    (objs : list ObjRow) : result unit * list ObjRow :=
  let data := obj_raw obj in
  let oid := obj_id obj in
  let tnum := obj_type obj in
  (Return tt, ADD oid tnum (String.length data) data (_repo self) objs).

Definition add_object := _add_object.

(** [add_objects]: the same statement for each [(object, path)] pair. *)
Fixpoint add_objects (self : MysqlObjectStore) (objects : list (ShaFile * string))
    (objs : list ObjRow) : result unit * list ObjRow :=
  match objects with
  | [] => (Return tt, objs)
  | (o, _) :: rest =>
      add_objects self rest
        (ADD (obj_id o) (obj_type o) (String.length (obj_raw o)) (obj_raw o)
             (_repo self) objs)
  end.

Definition delete_objects (self : MysqlObjectStore) (object_ids : list string)
    (objs : list ObjRow) : result unit * list ObjRow :=
  (Return tt, foldl (fun t oid => DEL oid (_repo self) t) objs object_ids).

(** The number of rows stored for an object id in the store's namespace. *)
Definition stored (self : MysqlObjectStore) (oid : string)
    (objs : list ObjRow) : nat :=
  length (Sql.select_where objs_key (oid, _repo self) objs).

(** C6. Insertion is idempotent: adding an object, then adding it again or
    adding any object with the same id in the same namespace, raises no
    error, leaves exactly one row for that id, and never changes a row
    that was already stored (the table only grows at its end, and the
    second insertion leaves it as it was). *)
Theorem add_object_idempotent (self : MysqlObjectStore) (obj obj' : ShaFile)
    (objs : list ObjRow) :
  Sql.pk_unique objs_key objs ->
  obj_id obj' = obj_id obj ->
  let r1 := _add_object self obj objs in
  let r2 := _add_object self obj' (snd r1) in
  fst r1 = Return tt /\ fst r2 = Return tt /\
  snd r2 = snd r1 /\
  stored self (obj_id obj) (snd r1) = 1 /\
  stored self (obj_id obj) (snd r2) = 1 /\
  (exists added, snd r1 = objs ++ added) /\
  Sql.pk_unique objs_key (snd r2).
Proof.
  intros Hpk Hid. cbn zeta. unfold _add_object, ADD. cbn [fst snd].
  set (row := {| row_oid := obj_id obj; row_type := obj_type obj;
                 row_size := String.length (obj_raw obj);
                 row_data := COMPRESS (obj_raw obj); row_repo := _repo self |}).
  set (row' := {| row_oid := obj_id obj'; row_type := obj_type obj';
                  row_size := String.length (obj_raw obj');
                  row_data := COMPRESS (obj_raw obj'); row_repo := _repo self |}).
  assert (objs_key row' = objs_key row) as Hk
    by (unfold objs_key; cbn; by rewrite Hid).
  assert (Sql.insert_ignore objs_key row' (Sql.insert_ignore objs_key row objs)
          = Sql.insert_ignore objs_key row objs) as Hsame.
  { apply Sql.insert_ignore_present. rewrite Hk. apply Sql.insert_ignore_has_key. }
  assert (stored self (obj_id obj) (Sql.insert_ignore objs_key row objs) = 1) as Hone
    by (apply (Sql.insert_ignore_count objs_key row objs Hpk)).
  repeat split; try done.
  - by rewrite Hsame.
  - apply Sql.insert_ignore_prefix.
  - rewrite Hsame. by apply Sql.insert_ignore_pk_unique.
Qed.

End Statements.

Lemma add_object_idempotent_witness :
  let self := {| _repo := "repo1" |} in
  let obj := {| obj_id := "ce013625030ba8dba906f756967f9e9ca394464a";
                obj_type := 3; obj_raw := "hello" |} in
  stored self (obj_id obj)
    (snd (_add_object (fun s => s) self obj
            (snd (_add_object (fun s => s) self obj []))))
  = 1.
Proof.
  intros self obj.
  refine (proj1 (proj2 (proj2 (proj2 (proj2
    (add_object_idempotent (fun s => s) self obj obj [] _ eq_refl)))))).
  unfold Sql.pk_unique. simpl. apply NoDup_nil_2.
Defined.
End ObjectStore.

(** ** [slyd/gitstorage/repo.py]: packs and thin packs *)
Module ThinPack.
Import ObjectStore.

(** A [BytesIO]: its contents and the position of the next read or write. *)
Record File := {
  contents : list Byte.byte;
  position : nat
}.

(** [f.write(data)]: the bytes overwrite the contents from the position on
    and extend them if they reach further; the position moves past them. *)
Definition write (data : list Byte.byte) (f : File) : File :=
  {| contents := take (position f) (contents f) ++ data
                 ++ drop (position f + length data) (contents f);
     position := position f + length data |}.

Definition seek (offset : nat) (f : File) : File :=
  {| contents := contents f; position := offset |}.

(** A positional argument of a call. *)
Inductive arg : Type :=
| ACursor (cursor : nat)
| AObject (obj : ShaFile).

Section Packs.
Variable COMPRESS : string -> string.
(** [dulwich.pack.write_pack_header(f, num_objects)]: the bytes it writes. *)
Variable pack_header : nat -> list Byte.byte.
(** [dulwich.pack.write_pack_object(f, type, data, sha=sha)]: the bytes it
    writes, which it also feeds to [sha]. *)
Variable pack_object : nat -> string -> list Byte.byte.
(** The SHA-1 digest of a byte sequence. *)
Variable sha1 : list Byte.byte -> list Byte.byte.
(** [PackStreamCopier(read_all, read_some, f, delta_iter=indexer).verify()]
    on the bytes of the stream: an error if the stream is not a pack with a
    valid checksum. *)
Variable verify : list Byte.byte -> result unit.
(** [list(indexer)] and [indexer.ext_refs()] after the copy: the number of
    entries of the stream and the ids (20 bytes each, here in their
    hexadecimal form) of the objects its deltas refer to outside of it. *)
Variable index : list Byte.byte -> list ObjRow -> result (nat * list string).
(** [PackInflater.for_pack_data(PackData.from_file(...))]: the objects of a
    self-contained pack. *)
Variable inflate : list Byte.byte -> result (list ShaFile).
(** MySQL's [UNCOMPRESS]. *)
Variable UNCOMPRESS : string -> string.

(** [get_raw(name)]: statements["GET"], the row [(type, data)] or [None]. *)
Definition get_raw (self : MysqlObjectStore) (name : string) (objs : list ObjRow)
    : option (nat * string) :=
  match Sql.select_where objs_key (name, _repo self) objs with
  | row :: _ => Some (row_type row, UNCOMPRESS (row_data row))
  | [] => None
  end.

(** [compute_file_sha(f, end_ofs=-20)]: the hash of everything but the last
    20 bytes, as the bytes fed to it so far; the file is left positioned
    where those last 20 bytes start. *)
Definition compute_file_sha (f : File) : result (list Byte.byte * File) :=
  if (length (contents f) <? 20)%nat
  then Raise (OtherError 0)
  else Return (take (length (contents f) - 20) (contents f),
               seek (length (contents f) - 20) f).

(** The loop of [_complete_thin_pack] over [indexer.ext_refs()]; unpacking
    the [None] that [get_raw] gives for a missing object is a [TypeError]. *)
Fixpoint append_ext_refs (self : MysqlObjectStore) (ext_refs : list string)
    (objs : list ObjRow) (hashed : list Byte.byte) (f : File)
    : result (list Byte.byte * File) :=
  match ext_refs with
  | [] => Return (hashed, f)
  | ext_sha :: rest =>
      match get_raw self ext_sha objs with
      | None => Raise (TypeError "'NoneType' object is not iterable")
      | Some (type_num, data) =>
          append_ext_refs self rest objs (hashed ++ pack_object type_num data)
            (write (pack_object type_num data) f)
      end
  end.

(** [_complete_thin_pack(f, indexer)] *)
Definition _complete_thin_pack (self : MysqlObjectStore) (entries : nat)
    (ext_refs : list string) (objs : list ObjRow) (f : File) : result File :=
  let f1 := write (pack_header (entries + length ext_refs)) (seek 0 f) in
  match compute_file_sha f1 with
  | Raise e => Raise e
  | Return (hashed, f2) =>
      match append_ext_refs self ext_refs objs hashed f2 with
      | Raise e => Raise e
      | Return (hashed', f3) => Return (write (sha1 hashed') f3)
      end
  end.

(** [self._add_object(...)] called with positional arguments: the method has
    the one parameter [obj]. *)
Definition call_add_object (self : MysqlObjectStore) (args : list arg)
    (objs : list ObjRow) : result unit * list ObjRow :=
  match args with
  | [AObject obj] => _add_object COMPRESS self obj objs
  | _ => (Raise (TypeError "_add_object() takes exactly 2 arguments"), objs)
  end.

(** The closure [commit] of [add_pack]: every object of the buffer is passed
    to [self._add_object(obj, cursor)]. *)
Fixpoint commit_objects (self : MysqlObjectStore) (cursor : nat)
    (objects : list ShaFile) (objs : list ObjRow) : result unit * list ObjRow :=
  match objects with
  | [] => (Return tt, objs)
  | obj :: rest =>
      match call_add_object self [AObject obj; ACursor cursor] objs with
      | (Raise e, objs') => (Raise e, objs')
      | (Return _, objs') => commit_objects self cursor rest objs'
      end
  end.

Definition commit (self : MysqlObjectStore) (cursor : nat) (f : File)
    (objs : list ObjRow) : result unit * list ObjRow :=
  match inflate (contents f) with
  | Raise e => (Raise e, objs)
  | Return objects => commit_objects self cursor objects objs
  end.

(** [self.add_pack(...)] called with positional arguments: the method has
    the one parameter [cursor]; it returns the empty buffer (and the closures
    [commit] and [abort], which are [commit] above on that cursor and a
    no-op). *)
Definition call_add_pack (self : MysqlObjectStore) (args : list arg)
    : result (File * nat) :=
  match args with
  | [ACursor cursor] => Return ({| contents := []; position := 0 |}, cursor)
  | _ => Raise (TypeError "add_pack() takes exactly 2 arguments (1 given)")
  end.

(** [add_thin_pack(read_all, read_some)], on the bytes of the stream. *)
Definition add_thin_pack (self : MysqlObjectStore) (stream : list Byte.byte)
    (objs : list ObjRow) : result unit * list ObjRow :=
  match call_add_pack self [] with
  | Raise e => (Raise e, objs)
  | Return (f, cursor) =>
      let completed :=
        match verify stream with
        | Raise e => Raise e
        | Return _ =>
            let f1 := write stream f in
            match index stream objs with
            | Raise e => Raise e
            | Return (entries, ext_refs) =>
                _complete_thin_pack self entries ext_refs objs f1
            end
        end in
      match completed with
      | Raise e => (Raise e, objs)
      | Return f2 => commit self cursor f2 objs
      end
  end.

(** The bytes before and after the position of a file. *)
Definition before (f : File) : list Byte.byte := take (position f) (contents f).
Definition after (f : File) : list Byte.byte := drop (position f) (contents f).

Lemma write_before data f :
  position f <= length (contents f) -> before (write data f) = before f ++ data.
Proof.
  intros Hpos. unfold before, write. cbn [contents position].
  rewrite (app_assoc _ data). apply take_app_length'.
  by rewrite length_app, length_take_le.
Qed.

Lemma write_after data f :
  position f <= length (contents f) ->
  after (write data f) = drop (length data) (after f).
Proof.
  intros Hpos. unfold after, write. cbn [contents position].
  rewrite (app_assoc _ data), drop_app_length'
    by (by rewrite length_app, length_take_le).
  by rewrite drop_drop.
Qed.

Lemma write_position data f :
  position f <= length (contents f) ->
  position (write data f) <= length (contents (write data f)).
Proof.
  intros Hpos. unfold write. cbn [contents position].
  rewrite !length_app, length_take_le by done. lia.
Qed.

Lemma before_after f : contents f = before f ++ after f.
Proof. unfold before, after. by rewrite take_drop. Qed.

(** The bytes that [write_pack_object] writes for the external references. *)
Definition ext_objects (self : MysqlObjectStore) (ext_refs : list string)
    (objs : list ObjRow) : list Byte.byte :=
  concat ((fun sha =>
             match get_raw self sha objs with
             | Some (type_num, data) => pack_object type_num data
             | None => []
             end) <$> ext_refs).

Lemma append_ext_refs_layout self ext_refs objs hashed f :
  position f <= length (contents f) ->
  Forall (fun sha => is_Some (get_raw self sha objs)) ext_refs ->
  exists f',
    append_ext_refs self ext_refs objs hashed f
    = Return (hashed ++ ext_objects self ext_refs objs, f') /\
    position f' <= length (contents f') /\
    before f' = before f ++ ext_objects self ext_refs objs /\
    after f' = drop (length (ext_objects self ext_refs objs)) (after f).
Proof.
  intros Hpos Hall. revert hashed f Hpos.
  induction Hall as [|sha rest [[t d] Hsha] _ IH]; intros hashed f Hpos.
  - exists f. unfold ext_objects. cbn. by rewrite !app_nil_r.
  - cbn [append_ext_refs]. rewrite Hsha.
    destruct (IH (hashed ++ pack_object t d) (write (pack_object t d) f)
                 (write_position _ _ Hpos)) as (f' & Happ & Hle & Hb & Ha).
    exists f'. unfold ext_objects in *. cbn [fmap list_fmap concat].
    rewrite Hsha. fold (list_fmap string (list Byte.byte)).
    rewrite Happ, Hb, Ha, write_before, write_after by done.
    rewrite <- !app_assoc, drop_drop, length_app. done.
Qed.

(** X11. The layout of the completed buffer: when the buffer holds a header of
    the length of [pack_header], the entries, and a trailer of 20 bytes, and
    every external reference is in the store, [_complete_thin_pack] leaves
    the header for the entries and the external references together, the
    entries, the external references as full objects, and the digest of all
    the bytes before it. *)
Lemma complete_thin_pack_layout self entries ext_refs objs header body trailer :
  (forall n, length (pack_header n) = length header) ->
  (forall bytes, length (sha1 bytes) = 20) ->
  length trailer = 20 ->
  Forall (fun sha => is_Some (get_raw self sha objs)) ext_refs ->
  let patched := pack_header (entries + length ext_refs) ++ body
                 ++ ext_objects self ext_refs objs in
  contents <$> match _complete_thin_pack self entries ext_refs objs
                       {| contents := header ++ body ++ trailer;
                          position := length (header ++ body ++ trailer) |} with
               | Return f => Some f
               | Raise _ => None
               end
  = Some (patched ++ sha1 patched).
Proof.
  intros Hheader Hsha Htrailer Hall patched. unfold _complete_thin_pack.
  set (new_header := pack_header (entries + length ext_refs)).
  assert (write new_header (seek 0 {| contents := header ++ body ++ trailer;
                                      position := length (header ++ body ++ trailer) |})
          = {| contents := new_header ++ body ++ trailer;
               position := length new_header |}) as ->.
  { unfold write, seek. cbn. f_equal.
    unfold new_header. rewrite Hheader. by rewrite drop_app_length. }
  unfold compute_file_sha. cbn [contents].
  assert (length (new_header ++ body ++ trailer) - 20 = length (new_header ++ body))
    as Hcut by (rewrite !length_app; lia).
  rewrite Hcut.
  destruct (Nat.ltb_spec (length (new_header ++ body ++ trailer)) 20) as [Hlt|_].
  { rewrite !length_app in Hlt. lia. }
  rewrite (app_assoc new_header body trailer), take_app_length.
  set (f2 := seek _ _).
  assert (position f2 <= length (contents f2)) as Hpos
    by (unfold f2, seek; cbn; rewrite !length_app; lia).
  destruct (append_ext_refs_layout self ext_refs objs (new_header ++ body) f2 Hpos Hall)
    as (f3 & -> & Hle & Hb & Ha).
  cbn [fmap option_fmap option_map].
  rewrite (before_after (write _ f3)), write_before, write_after, Hb, Ha by done.
  assert (before f2 = new_header ++ body) as ->
    by (unfold before, f2, seek; cbn; apply take_app_length).
  assert (after f2 = trailer) as ->
    by (unfold after, f2, seek; cbn; apply drop_app_length).
  rewrite drop_drop, drop_ge by (rewrite Hsha; lia).
  unfold patched. fold new_header. by rewrite app_nil_r, <- !app_assoc.
Qed.

(** C1, the defect: [add_thin_pack] calls [self.add_pack()] with no cursor,
    while [add_pack] requires one: whatever the stream, the call raises
    [TypeError] before a byte is read, and nothing is stored. *)
Theorem add_thin_pack_raises (self : MysqlObjectStore) (stream : list Byte.byte)
    (objs : list ObjRow) :
  add_thin_pack self stream objs
  = (Raise (TypeError "add_pack() takes exactly 2 arguments (1 given)"), objs).
Proof. reflexivity. Qed.

(** Had the buffer been completed, [commit] would fail as well: it passes
    the cursor to [_add_object], which takes the object only. *)
Lemma commit_raises self cursor f obj objects objs :
  inflate (contents f) = Return (obj :: objects) ->
  commit self cursor f objs
  = (Raise (TypeError "_add_object() takes exactly 2 arguments"), objs).
Proof. intros Hinflate. unfold commit. by rewrite Hinflate. Qed.

End Packs.
End ThinPack.

(** ** [slyd/gitstorage/repo.py]: the refs container *)
Module Refs.

(** A row of the table [refs]; its primary key is [(ref, repo)]. *)
Record RefRow := {
  row_ref : string;
  row_value : string;
  row_repo : string
}.

Definition refs_key (r : RefRow) : string * string := (row_ref r, row_repo r).

Record MysqlRefsContainer := { _repo : string }.

(** statements["GET"], then [row[0] if row else None]. *)
Definition read_loose_ref (self : MysqlRefsContainer) (name : string)
    (refs : list RefRow) : option string :=
  match Sql.select_where refs_key (name, _repo self) refs with
  | row :: _ => Some (row_value row)
  | [] => None
  end.

Definition get_packed_refs : list (string * string) := [].

(** statements["ADD"]: [REPLACE INTO refs VALUES(name, value, repo)]. *)
Definition _update_ref (self : MysqlRefsContainer) (name value : string)
    (refs : list RefRow) : list RefRow :=
  Sql.replace_into refs_key
    {| row_ref := name; row_value := value; row_repo := _repo self |} refs.

(** Python's [old_ref != current_ref] on a string and a string or [None]. *)
Definition ref_ne (old_ref : string) (current_ref : option string) : bool :=
  negb (bool_decide (current_ref = Some old_ref)).

Section SetIfEquals.
(** The two methods that [MysqlRefsContainer] inherits from dulwich's
    [RefsContainer]: [_follow] resolves a chain of symbolic refs to the
    name of its last ref (and that ref's contents), [_check_refname]
    raises unless the name is acceptable. *)
Variable _follow :
  MysqlRefsContainer -> string -> list RefRow -> result (string * option string).
Variable _check_refname : string -> result unit.

Definition set_if_equals (self : MysqlRefsContainer) (name : string)
    (old_ref : option string) (new_ref : string) (refs : list RefRow)
    : result bool * list RefRow :=
  let stale :=
    match old_ref with
    | Some old => ref_ne old (read_loose_ref self name refs)
    | None => false
    end in
  if stale then (Return false, refs)
  else
    match _follow self name refs with
    | Raise e => (Raise e, refs)
    | Return (realname, _) =>
        match _check_refname realname with
        | Raise e => (Raise e, refs)
        | Return _ => (Return true, _update_ref self realname new_ref refs)
        end
    end.


Lemma read_after_update self name value refs :
  read_loose_ref self name (_update_ref self name value refs) = Some value.
Proof.
  unfold read_loose_ref, _update_ref.
  by rewrite (Sql.select_where_replace_eq refs_key
    {| row_ref := name; row_value := value; row_repo := _repo self |}).
Qed.



End SetIfEquals.
End Refs.

(** ** The dulwich methods behind [set_if_equals]

    [dulwich.refs.RefsContainer._follow], [_check_refname] and
    [check_ref_format], which [MysqlRefsContainer] inherits and calls. *)
Module Dulwich.
Import Refs.

Definition SYMREF : string := "ref: ".

Definition startswith (s pre : string) : bool := String.prefix pre s.

Fixpoint contains (needle hay : string) : bool :=
  String.prefix needle hay ||
  match hay with
  | EmptyString => false
  | String _ rest => contains needle rest
  end.

Fixpoint endswith (s suf : string) : bool :=
  String.eqb suf s ||
  match s with
  | EmptyString => false
  | String _ rest => endswith rest suf
  end.

Fixpoint forallb_string (p : ascii -> bool) (s : string) : bool :=
  match s with
  | EmptyString => true
  | String c rest => p c && forallb_string p rest
  end.

(** [BAD_REF_CHARS = set('\177 ~^:?*[')] *)
Definition BAD_REF_CHARS : list ascii :=
  [ascii_of_nat 127; " "; "~"; "^"; ":"; "?"; "*"; "["]%char.

Definition bad_ref_char (c : ascii) : bool :=
  (nat_of_ascii c <? 32)%nat || bool_decide (c ∈ BAD_REF_CHARS).

Definition check_ref_format (refname : string) : bool :=
  if contains "/." refname || startswith refname "." then false
  else if negb (contains "/" refname) then false
  else if contains ".." refname then false
  else if negb (forallb_string (fun c => negb (bad_ref_char c)) refname) then false
  else if endswith refname "/" || endswith refname "." then false
  else if endswith refname ".lock" then false
  else if contains "@{" refname then false
  else if contains "\" refname then false
  else true.

(** [_check_refname]: the name must be [HEAD], [refs/stash], or a
    well-formed name under [refs/]. *)
Definition _check_refname (name : string) : result unit :=
  if bool_decide (name = "HEAD") || bool_decide (name = "refs/stash")
  then Return tt
  else if negb (startswith name "refs/")
          || negb (check_ref_format (String.substring 5 (String.length name - 5) name))
  then Raise (RefFormatError name)
  else Return tt.

(** [read_ref]: the loose ref, else the (empty) packed refs. *)
Definition read_ref (self : MysqlRefsContainer) (refname : string)
    (refs : list RefRow) : option string :=
  match read_loose_ref self refname refs with
  | Some contents =>
      if bool_decide (contents = "") then None else Some contents
  | None => None
  end.

(** The loop of [_follow], with [hops] further symbolic refs allowed before
    the depth exceeds 5. *)
Fixpoint follow_from (hops : nat) (self : MysqlRefsContainer) (name refname : string)
    (refs : list RefRow) : result (string * option string) :=
  match read_ref self refname refs with
  | None => Return (refname, None)
  | Some contents =>
      match hops with
      | O => Raise (KeyError name)
      | S hops' =>
          if startswith contents SYMREF
          then follow_from hops' self name
                 (String.substring 5 (String.length contents - 5) contents) refs
          else Return (refname, Some contents)
      end
  end.

Definition _follow (self : MysqlRefsContainer) (name : string)
    (refs : list RefRow) : result (string * option string) :=
  follow_from 5 self name name refs.

Definition set_if_equals := Refs.set_if_equals _follow _check_refname.

Example check_refname_master : _check_refname "refs/heads/master" = Return tt.
Proof. reflexivity. Qed.

Example check_refname_head : _check_refname "HEAD" = Return tt.
Proof. reflexivity. Qed.

Example check_refname_lock :
  _check_refname "refs/heads/a.lock" = Raise (RefFormatError "refs/heads/a.lock").
Proof. reflexivity. Qed.

Example follow_head :
  _follow {| _repo := "p" |} "HEAD"
    [ {| row_ref := "HEAD"; row_value := "ref: refs/heads/master"; row_repo := "p" |} ]
  = Return ("refs/heads/master", None).
Proof. reflexivity. Qed.


End Dulwich.

(** ** [slyd/gitstorage/repo.py]: [ReconnectionPool._runWithConnection] *)
Module Pool.

Definition RETRIES : nat := 3.

(** [except ERRORS]: [ConnectionLost], [OperationalError] and [IOError]. *)
Definition in_ERRORS (e : exn) : bool :=
  match e with
  | ConnectionLost _ | OperationalError _ _ | IOError _ => true
  | _ => false
  end.

(** [isinstance(e, OperationalError) and e[0] not in (2006, 2013, 1213)] *)
Definition not_retryable (e : exn) : bool :=
  match e with
  | OperationalError code _ =>
      negb (bool_decide (code ∈ [2006%Z; 2013%Z; 1213%Z]))
  | _ => false
  end.

(** What the runner does to the leased connection and to the operation. *)
Inductive event : Type :=
| Lease
| Invoke
| Commit
| Rollback
| Reconnect.

#[global] Instance event_eq_dec : EqDecision event.
Proof. solve_decision. Defined.

Definition invocations (log : list event) : nat :=
  length (filter (fun ev => ev = Invoke) log).

Section Runner.
(** The world the operation and the connection act on, and the type of
    the operation's result. *)
Variables (W V : Type).
(** [connectionFactory] and the wiring of the connection into a manager
    (lines 45 to 58): an exception other than [AttributeError] and
    [UnboundLocalError] escapes. *)
Variable lease : W -> option exn * W.
(** [func(conn, *args, **kw)] *)
Variable func : W -> result V * W.
(** [conn.commit()], [conn.rollback()], [conn.reconnect()] *)
Variable commit : W -> option exn * W.
Variable rollback : W -> option exn * W.
Variable reconnect : W -> option exn * W.

(** The body of the second [try]: the operation, then the commit. *)
Definition attempt (w : W) : result V * W * list event :=
  match func w with
  | (Raise e, w1) => (Raise e, w1, [Invoke])
  | (Return v, w1) =>
      match commit w1 with
      | (Some e, w2) => (Raise e, w2, [Invoke; Commit])
      | (None, w2) => (Return v, w2, [Invoke; Commit])
      end
  end.

(** [run left] is the call with [_retries = RETRIES - left]; the test
    [retries >= RETRIES] is [left = 0], and [retries + 1] leaves one
    retry less. *)
Fixpoint run (left : nat) (w : W) : result V * W * list event :=
  match lease w with
  | (Some e, w0) => (Raise e, w0, [Lease])
  | (None, w0) =>
      match attempt w0 with
      | (Return v, w1, log) => (Return v, w1, Lease :: log)
      | (Raise e, w1, log) =>
          if in_ERRORS e then
            match left with
            | O => (Raise e, w1, Lease :: log)
            | S left' =>
                if not_retryable e then (Raise e, w1, Lease :: log)
                else
                  let '(_, w2) := rollback w1 in
                  match reconnect w2 with
                  | (Some e', w3) =>
                      (Raise e', w3, Lease :: log ++ [Rollback; Reconnect])
                  | (None, w3) =>
                      let '(r, w4, log') := run left' w3 in
                      (r, w4, Lease :: log ++ [Rollback; Reconnect] ++ log')
                  end
            end
          else
            let '(_, w2) := rollback w1 in
            (Raise e, w2, Lease :: log ++ [Rollback])
      end
  end.

Definition _runWithConnection (retries : nat) (w : W) : result V * W * list event :=
  run (RETRIES - retries) w.

Lemma attempt_invocations w : invocations (attempt w).2 = 1.
Proof.
  unfold attempt. destruct (func w) as [[v|e] w1]; [|done].
  by destruct (commit w1) as [[e|] w2].
Qed.

Lemma invocations_app l1 l2 :
  invocations (l1 ++ l2) = invocations l1 + invocations l2.
Proof. unfold invocations. by rewrite filter_app, length_app. Qed.

Lemma invocations_cons_other ev l :
  ev <> Invoke -> invocations (ev :: l) = invocations l.
Proof. intros Hne. unfold invocations. rewrite filter_cons. by case_decide. Qed.

Lemma invocations_nil : invocations [] = 0.
Proof. done. Qed.

Ltac count_invocations :=
  cbn [snd] in *;
  repeat first [ rewrite invocations_app
               | rewrite invocations_cons_other by done
               | rewrite invocations_nil ].

Lemma run_invocations left w : invocations (run left w).2 <= S left.
Proof.
  revert w. induction left as [|left IH]; intros w; cbn [run].
  - destruct (lease w) as [[e0|] w0]; [count_invocations; lia|].
    pose proof (attempt_invocations w0) as Hat.
    destruct (attempt w0) as [[[v|e] w1] log]; [count_invocations; lia|].
    destruct (in_ERRORS e); [|destruct (rollback w1) as [? w2]];
      count_invocations; lia.
  - destruct (lease w) as [[e0|] w0]; [count_invocations; lia|].
    pose proof (attempt_invocations w0) as Hat.
    destruct (attempt w0) as [[[v|e] w1] log]; [count_invocations; lia|].
    destruct (in_ERRORS e).
    + destruct (not_retryable e); [count_invocations; lia|].
      destruct (rollback w1) as [? w2].
      destruct (reconnect w2) as [[e'|] w3]; [count_invocations; lia|].
      specialize (IH w3). destruct (run left w3) as [[r w4] log'].
      count_invocations. lia.
    + destruct (rollback w1) as [? w2]. count_invocations. lia.
Qed.

Lemma run_retry_step retries :
  retries < RETRIES -> RETRIES - retries = S (RETRIES - S retries).
Proof. unfold RETRIES. lia. Qed.

(** C5. With the connection leased: a successful operation is committed
    and its result returned; an error of [ERRORS] that is retryable, with
    fewer than [RETRIES] retries made, is followed by a rollback (whose own
    failure is ignored), a reconnection and a complete new run with one
    more retry counted; an error of [ERRORS] met after [RETRIES] retries,
    or a non-retryable [OperationalError], is raised again as it is, with
    no rollback; any other exception is followed by a rollback and raised
    again as it is; and the operation is invoked at most
    [RETRIES - retries + 1] times. *)
Theorem runWithConnection_spec (retries : nat) (w w0 : W) :
  lease w = (None, w0) ->
  (forall v w1 w2,
     func w0 = (Return v, w1) -> commit w1 = (None, w2) ->
     _runWithConnection retries w = (Return v, w2, [Lease; Invoke; Commit])) /\
  (forall e w1 log re w2 w3,
     attempt w0 = (Raise e, w1, log) ->
     in_ERRORS e = true -> not_retryable e = false -> retries < RETRIES ->
     rollback w1 = (re, w2) -> reconnect w2 = (None, w3) ->
     _runWithConnection retries w =
     let '(r, w4, log') := _runWithConnection (S retries) w3 in
     (r, w4, Lease :: log ++ [Rollback; Reconnect] ++ log')) /\
  (forall e w1 log,
     attempt w0 = (Raise e, w1, log) ->
     in_ERRORS e = true ->
     RETRIES <= retries \/ not_retryable e = true ->
     _runWithConnection retries w = (Raise e, w1, Lease :: log)) /\
  (forall e w1 log re w2,
     attempt w0 = (Raise e, w1, log) ->
     in_ERRORS e = false ->
     rollback w1 = (re, w2) ->
     _runWithConnection retries w = (Raise e, w2, Lease :: log ++ [Rollback])) /\
  invocations (_runWithConnection retries w).2 <= S (RETRIES - retries).
Proof.
  intros Hlease. unfold _runWithConnection. repeat split.
  - intros v w1 w2 Hf Hc.
    destruct (RETRIES - retries); cbn [run]; unfold attempt;
      by rewrite Hlease, Hf, Hc.
  - intros e w1 log re w2 w3 Hat Herr Hretry Hlt Hrb Hrc.
    rewrite (run_retry_step _ Hlt). cbn [run].
    rewrite Hlease, Hat, Herr, Hretry, Hrb, Hrc.
    by destruct (run (RETRIES - S retries) w3) as [[r w4] log'].
  - intros e w1 log Hat Herr [Hge|Hnr].
    + replace (RETRIES - retries) with 0 by lia. cbn [run].
      by rewrite Hlease, Hat, Herr.
    + destruct (RETRIES - retries); cbn [run];
        by rewrite Hlease, Hat, Herr, ?Hnr.
  - intros e w1 log re w2 Hat Herr Hrb.
    destruct (RETRIES - retries); cbn [run];
      by rewrite Hlease, Hat, Herr, Hrb.
  - apply run_invocations.
Qed.
End Runner.

(** A server that drops the connection during the first [n] invocations;
    the world counts the invocations made so far. *)
Definition flaky (n : nat) (made : nat) : result nat * nat :=
  if (made <? n)%nat then (Raise (ConnectionLost made), S made)
  else (Return made, S made).

Definition fine (w : nat) : option exn * nat := (None, w).

Example recovers_after_three_drops :
  _runWithConnection nat nat fine (flaky 3) fine fine fine 0 0
  = (Return 3, 4,
     [Lease; Invoke; Rollback; Reconnect; Lease; Invoke; Rollback; Reconnect;
      Lease; Invoke; Rollback; Reconnect; Lease; Invoke; Commit]).
Proof. reflexivity. Qed.

Example gives_up_after_four_drops :
  _runWithConnection nat nat fine (flaky 4) fine fine fine 0 0
  = (Raise (ConnectionLost 3), 4,
     [Lease; Invoke; Rollback; Reconnect; Lease; Invoke; Rollback; Reconnect;
      Lease; Invoke; Rollback; Reconnect; Lease; Invoke]).
Proof. reflexivity. Qed.

Example syntax_error_is_not_retried :
  _runWithConnection nat nat fine
    (fun w => (Raise (OperationalError 1064 0), w)) fine fine fine 0 0
  = (Raise (OperationalError 1064 0), 0, [Lease; Invoke]).
Proof. reflexivity. Qed.

Example deadlock_is_retried :
  invocations
    (_runWithConnection nat nat fine
       (fun w => (Raise (OperationalError 1213 0), w)) fine fine fine 0 0).2
  = 4.
Proof. reflexivity. Qed.

Example other_error_rolls_back :
  _runWithConnection nat nat fine
    (fun w => (Raise (KeyError "x"), w)) fine fine fine 0 0
  = (Raise (KeyError "x"), 0, [Lease; Invoke; Rollback]).
Proof. reflexivity. Qed.

Lemma runWithConnection_spec_witness :
  _runWithConnection nat nat fine (flaky 0) fine fine fine 0 0
  = (Return 0, 1, [Lease; Invoke; Commit]).
Proof.
  exact (proj1 (runWithConnection_spec nat nat fine (flaky 0) fine fine fine
                  0 0 0 eq_refl) 0 1 1 eq_refl eq_refl).
Defined.
End Pool.

(** ** [slyd/orm]: models, snapshot stores and the identity map *)
Module Orm.

(** The names of the generations, in their canonical order. *)
Definition default_snapshots : list string := ["working"; "staged"; "committed"].

(** A model instance as a Python object: its [data_key] (the class, by its
    registered name, and the primary key), the storage collaborator it is
    attached to (by identity), its snapshot order, the attributes being set by
    [__init__], and the identity of the object itself.  The field values live
    in the snapshot store. *)
Record Model := {
  data_key : string * string;
  storage : option nat;
  snapshots : list string;
  _initializing : list string;
  self_id : nat
}.

(** [self.__class__]: [with_snapshots] and [__init__] only ever build a
    [data_key] whose first component is the class of the instance. *)
Definition cls (m : Model) : string := (data_key m).1.

#[global] Instance Model_eq_dec : EqDecision Model.
Proof. solve_decision. Defined.

(** Python values held in fields or compared with a model. *)
#[warnings="-register-all"]
Inductive value : Type :=
| VNone
| VBool (b : bool)
| VStr (s : string)
| VClass (name : string)
| VTuple (items : list value)
| VList (items : list value)
| VModel (m : Model)
| VCollection (address : nat).

(** [kwargs[name]] *)
Definition kwarg (name : string) (kwargs : list (string * value)) : option value :=
  snd <$> (snd <$> list_find (fun kv => kv.1 = name) kwargs).

(** [Model.__init__], lines 151 to 161: without an explicit [_data_key] the
    key is the pair of the class and of the primary key given in [kwargs];
    [snapshots or default_snapshots].  Primary keys are [String] fields. *)
Definition Model__init__ (class_name pk_field : string) (self : nat)
    (storage : option nat) (snaps : list string) (kwargs : list (string * value))
    : result Model :=
  match kwarg pk_field kwargs with
  | None => Raise (TypeError "must be initialized with a value for the primary key")
  | Some (VStr pk) =>
      Return {| data_key := (class_name, pk);
                storage := storage;
                snapshots := match snaps with [] => default_snapshots | _ => snaps end;
                _initializing := kwargs.*1;
                self_id := self |}
  | Some _ => Raise (ValidationError "Not a valid string.")
  end.

(** The tuple [(self.__class__, pk)] as a Python value. *)
Definition key_tuple (k : string * string) : value := VTuple [VClass k.1; VStr k.2].

(** Python's [==] on the values above; two models are compared by
    [Model.__eq__], that is by [data_key]. *)
Fixpoint value_eqb (a b : value) {struct a} : bool :=
  match a, b with
  | VNone, VNone => true
  | VBool x, VBool y => bool_decide (x = y)
  | VStr x, VStr y => bool_decide (x = y)
  | VClass x, VClass y => bool_decide (x = y)
  | VTuple xs, VTuple ys | VList xs, VList ys =>
      (fix go (xs ys : list value) : bool :=
         match xs, ys with
         | [], [] => true
         | x :: xs', y :: ys' => value_eqb x y && go xs' ys'
         | _, _ => false
         end) xs ys
  | VModel m, VModel n => bool_decide (data_key m = data_key n)
  | VCollection c, VCollection d => bool_decide (c = d)
  | _, _ => false
  end.

(** [Model.__eq__]: another model is compared by [data_key], a tuple is
    compared with [data_key], anything else is unequal. *)
Definition Model__eq__ (self : Model) (other : value) : bool :=
  match other with
  | VModel o => bool_decide (data_key o = data_key self)
  | VTuple _ => value_eqb other (key_tuple (data_key self))
  | _ => false
  end.

(** [Model.__ne__] *)
Definition Model__ne__ (self : Model) (other : value) : bool :=
  negb (Model__eq__ self other).

Lemma value_eqb_key_tuple (k k' : string * string) :
  value_eqb (key_tuple k) (key_tuple k') = bool_decide (k = k').
Proof.
  destruct k as [c p], k' as [c' p']. cbn.
  repeat case_bool_decide; simplify_eq/=; done.
Qed.

Lemma Model__init__data_key class_name pk_field self st snaps kwargs m :
  Model__init__ class_name pk_field self st snaps kwargs = Return m ->
  cls m = class_name /\ kwarg pk_field kwargs = Some (VStr (data_key m).2).
Proof.
  unfold Model__init__. destruct (kwarg pk_field kwargs) as [[]|]; try done.
  intros [= <-]. done.
Qed.

(** C10. Equality of models is decided by the identity key alone: two models
    are equal exactly when they have the same class and the same primary key
    (their [data_key]), whatever their storage, snapshot order or object
    identity, and without reading any store; for two constructed models this
    is the class they were built from and the primary key they were given;
    a model equals a tuple exactly when the tuple is its
    [(class, primary key)] pair; and [!=] is the negation of [==]. *)
Theorem model_equality_by_data_key (a b : Model) (other : value)
    (k : string * string) :
  (Model__eq__ a (VModel b) = true <->
     cls a = cls b /\ (data_key a).2 = (data_key b).2) /\
  (Model__eq__ a (VModel b) = true <-> data_key a = data_key b) /\
  (forall ca cb pa pb ia ib sa sb na nb ka kb,
     Model__init__ ca pa ia sa na ka = Return a ->
     Model__init__ cb pb ib sb nb kb = Return b ->
     (Model__eq__ a (VModel b) = true <->
      ca = cb /\ kwarg pa ka = kwarg pb kb)) /\
  Model__eq__ a (key_tuple (data_key a)) = true /\
  (Model__eq__ a (key_tuple k) = true <-> k = data_key a) /\
  Model__ne__ a other = negb (Model__eq__ a other).
Proof.
  assert (Model__eq__ a (VModel b) = true <-> data_key a = data_key b) as Hkey.
  { unfold Model__eq__. rewrite bool_decide_eq_true. split; congruence. }
  split; [|split; [done|split; [|split; [|split]]]].
  - rewrite Hkey. unfold cls. destruct (data_key a), (data_key b). cbn.
    split; [by intros [= -> ->]|by intros [-> ->]].
  - intros ca cb pa pb ia ib sa sb na nb ka kb Ha Hb.
    apply Model__init__data_key in Ha as [Hca Hpa], Hb as [Hcb Hpb].
    rewrite Hkey, Hpa, Hpb. unfold cls in *.
    destruct (data_key a), (data_key b). cbn in *. subst.
    split; [by intros [= -> ->]|by intros [-> [= ->]]].
  - unfold Model__eq__, key_tuple at 1. fold (key_tuple (data_key a)).
    rewrite value_eqb_key_tuple. by apply bool_decide_eq_true.
  - unfold Model__eq__, key_tuple at 1. fold (key_tuple k).
    rewrite value_eqb_key_tuple. by rewrite bool_decide_eq_true.
  - done.
Qed.

Lemma model_equality_witness :
  let a := {| data_key := ("Schema", "s1"); storage := Some 1;
              snapshots := ["committed"]; _initializing := ["id"];
              self_id := 7 |} in
  let b := {| data_key := ("Schema", "s1"); storage := None;
              snapshots := default_snapshots; _initializing := ["id"; "name"];
              self_id := 9 |} in
  Model__eq__ a (VModel b) = true.
Proof.
  intros a b.
  apply (proj2 (proj1 (proj2 (proj2 (model_equality_by_data_key a b VNone ("", ""))))
    "Schema" "Schema" "id" "id" 7 9 (Some 1) None ["committed"] []
    [("id", VStr "s1")] [("id", VStr "s1"); ("name", VStr "default")]
    eq_refl eq_refl)).
  split; reflexivity.
Defined.

Example equal_whatever_the_handle :
  Model__eq__
    {| data_key := ("Schema", "s1"); storage := Some 1;
       snapshots := ["committed"]; _initializing := []; self_id := 7 |}
    (VModel {| data_key := ("Schema", "s1"); storage := None;
               snapshots := default_snapshots; _initializing := ["name"];
               self_id := 9 |})
  = true.
Proof. reflexivity. Qed.

Example unequal_across_classes :
  Model__eq__
    {| data_key := ("Schema", "s1"); storage := None;
       snapshots := default_snapshots; _initializing := []; self_id := 1 |}
    (VModel {| data_key := ("Field", "s1"); storage := None;
               snapshots := default_snapshots; _initializing := []; self_id := 2 |})
  = false.
Proof. reflexivity. Qed.

Example unequal_to_longer_tuple :
  Model__eq__
    {| data_key := ("Schema", "s1"); storage := None;
       snapshots := default_snapshots; _initializing := []; self_id := 1 |}
    (VTuple [VClass "Schema"; VStr "s1"; VNone])
  = false.
Proof. reflexivity. Qed.

(** *** Snapshot stores *)

(** Modelled from the spec: [slyd/orm/snapshots.py] ([ModelSnapshots]) is not
    part of the sources; section 4.4 of the specification describes it.  A
    store holds named generations, each a partial mapping from field to
    value. *)
Abbreviation ModelSnapshots := (gmap string (gmap string value)).

(** [store[generation]] *)
Definition generation (g : string) (st : ModelSnapshots) : gmap string value :=
  default ∅ (st !! g).

(** Modelled from the spec: [get(field, snapshot_order)] scans the generations
    in the given order and returns the first value present; [None] stands for
    the [KeyError] raised when the field is absent in all of them. *)
Fixpoint Snapshots_get (key : string) (order : list string) (st : ModelSnapshots)
    : option value :=
  match order with
  | [] => None
  | g :: rest =>
      match generation g st !! key with
      | Some v => Some v
      | None => Snapshots_get key rest st
      end
  end.

(** Modelled from the spec: [set(field, value, generation)] writes into exactly
    one named generation. *)
Definition Snapshots_set (key : string) (v : value) (g : string)
    (st : ModelSnapshots) : ModelSnapshots :=
  <[g := <[key := v]> (generation g st)]> st.

(** Modelled from the spec: [dirty_fields(generation, compare_against_order)]:
    a field is dirty if it is present in the generation and its value differs
    from, or is absent from, the first generation of the order that holds
    it. *)
Definition dirty_fields (g : string) (against : list string) (st : ModelSnapshots)
    : list string :=
  filter (fun k =>
            match generation g st !! k, Snapshots_get k against st with
            | Some v, Some v' => negb (value_eqb v v')
            | Some _, None => true
            | None, _ => false
            end = true)
         (map_to_list (generation g st)).*1.

(** Modelled from the spec: [update_snapshot(target, source_order, fields)]
    resolves each field by scanning the source order and writes it into the
    target. *)
Definition update_snapshot (target : string) (sources : list string)
    (fields : list string) (st : ModelSnapshots) : ModelSnapshots :=
  foldl (fun acc k =>
           match Snapshots_get k sources st with
           | Some v => Snapshots_set k v target acc
           | None => acc
           end) st fields.

(** Modelled from the spec: [clear_snapshot(generation, fields=None)] removes
    all, or a subset, of the fields of a generation. *)
Definition clear_snapshot (g : string) (fields : option (list string))
    (st : ModelSnapshots) : ModelSnapshots :=
  match fields with
  | None => <[g := ∅]> st
  | Some ks => <[g := foldl (fun m k => delete k m) (generation g st) ks]> st
  end.

Lemma generation_set_eq key v g st :
  generation g (Snapshots_set key v g st) = <[key := v]> (generation g st).
Proof. unfold generation at 1, Snapshots_set. by rewrite lookup_insert_eq. Qed.

Lemma generation_set_ne key v g g' st :
  g <> g' -> generation g' (Snapshots_set key v g st) = generation g' st.
Proof. intros Hne. unfold generation, Snapshots_set. by rewrite lookup_insert_ne. Qed.

Lemma generation_set_other key key' v g g' st :
  key <> key' ->
  generation g' (Snapshots_set key v g st) !! key' = generation g' st !! key'.
Proof.
  intros Hne. destruct (decide (g = g')) as [->|Hg].
  - by rewrite generation_set_eq, lookup_insert_ne.
  - by rewrite generation_set_ne.
Qed.

(** A value written to the generation [g] is what a reader finds, when [g] is
    the first generation of the reader's order that holds the field. *)
Lemma Snapshots_get_set key v g before after st :
  Forall (fun g' => g' <> g /\ generation g' st !! key = None) before ->
  Snapshots_get key (before ++ g :: after) (Snapshots_set key v g st) = Some v.
Proof.
  induction 1 as [|g' before [Hne Hnone] _ IH]; cbn.
  - by rewrite generation_set_eq, lookup_insert_eq.
  - rewrite generation_set_ne by done. by rewrite Hnone.
Qed.

Lemma Snapshots_get_set_other key key' v g order st :
  key <> key' ->
  Snapshots_get key' order (Snapshots_set key v g st) = Snapshots_get key' order st.
Proof.
  intros Hne. induction order as [|g' order IH]; [done|]. cbn.
  rewrite generation_set_other by done. by rewrite IH.
Qed.

(** A reader whose order does not contain the written generation sees no
    change. *)
Lemma Snapshots_get_set_hidden key key' v g order st :
  g ∉ order ->
  Snapshots_get key' order (Snapshots_set key v g st) = Snapshots_get key' order st.
Proof.
  induction order as [|g' order IH]; [done|]. intros Hnot.
  apply not_elem_of_cons in Hnot as [Hne Hnot]. cbn.
  rewrite generation_set_ne by done. by rewrite IH.
Qed.

(** *** Model classes *)

(** A path template such as [u'spiders/{self.spider.id}/{self.id}.json']:
    literal text and replacement fields [{self.a.b}]. *)
Inductive segment : Type :=
| Lit (text : string)
| Attr (names : list string).

Inductive kind : Type :=
| Plain
| BelongsTo (model related_name : string)
| HasMany (model related_name : string).

(** A declared field: what it is, [ignore_in_file], and [only] (a single
    name stands for the list of that name). *)
Record Field := {
  field_kind : kind;
  ignore_in_file : bool;
  only : option (list string)
}.

(** What the metaclass records for a model class: [_pk_field], [_fields] and
    the options [path], [owner] and [envelope] of its [Meta]. *)
Record ModelClass := {
  _pk_field : string;
  _fields : list (string * Field);
  opts_path : option (list segment);
  opts_owner : option string;
  opts_envelope : bool
}.

(** [_file_fields = {k for k, f in fields if not f.ignore_in_file}] *)
Definition _file_fields (c : ModelClass) : list string :=
  (filter (fun kf => ignore_in_file kf.2 = false) (_fields c)).*1.

Definition field_of (c : ModelClass) (name : string) : option Field :=
  snd <$> (snd <$> list_find (fun kf => kf.1 = name) (_fields c)).

(** *** The heap of the model layer and the storage collaborators *)

(** A key of [Model.shared_data_store]: a storage collaborator and a
    [data_key] under it, or, for a model without storage, the model itself. *)
Inductive slot : Type :=
| Shared (storage : nat) (key : string * string)
| Own (self : nat).

#[global] Instance slot_eq_dec : EqDecision slot.
Proof. solve_decision. Defined.

#[global] Instance slot_countable : Countable slot.
Proof.
  refine (inj_countable'
    (fun s => match s with Shared st k => inl (st, k) | Own i => inr i end)
    (fun x => match x with inl (st, k) => Shared st k | inr i => Own i end) _).
  by intros [].
Defined.

(** The snapshot stores of the identity map, the collections (mutable lists
    of models, by address) and the next free object identity. *)
#[projections(primitive)]
Record Heap := {
  stores : gmap slot ModelSnapshots;
  collections : gmap nat (list Model);
  next_id : nat
}.

(** A call made on a storage collaborator. *)
Inductive call : Type :=
| Exists (storage : nat) (path : string)
| Open (storage : nat) (path : string)
| Save (storage : nat) (path : option string) (content : string)
| Delete (storage : nat) (path : option string).

#[global] Instance call_eq_dec : EqDecision call.
Proof. solve_decision. Defined.

(** The heap, [Model.loaded] (for each storage the paths already loaded),
    the files each storage holds, and the calls made on the storages. *)
#[projections(primitive)]
Record World := {
  heap : Heap;
  loaded : gmap nat (gset string);
  files : gmap nat (gmap string string);
  calls : list call
}.

Definition with_heap (h : Heap) (w : World) : World :=
  {| heap := h; loaded := loaded w; files := files w; calls := calls w |}.

Definition with_stores (s : gmap slot ModelSnapshots) (h : Heap) : Heap :=
  {| stores := s; collections := collections h; next_id := next_id h |}.

Definition with_collections (c : gmap nat (list Model)) (h : Heap) : Heap :=
  {| stores := stores h; collections := c; next_id := next_id h |}.

Definition empty_heap : Heap :=
  {| stores := ∅; collections := ∅; next_id := 0 |}.

Definition empty_world : World :=
  {| heap := empty_heap; loaded := ∅; files := ∅; calls := [] |}.

(** *** [Model.data_store]: the identity map *)

(** The key under which [data_store] finds the store of an instance:
    [shared_data_store[storage][data_key]] with a storage, and
    [shared_data_store[self]] without. *)
Definition slot_of (m : Model) : slot :=
  match storage m with
  | Some s => Shared s (data_key m)
  | None => Own (self_id m)
  end.

(** The store registered under the key of an instance; a key that was never
    used holds no field. *)
Definition store_of (m : Model) (h : Heap) : ModelSnapshots :=
  default ∅ (stores h !! slot_of m).

(** [data_store]: [setdefault] returns the store registered under the key,
    after registering a new, empty one if there was none.  Every access to
    the registry goes through [setdefault], so an absent entry and an empty
    store are not told apart, and the registry is kept as it is.  The
    property is cached on the instance; the registry never replaces an
    entry, so the cached store is the registered one. *)
Definition data_store (m : Model) (h : Heap) : ModelSnapshots * Heap :=
  (store_of m h, h).

(** [data_store.set(key, value, snapshot)] on the store of [m]. *)
Definition write_store (m : Model) (key : string) (v : value) (g : string)
    (h : Heap) : Heap :=
  with_stores (<[slot_of m := Snapshots_set key v g (store_of m h)]> (stores h)) h.

Lemma data_store_fst m h : (data_store m h).1 = store_of m h.
Proof. done. Qed.

Lemma data_store_snd m h : (data_store m h).2 = h.
Proof. done. Qed.

Lemma store_of_write_eq m m' key v g h :
  slot_of m' = slot_of m ->
  store_of m' (write_store m key v g h) = Snapshots_set key v g (store_of m h).
Proof.
  intros Heq. unfold store_of at 1, write_store. cbn.
  by rewrite Heq, lookup_insert_eq.
Qed.

Lemma store_of_write_ne m m' key v g h :
  slot_of m' <> slot_of m ->
  store_of m' (write_store m key v g h) = store_of m' h.
Proof.
  intros Hne. unfold store_of at 1, write_store. cbn.
  by rewrite lookup_insert_ne.
Qed.

(** *** Programs of the model layer *)

(** What [load] returns: [None], [instance] (which may be [None]), or a
    collection of models. *)
Inductive LoadResult : Type :=
| LNothing
| LInstance (m : option Model)
| LCollection (items : list Model).

(** Code of the model layer that runs while a document is loaded (the
    attribute access made by the rendering of a path, the decoding of a
    document into models): it returns or raises, reads and updates the heap,
    and calls [load]. *)
Inductive prog (A : Type) : Type :=
| Pure (a : A)
| Throw (e : exn)
| Ask (k : Heap -> prog A)
| Modify (f : Heap -> Heap) (k : prog A)
| CallLoad (class_name : string) (st : option nat) (instance : option Model)
    (kwargs : list (string * value)) (k : result LoadResult -> prog A).
Arguments Pure {A} a.
Arguments Throw {A} e.
Arguments Ask {A} k.
Arguments Modify {A} f k.
Arguments CallLoad {A} class_name st instance kwargs k.

(** A computation on the world that may raise, or not end within the
    depth of nested loads allowed ([None]). *)
Definition R (A : Type) : Type := World -> option (result A * World).

Definition ret {A : Type} (a : A) : R A := fun w => Some (Return a, w).

Definition throw {A : Type} (e : exn) : R A := fun w => Some (Raise e, w).

Definition bind {A B : Type} (c : R A) (k : A -> R B) : R B :=
  fun w =>
    match c w with
    | None => None
    | Some (Raise e, w1) => Some (Raise e, w1)
    | Some (Return a, w1) => k a w1
    end.

Notation "'let*' x := c 'in' k" := (bind c (fun x => k))
  (at level 10, x name, c at level 100, k at level 200).

(** *** Field access: [resolve_attributes], [get_data], [set_data] *)
Section Access.
(** The registry of model classes, by name. *)
Variable models : string -> ModelClass.
(** [self.load(self.storage, instance=self)], as [resolve_attributes] calls
    it. *)
Variable load : Model -> R LoadResult.

(** Modelled from the spec: [hasattr(data_store.accessor(snapshots), name)];
    the accessor exposes the values of the store under a snapshot order. *)
Definition hasattr_accessor (m : Model) (order : list string) (name : string)
    (h : Heap) : bool :=
  bool_decide (is_Some (Snapshots_get name order (store_of m h))).

(** [resolve_attributes], called with attribute names and [snapshots]. *)
Definition resolve_attributes (self : Model) (attributes : list string)
    (snaps : option (list string)) (w : World) : option (result unit * World) :=
  match storage self with
  | None => Some (Return tt, w)
  | Some _ =>
      let file_fields := _file_fields (models (cls self)) in
      let attributes :=
        match attributes with [] => file_fields | _ => attributes end in
      let order := default (snapshots self) snaps in
      let w1 := with_heap (data_store self (heap w)).2 w in
      if existsb
           (fun attribute =>
              bool_decide (attribute ∈ file_fields)
              && negb (bool_decide (attribute ∈ _initializing self))
              && negb (hasattr_accessor self order attribute (heap w1)))
           attributes
      then
        match load self w1 with
        | None => None
        | Some (Raise (PathResolutionError _), w2) => Some (Return tt, w2)
        | Some (Raise e, w2) => Some (Raise e, w2)
        | Some (Return _, w2) => Some (Return tt, w2)
        end
      else Some (Return tt, w1)
  end.

(** [get_data(key, default)]; [dflt = None] stands for [unspecified]. *)
Definition get_data (self : Model) (key : string) (dflt : option value)
    (w : World) : option (result value * World) :=
  match resolve_attributes self [key] None w with
  | None => None
  | Some (Raise e, w1) => Some (Raise e, w1)
  | Some (Return _, w1) =>
      let '(st, h2) := data_store self (heap w1) in
      let w2 := with_heap h2 w1 in
      match Snapshots_get key (snapshots self) st with
      | Some v => Some (Return v, w2)
      | None =>
          match dflt with
          | Some d => Some (Return d, w2)
          | None => Some (Raise (AttributeError key), w2)
          end
      end
  end.

(** [set_data(key, value)]: [data_store.set(key, value, snapshots[0])] *)
Definition set_data (self : Model) (key : string) (v : value) (w : World)
    : result unit * World :=
  match snapshots self with
  | [] => (Raise IndexError, with_heap (data_store self (heap w)).2 w)
  | g :: _ => (Return tt, with_heap (write_store self key v g (heap w)) w)
  end.

Lemma with_heap_id w : with_heap (heap w) w = w.
Proof. by destruct w. Qed.

(** Reading a field that the view of the reader holds triggers no load. *)
Lemma get_data_present (self : Model) (key : string) (dflt : option value)
    (v : value) (w : World) :
  Snapshots_get key (snapshots self) (store_of self (heap w)) = Some v ->
  get_data self key dflt w = Some (Return v, w).
Proof.
  intros Hget. unfold get_data, resolve_attributes. cbn [data_store snd].
  assert (hasattr_accessor self (snapshots self) key (heap w) = true) as Hhas.
  { unfold hasattr_accessor. apply bool_decide_eq_true. rewrite Hget. by eexists. }
  destruct (storage self); cbn [default existsb].
  - change (with_heap (heap w) w) with w. rewrite Hhas. cbn.
    rewrite andb_false_r. cbn. by rewrite Hget.
  - by rewrite Hget.
Qed.

(** C7 (amended). Two instances of one class with one primary key, attached
    to one storage, read and write one store of the identity map.  A value
    written through one of them lands in the first generation of the
    writer's order, and [get_data] on the other returns it whenever that
    generation is the first of the reader's order to hold the field; this is
    so in particular when both use the same snapshot order. *)
Theorem shared_store_visibility (a b : Model) (s : nat) (key : string)
    (v : value) (w : World) :
  storage a = Some s -> storage b = Some s -> data_key a = data_key b ->
  slot_of a = slot_of b /\
  (forall g rest, snapshots a = g :: rest ->
     (set_data a key v w).1 = Return tt /\
     store_of b (heap (set_data a key v w).2)
       = Snapshots_set key v g (store_of b (heap w)) /\
     (forall before after,
        snapshots b = before ++ g :: after ->
        Forall (fun g' => g' <> g /\
                  generation g' (store_of b (heap w)) !! key = None) before ->
        get_data b key None (set_data a key v w).2
        = Some (Return v, (set_data a key v w).2))) /\
  (snapshots b = snapshots a -> snapshots a <> [] ->
     get_data b key None (set_data a key v w).2
     = Some (Return v, (set_data a key v w).2)).
Proof.
  intros Ha Hb Hkey.
  assert (slot_of a = slot_of b) as Hslot
    by (unfold slot_of; by rewrite Ha, Hb, Hkey).
  assert (forall g rest, snapshots a = g :: rest ->
     (set_data a key v w).1 = Return tt /\
     store_of b (heap (set_data a key v w).2)
       = Snapshots_set key v g (store_of b (heap w)) /\
     (forall before after,
        snapshots b = before ++ g :: after ->
        Forall (fun g' => g' <> g /\
                  generation g' (store_of b (heap w)) !! key = None) before ->
        get_data b key None (set_data a key v w).2
        = Some (Return v, (set_data a key v w).2))) as Hgen.
  { intros g rest Hsnap. unfold set_data. rewrite Hsnap. cbn [fst snd heap with_heap].
    assert (store_of b (write_store a key v g (heap w))
            = Snapshots_set key v g (store_of b (heap w))) as Hst.
    { rewrite store_of_write_eq by done. unfold store_of. by rewrite Hslot. }
    split; [done|]. split; [done|].
    intros before after Hb_snap Hbefore.
    apply get_data_present.
    cbn [heap with_heap]. rewrite Hst, Hb_snap.
    by apply Snapshots_get_set. }
  split; [done|]. split; [done|].
  intros Hsame Hne. destruct (snapshots a) as [|g rest] eqn:Hsnap; [done|].
  destruct (Hgen g rest eq_refl) as (_ & _ & Hvis).
  apply (Hvis [] rest); [done|constructor].
Qed.
End Access.

(** *** [Model.load] and [Model.storage_path] *)

Fixpoint exec {A : Type}
    (call_load : string -> option nat -> option Model -> list (string * value)
                 -> R LoadResult)
    (p : prog A) (w : World) {struct p} : option (result A * World) :=
  match p with
  | Pure a => Some (Return a, w)
  | Throw e => Some (Raise e, w)
  | Ask k => exec call_load (k (heap w)) w
  | Modify f k => exec call_load k (with_heap (f (heap w)) w)
  | CallLoad c st inst kw k =>
      match call_load c st inst kw w with
      | None => None
      | Some (r, w1) => exec call_load (k r) w1
      end
  end.

(** Python's [str.format] on a value of a replacement field. *)
Definition py_str (v : value) : string :=
  match v with
  | VStr s => s
  | VNone => "None"
  | VBool true => "True"
  | VBool false => "False"
  | VClass name => name
  | _ => "<object>"
  end.

Definition already_loaded (st : nat) (path : string) (w : World) : bool :=
  bool_decide (path ∈ default ∅ (loaded w !! st)).

(** [cls.loaded[storage].add(path)] *)
Definition mark_loaded (st : nat) (path : string) (w : World) : World :=
  {| heap := heap w;
     loaded := <[st := {[path]} ∪ default ∅ (loaded w !! st)]> (loaded w);
     files := files w;
     calls := calls w |}.

Definition log (c : call) (w : World) : World :=
  {| heap := heap w; loaded := loaded w; files := files w;
     calls := calls w ++ [c] |}.

Definition file (st : nat) (path : string) (w : World) : option string :=
  files w !! st ≫= fun dir => dir !! path.

(** *** Each document is read at most once *)

(** How often [storage.exists(path)] and [storage.open(path)] were called. *)
Definition probed (st : nat) (path : string) (w : World) : nat :=
  length (filter (fun c => c = Exists st path) (calls w)).

Definition opened (st : nat) (path : string) (w : World) : nat :=
  length (filter (fun c => c = Open st path) (calls w)).

(** No document was probed or opened twice, and each one that was is in the
    set of the loaded paths of its storage. *)
Definition once (w : World) : Prop :=
  forall st path,
    probed st path w <= 1 /\ opened st path w <= 1 /\
    (0 < probed st path w + opened st path w -> already_loaded st path w = true).

(** [w'] follows [w]: the invariant is kept, no path leaves the loaded sets,
    and the files are the same. *)
Definition extends (w w' : World) : Prop :=
  (once w -> once w') /\
  (forall st path, already_loaded st path w = true ->
                   already_loaded st path w' = true) /\
  files w' = files w.

Definition sound {A : Type} (c : R A) : Prop :=
  forall w r w', c w = Some (r, w') -> extends w w'.

Lemma extends_refl w : extends w w.
Proof. split; [done|split; done]. Qed.

Lemma extends_trans w1 w2 w3 : extends w1 w2 -> extends w2 w3 -> extends w1 w3.
Proof.
  intros (H1 & H2 & H3) (H4 & H5 & H6). split; [|split].
  - intros. by apply H4, H1.
  - intros. by apply H5, H2.
  - by rewrite H6.
Qed.

Lemma extends_with_heap h w : extends w (with_heap h w).
Proof. split; [|split]; [intros H; exact H|intros st path H; exact H|done]. Qed.

Lemma sound_ret {A : Type} (a : A) : sound (ret a).
Proof. intros w r w' [= <- <-]. apply extends_refl. Qed.

Lemma sound_throw {A : Type} (e : exn) : sound (@throw A e).
Proof. intros w r w' [= <- <-]. apply extends_refl. Qed.

Lemma sound_bind {A B : Type} (c : R A) (k : A -> R B) :
  sound c -> (forall a, sound (k a)) -> sound (bind c k).
Proof.
  intros Hc Hk w r w'. unfold bind.
  destruct (c w) as [[[a|e] w1]|] eqn:E; [| |done].
  - intros Hka. eapply extends_trans; [by eapply Hc|by eapply Hk].
  - intros [= <- <-]. by eapply Hc.
Qed.

Lemma sound_exec {A : Type} call_load (p : prog A) :
  (forall c st i kw, sound (call_load c st i kw)) -> sound (exec call_load p).
Proof.
  intros Hload. induction p as [a|e|k IH|f k IH|c st i kw k IH]; intros w r w'; cbn.
  - intros [= <- <-]. apply extends_refl.
  - intros [= <- <-]. apply extends_refl.
  - apply IH.
  - intros Hk. eapply extends_trans; [apply extends_with_heap|by eapply IH].
  - destruct (call_load c st i kw w) as [[r1 w1]|] eqn:E; [|done].
    intros Hk. eapply extends_trans; [by eapply Hload|by eapply IH].
Qed.

Lemma count_app (c : call) (l1 l2 : list call) :
  length (filter (fun c' => c' = c) (l1 ++ l2))
  = length (filter (fun c' => c' = c) l1) + length (filter (fun c' => c' = c) l2).
Proof. by rewrite filter_app, length_app. Qed.

Lemma already_loaded_mark st path st' path' w :
  already_loaded st' path' (mark_loaded st path w)
  = bool_decide (st' = st /\ path' = path) || already_loaded st' path' w.
Proof.
  unfold already_loaded, mark_loaded. cbn.
  destruct (decide (st' = st)) as [->|Hst].
  - rewrite lookup_insert_eq. cbn.
    destruct (decide (path' = path)) as [->|Hp].
    + rewrite (bool_decide_eq_true_2 (_ /\ _)) by done. cbn.
      apply bool_decide_eq_true_2. set_solver.
    + rewrite (bool_decide_eq_false_2 (_ /\ _)) by naive_solver. cbn.
      apply bool_decide_ext. set_solver.
  - rewrite lookup_insert_ne by done.
    by rewrite (bool_decide_eq_false_2 (_ /\ _)) by naive_solver.
Qed.

(** The first load of a document: the path is recorded, then the storage is
    probed, and opened if the document exists. *)
Lemma first_load_extends st path w (was_there : bool) :
  already_loaded st path w = false ->
  let w2 := log (Exists st path) (mark_loaded st path w) in
  extends w (if was_there then log (Open st path) w2 else w2).
Proof.
  intros Hnot w2. split; [|split].
  - intros Honce st' path'. destruct (Honce st' path') as (Hp & Ho & Hl).
    assert (already_loaded st' path'
              (if was_there then log (Open st path) w2 else w2)
            = bool_decide (st' = st /\ path' = path) || already_loaded st' path' w)
      as Hloaded.
    { destruct was_there; unfold w2, log, already_loaded at 1; cbn;
        apply already_loaded_mark. }
    rewrite Hloaded.
    assert (probed st' path' (if was_there then log (Open st path) w2 else w2)
            = probed st' path' w
              + (if bool_decide (st' = st /\ path' = path) then 1 else 0)) as Hprobed.
    { unfold probed. destruct was_there; cbn; rewrite !count_app; cbn;
        rewrite ?filter_cons, ?filter_nil; repeat case_decide;
        repeat case_bool_decide; simplify_eq/=; try lia; naive_solver. }
    assert (opened st' path' (if was_there then log (Open st path) w2 else w2)
            <= opened st' path' w
              + (if bool_decide (st' = st /\ path' = path) then 1 else 0)) as Hopened.
    { unfold opened. destruct was_there; cbn; rewrite !count_app; cbn;
        rewrite ?filter_cons, ?filter_nil; repeat case_decide;
        repeat case_bool_decide; simplify_eq/=; try lia; naive_solver. }
    rewrite Hprobed. case_bool_decide as Hsame.
    + destruct Hsame as [-> ->].
      assert (probed st path w + opened st path w = 0) as Hzero.
      { destruct (decide (0 < probed st path w + opened st path w)) as [Hpos|]; [|lia].
        apply Hl in Hpos. congruence. }
      cbn. repeat split; lia.
    + cbn. repeat split; [lia|lia|]. intros Hpos. apply Hl. lia.
  - intros st' path' Hl.
    assert (already_loaded st' path'
              (if was_there then log (Open st path) w2 else w2)
            = bool_decide (st' = st /\ path' = path) || already_loaded st' path' w)
      as ->.
    { destruct was_there; unfold w2, log, already_loaded at 1; cbn;
        apply already_loaded_mark. }
    rewrite Hl. apply orb_true_r.
  - by destruct was_there.
Qed.

Section Loader.
Variable models : string -> ModelClass.
(** [getattr(v, name)] on the value of a field, under a snapshot order, as
    the rendering of [{self.a.b}] does after it has fetched [self.a]. *)
Variable getattr_value : list string -> value -> string -> prog value.
(** [cls._file_model.file_schema(strict=True, context={'storage': storage})
    .load(json.loads(content), many=many).data] *)
Variable file_schema_load : string -> nat -> string -> bool -> prog LoadResult.

Section Body.
(** How the code of the model layer is run. *)
Variable run : forall A : Type, prog A -> R A.

(** The first attribute of a replacement field: a lookup in the store of the
    instance under the snapshot order (modelled from the spec: the accessor of
    [snapshots.py]), or in the keyword arguments ([AttributeDict]). *)
Definition first_attr (data : Model + list (string * value)) (order : list string)
    (name : string) : R value :=
  fun w =>
    match data with
    | inl instance =>
        let '(st, h1) := data_store instance (heap w) in
        match Snapshots_get name order st with
        | Some v => Some (Return v, with_heap h1 w)
        | None => Some (Raise (AttributeError name), with_heap h1 w)
        end
    | inr kwargs =>
        match kwarg name kwargs with
        | Some v => Some (Return v, w)
        | None => Some (Raise (AttributeError name), w)
        end
    end.

Fixpoint rest_attrs (order : list string) (v : value) (names : list string)
    : R value :=
  match names with
  | [] => ret v
  | name :: names' =>
      let* v' := run value (getattr_value order v name) in
      rest_attrs order v' names'
  end.

(** [template.format(self=data)] *)
Fixpoint format (template : list segment) (data : Model + list (string * value))
    (order : list string) : R string :=
  match template with
  | [] => ret ""
  | Lit text :: template' =>
      let* rest := format template' data order in
      ret (text +:+ rest)
  | Attr [] :: template' =>
      let* rest := format template' data order in
      ret ("<object>" +:+ rest)
  | Attr (name :: names) :: template' =>
      let* v := first_attr data order name in
      let* v' := rest_attrs order v names in
      let* rest := format template' data order in
      ret (py_str v' +:+ rest)
  end.

(** [storage_path(data, snapshots)]: an [AttributeError] of the rendering
    becomes a [PathResolutionError]; an empty path is [None]. *)
Definition storage_path (class_name : string)
    (data : Model + list (string * value)) (order : list string)
    : R (option string) :=
  fun w =>
    match format (default [] (opts_path (models class_name))) data order w with
    | None => None
    | Some (Raise (AttributeError name), w1) =>
        Some (Raise (PathResolutionError name), w1)
    | Some (Raise e, w1) => Some (Raise e, w1)
    | Some (Return path, w1) =>
        Some (Return (if bool_decide (path = "") then None else Some path), w1)
    end.

(** [if instance and many]: the primary key of the instance must be in its
    store, or [load] returns at once. *)
Definition pk_guard (class_name : string) (instance : option Model) (w : World)
    : bool * World :=
  let c := models class_name in
  match instance with
  | Some inst =>
      if bool_decide (is_Some (opts_owner c)) then
        let '(store, h1) := data_store inst (heap w) in
        (bool_decide (is_Some (Snapshots_get (_pk_field c) default_snapshots store)),
         with_heap h1 w)
      else (true, w)
  | None => (true, w)
  end.

(** The part of [load] that follows the resolution of the path, from
    [many = cls.opts.owner] to the end. *)
Definition load_path (class_name : string) (st : nat) (instance : option Model)
    (path : string) : R LoadResult :=
  fun w =>
    let many := bool_decide (is_Some (opts_owner (models class_name))) in
    let '(pk_known, w1) := pk_guard class_name instance w in
    if negb pk_known then Some (Return LNothing, w1)
    else if already_loaded st path w1 then Some (Return LNothing, w1)
    else
      let w2 := log (Exists st path) (mark_loaded st path w1) in
      match file st path w2 with
      | None =>
          Some (Return (if many then LCollection [] else LInstance instance), w2)
      | Some content =>
          run LoadResult (file_schema_load class_name st content many)
            (log (Open st path) w2)
      end.

(** [load(storage, instance=None, **kwargs)] *)
Definition load_body (class_name : string) (st : option nat)
    (instance : option Model) (kwargs : list (string * value)) : R LoadResult :=
  match st with
  | None => ret LNothing
  | Some s =>
      let data := match instance with Some inst => inl inst | None => inr kwargs end in
      let* path := storage_path class_name data ["committed"; "working"] in
      match path with
      | None => ret LNothing
      | Some p => load_path class_name s instance p
      end
  end.
End Body.

(** *** Soundness of the loader *)

Section Soundness.
Variable run : forall A : Type, prog A -> R A.
Hypothesis run_sound : forall A (p : prog A), sound (run A p).

Lemma sound_first_attr data order name : sound (first_attr data order name).
Proof.
  intros w r w'. unfold first_attr. destruct data as [inst|kwargs].
  - destruct (data_store inst (heap w)) as [st h1].
    destruct (Snapshots_get name order st); intros [= <- <-];
      apply extends_with_heap.
  - destruct (kwarg name kwargs); intros [= <- <-]; apply extends_refl.
Qed.

Lemma sound_rest_attrs order v names : sound (rest_attrs run order v names).
Proof using run_sound.
  revert v. induction names as [|name names IH]; intros v; cbn.
  - apply sound_ret.
  - apply sound_bind; [apply run_sound|]. intros v'. apply IH.
Qed.

Lemma sound_format template data order : sound (format run template data order).
Proof using run_sound.
  induction template as [|[text|[|name names]] template IH]; cbn.
  - apply sound_ret.
  - apply sound_bind; [done|]. intros. apply sound_ret.
  - apply sound_bind; [done|]. intros. apply sound_ret.
  - apply sound_bind; [apply sound_first_attr|]. intros v.
    apply sound_bind; [apply sound_rest_attrs|]. intros v'.
    apply sound_bind; [done|]. intros. apply sound_ret.
Qed.

Lemma sound_storage_path class_name data order :
  sound (storage_path run class_name data order).
Proof using run_sound.
  intros w r w'. unfold storage_path.
  destruct (format run _ data order w) as [[[path|e] w1]|] eqn:E; [| |done].
  - intros [= <- <-]. by eapply sound_format.
  - destruct e; intros [= <- <-]; by eapply sound_format.
Qed.

Lemma pk_guard_heap class_name instance w :
  exists h, (pk_guard class_name instance w).2 = with_heap h w.
Proof.
  unfold pk_guard. destruct instance as [inst|]; [|exists (heap w); by destruct w].
  case_bool_decide; [|exists (heap w); by destruct w].
  destruct (data_store inst (heap w)) as [store h1]. by exists h1.
Qed.

Lemma sound_load_path class_name st instance path :
  sound (load_path run class_name st instance path).
Proof using run_sound.
  intros w r w'. unfold load_path.
  destruct (pk_guard_heap class_name instance w) as [h Hguard].
  destruct (pk_guard class_name instance w) as [pk_known w1]. cbn [snd] in Hguard.
  subst w1. pose proof (extends_with_heap h w) as Hheap.
  destruct pk_known; cbn [negb]; [|by intros [= <- <-]].
  destruct (already_loaded st path (with_heap h w)) eqn:Hloaded;
    [by intros [= <- <-]|].
  pose proof (first_load_extends st path _ false Hloaded) as Hprobe.
  pose proof (first_load_extends st path _ true Hloaded) as Hopen.
  cbn zeta in Hprobe, Hopen.
  destruct (file st path (log (Exists st path) (mark_loaded st path (with_heap h w))))
    as [content|].
  - intros Hrun. eapply extends_trans; [exact Hheap|].
    eapply extends_trans; [exact Hopen|]. by eapply run_sound.
  - intros [= <- <-]. eapply extends_trans; [exact Hheap|exact Hprobe].
Qed.

Lemma sound_load_body class_name st instance kwargs :
  sound (load_body run class_name st instance kwargs).
Proof using run_sound.
  unfold load_body. destruct st as [s|]; [|apply sound_ret].
  apply sound_bind; [apply sound_storage_path|].
  intros [p|]; [apply sound_load_path|apply sound_ret].
Qed.
End Soundness.

(** [load], with a bound on the depth of the loads nested in one another. *)
Fixpoint load (depth : nat) (class_name : string) (st : option nat)
    (instance : option Model) (kwargs : list (string * value)) (w : World)
    : option (result LoadResult * World) :=
  match depth with
  | O => None
  | S depth' =>
      load_body (fun A => exec (load depth')) class_name st instance kwargs w
  end.


Lemma sound_load depth class_name st instance kwargs :
  sound (load depth class_name st instance kwargs).
Proof.
  revert class_name st instance kwargs.
  induction depth as [|depth IH]; intros class_name st instance kwargs; [done|].
  cbn [load]. apply sound_load_body. intros A p. by apply sound_exec.
Qed.

(** [self.load(self.storage, instance=self)] *)
Definition load_instance (depth : nat) (m : Model) : R LoadResult :=
  load depth (cls m) (storage m) (Some m) [].

Lemma Snapshots_get_absent key order st :
  (forall g, generation g st !! key = None) -> Snapshots_get key order st = None.
Proof. intros Habs. induction order as [|g order IH]; [done|]. cbn. by rewrite Habs. Qed.

Lemma once_no_calls w : calls w = [] -> once w.
Proof.
  intros Hnil st path. unfold probed, opened. rewrite Hnil. cbn.
  repeat split; lia.
Qed.

(** C8. (1) With a storage attached, the access to a file-backed field that
    no generation holds (and that [__init__] is not setting) calls [load].
    (2) The first [load] that reaches a pair of storage and path records the
    path in the loaded set of the storage, then probes the storage once and,
    if the document exists, opens it once and decodes it.  (3) A [load] whose
    path is already in the loaded set of its storage returns [None] and
    makes no call to the storage: only the heap may differ (the store of the
    instance may have been registered).  (4) Whatever code of the model layer
    runs, no path leaves a loaded set and no document is probed or opened a
    second time. *)
Theorem document_loaded_once (depth : nat) :
  (forall self attr s w,
     storage self = Some s ->
     attr ∈ _file_fields (models (cls self)) ->
     attr ∉ _initializing self ->
     (forall g, generation g (store_of self (heap w)) !! attr = None) ->
     resolve_attributes models (load_instance depth) self [attr] None w
     = match load_instance depth self w with
       | None => None
       | Some (Raise (PathResolutionError _), w2) => Some (Return tt, w2)
       | Some (Raise e, w2) => Some (Raise e, w2)
       | Some (Return _, w2) => Some (Return tt, w2)
       end) /\
  (forall class_name s instance kwargs path w w1 w1',
     storage_path (fun A => exec (load depth)) class_name
       (match instance with Some inst => inl inst | None => inr kwargs end)
       ["committed"; "working"] w = Some (Return (Some path), w1) ->
     pk_guard class_name instance w1 = (true, w1') ->
     already_loaded s path w1 = false ->
     let w2 := log (Exists s path) (mark_loaded s path w1') in
     already_loaded s path w2 = true /\
     calls w2 = calls w1 ++ [Exists s path] /\
     load (S depth) class_name (Some s) instance kwargs w
     = match file s path w2 with
       | None =>
           Some (Return (if bool_decide (is_Some (opts_owner (models class_name)))
                         then LCollection [] else LInstance instance), w2)
       | Some content =>
           exec (load depth)
             (file_schema_load class_name s content
                (bool_decide (is_Some (opts_owner (models class_name)))))
             (log (Open s path) w2)
       end) /\
  (forall class_name s instance kwargs path w w1,
     storage_path (fun A => exec (load depth)) class_name
       (match instance with Some inst => inl inst | None => inr kwargs end)
       ["committed"; "working"] w = Some (Return (Some path), w1) ->
     already_loaded s path w1 = true ->
     exists h,
       load (S depth) class_name (Some s) instance kwargs w
       = Some (Return LNothing, with_heap h w1)) /\
  (forall A (p : prog A) w r w',
     exec (load depth) p w = Some (r, w') ->
     (forall st path, already_loaded st path w = true ->
                      already_loaded st path w' = true) /\
     (once w -> once w') /\
     (calls w = [] ->
      forall st path, probed st path w' <= 1 /\ opened st path w' <= 1)).
Proof.
  split; [|split; [|split]].
  - intros self attr s w Hst Hfile Hinit Habs.
    unfold resolve_attributes. rewrite Hst. cbn [existsb default].
    rewrite (bool_decide_eq_true_2 _ Hfile), (bool_decide_eq_false_2 _ Hinit).
    unfold hasattr_accessor. cbn [heap with_heap].
    rewrite data_store_snd, Snapshots_get_absent by done.
    rewrite bool_decide_eq_false_2 by (by intros [? ?]). done.
  - intros class_name s instance kwargs path w w1 w1' Hpath Hguard Hnew w2.
    destruct (pk_guard_heap class_name instance w1) as [h Hh].
    rewrite Hguard in Hh. cbn [snd] in Hh. subst w1'.
    split; [|split].
    + change (already_loaded s path w2)
        with (already_loaded s path (mark_loaded s path (with_heap h w1))).
      rewrite already_loaded_mark. by rewrite bool_decide_eq_true_2.
    + done.
    + cbn [load]. unfold load_body, bind. rewrite Hpath.
      unfold load_path. rewrite Hguard. cbn [negb].
      change (already_loaded s path (with_heap h w1)) with (already_loaded s path w1).
      by rewrite Hnew.
  - intros class_name s instance kwargs path w w1 Hpath Hold.
    destruct (pk_guard_heap class_name instance w1) as [h Hh].
    exists h. cbn [load]. unfold load_body, bind. rewrite Hpath.
    unfold load_path.
    destruct (pk_guard class_name instance w1) as [pk_known w1'].
    cbn [snd] in Hh. subst w1'.
    change (already_loaded s path (with_heap h w1)) with (already_loaded s path w1).
    rewrite Hold. by destruct pk_known.
  - intros A p w r w' Hexec.
    assert (extends w w') as (Honce & Hmono & _).
    { eapply (sound_exec (load depth) p); [|done]. intros. apply sound_load. }
    split; [done|]. split; [done|].
    intros Hnil st path. destruct (Honce (once_no_calls w Hnil) st path) as (? & ? & _).
    done.
Qed.

End Loader.

(** *** The model classes of [models.py] and [tests/models.py] *)

Definition plain : Field :=
  {| field_kind := Plain; ignore_in_file := false; only := None |}.

Definition Project : ModelClass :=
  {| _pk_field := "name";
     _fields :=
       [("name", plain);
        ("spiders", {| field_kind := HasMany "Spider" "project";
                       ignore_in_file := true; only := None |});
        ("schemas", {| field_kind := HasMany "Schema" "project";
                       ignore_in_file := true; only := None |});
        ("extractors", {| field_kind := HasMany "Extractor" "project";
                          ignore_in_file := true; only := None |})];
     opts_path := Some [Lit "project.json"];
     opts_owner := None;
     opts_envelope := false |}.

Definition Schema : ModelClass :=
  {| _pk_field := "id";
     _fields :=
       [("id", plain); ("name", plain);
        ("project", {| field_kind := BelongsTo "Project" "schemas";
                       ignore_in_file := true; only := None |});
        ("fields", {| field_kind := HasMany "Field" "schema";
                      ignore_in_file := false; only := None |})];
     opts_path := Some [Lit "items.json"];
     opts_owner := Some "project";
     opts_envelope := true |}.

Definition Field_ : ModelClass :=
  {| _pk_field := "id";
     _fields :=
       [("id", plain); ("name", plain); ("type", plain); ("required", plain);
        ("vary", plain);
        ("schema", {| field_kind := BelongsTo "Schema" "fields";
                      ignore_in_file := true; only := None |})];
     opts_path := Some [Lit "items.json"];
     opts_owner := Some "schema";
     opts_envelope := true |}.

Definition Spider : ModelClass :=
  {| _pk_field := "id";
     _fields :=
       [("id", plain); ("start_urls", plain); ("links_to_follow", plain);
        ("allowed_domains", plain); ("respect_nofollow", plain);
        ("follow_patterns", plain); ("exclude_patterns", plain);
        ("js_enabled", plain); ("js_enable_patterns", plain);
        ("js_disable_patterns", plain); ("perform_login", plain);
        ("login_url", plain); ("login_user", plain); ("login_password", plain);
        ("project", {| field_kind := BelongsTo "Project" "spiders";
                       ignore_in_file := true; only := None |});
        ("samples", {| field_kind := HasMany "Sample" "spider";
                       ignore_in_file := false; only := Some ["id"] |})];
     opts_path := Some [Lit "spiders/"; Attr ["id"]; Lit ".json"];
     opts_owner := None;
     opts_envelope := false |}.

Definition Sample : ModelClass :=
  {| _pk_field := "id";
     _fields :=
       [("id", plain); ("name", plain); ("url", plain);
        ("spider", {| field_kind := BelongsTo "Spider" "samples";
                      ignore_in_file := false; only := Some ["id"] |})];
     opts_path := Some [Lit "spiders/"; Attr ["spider"; "id"]; Lit "/";
                        Attr ["id"]; Lit ".json"];
     opts_owner := None;
     opts_envelope := false |}.

Definition ExampleModel : ModelClass :=
  {| _pk_field := "id";
     _fields := [("id", plain); ("field", plain)];
     opts_path := None;
     opts_owner := None;
     opts_envelope := false |}.

Definition SingleFileModel : ModelClass :=
  {| _pk_field := "id";
     _fields := [("id", plain); ("field", plain)];
     opts_path := Some [Lit "single.json"];
     opts_owner := None;
     opts_envelope := false |}.

Definition ParamFileModel : ModelClass :=
  {| _pk_field := "id";
     _fields := [("id", plain); ("field", plain); ("param", plain)];
     opts_path := Some [Lit "param-"; Attr ["param"]; Lit ".json"];
     opts_owner := None;
     opts_envelope := false |}.

Definition OneToOneModel1 : ModelClass :=
  {| _pk_field := "id";
     _fields :=
       [("id", plain); ("field", plain);
        ("m2", {| field_kind := BelongsTo "OneToOneModel2" "m1";
                  ignore_in_file := false; only := Some ["id"] |})];
     opts_path := Some [Lit "o2o-model-1.json"];
     opts_owner := None;
     opts_envelope := false |}.

Definition OneToOneModel2 : ModelClass :=
  {| _pk_field := "id";
     _fields :=
       [("id", plain); ("field", plain);
        ("m1", {| field_kind := BelongsTo "OneToOneModel1" "m2";
                  ignore_in_file := false; only := None |})];
     opts_path := Some [Lit "o2o-model-2.json"];
     opts_owner := None;
     opts_envelope := false |}.

Definition ChildModel : ModelClass :=
  {| _pk_field := "id";
     _fields :=
       [("id", plain); ("field", plain);
        ("parent", {| field_kind := BelongsTo "ParentModel" "children";
                      ignore_in_file := false; only := Some ["id"] |})];
     opts_path := Some [Attr ["parent"; "id"]; Lit "/children.json"];
     opts_owner := Some "parent";
     opts_envelope := false |}.

Definition ParentModel : ModelClass :=
  {| _pk_field := "id";
     _fields :=
       [("id", plain); ("field", plain);
        ("children", {| field_kind := HasMany "ChildModel" "parent";
                        ignore_in_file := false; only := None |})];
     opts_path := Some [Lit "parents.json"];
     opts_owner := None;
     opts_envelope := false |}.

(** [slyd.orm.registry.models]: the classes by name. *)
Definition registry (name : string) : ModelClass :=
  if bool_decide (name = "Project") then Project
  else if bool_decide (name = "Schema") then Schema
  else if bool_decide (name = "Field") then Field_
  else if bool_decide (name = "Spider") then Spider
  else if bool_decide (name = "Sample") then Sample
  else if bool_decide (name = "SingleFileModel") then SingleFileModel
  else if bool_decide (name = "ParamFileModel") then ParamFileModel
  else if bool_decide (name = "OneToOneModel1") then OneToOneModel1
  else if bool_decide (name = "OneToOneModel2") then OneToOneModel2
  else if bool_decide (name = "ChildModel") then ChildModel
  else if bool_decide (name = "ParentModel") then ParentModel
  else ExampleModel.

(** Collaborators of the loader for documents without nested models: an
    attribute of a field value cannot be fetched, and a document decodes to
    nothing. *)
Definition no_getattr (order : list string) (v : value) (name : string)
    : prog value :=
  Throw (AttributeError name).

Definition decode_nothing (class_name : string) (st : nat) (content : string)
    (many : bool) : prog LoadResult :=
  Pure LNothing.

Definition portia_load (depth : nat) : Model -> R LoadResult :=
  load_instance registry no_getattr decode_nothing depth.

(** Two handles on [ExampleModel(storage, id='x')]: one with the default
    snapshot order, one that reads the committed generation only (as
    [create_object] builds them). *)
Definition example_default : Model :=
  {| data_key := ("ExampleModel", "x"); storage := Some 1;
     snapshots := default_snapshots; _initializing := []; self_id := 1 |}.

Definition example_committed : Model :=
  {| data_key := ("ExampleModel", "x"); storage := Some 1;
     snapshots := ["committed"]; _initializing := []; self_id := 2 |}.

(** C7 as worded: whatever is written through one handle is returned by
    [get_data] on any other handle of the same identity. *)
Definition visible_as_specified (a b : Model) : Prop :=
  forall key v w,
    exists w', get_data registry (portia_load 2) b key None (set_data a key v w).2
               = Some (Return v, w').

(** C7, as worded, fails: a value written through the default order goes to
    the working generation, which a handle on the committed generation does
    not read. *)
Lemma visibility_counterexample :
  slot_of example_default = slot_of example_committed /\
  fst <$> get_data registry (portia_load 2) example_committed "field" None
            (set_data example_default "field" (VBool true) empty_world).2
  = Some (Raise (AttributeError "field")) /\
  ~ visible_as_specified example_default example_committed.
Proof.
  split; [reflexivity|]. split; [vm_compute; reflexivity|].
  intros Hvis. destruct (Hvis "field" (VBool true) empty_world) as [w' Hw'].
  vm_compute in Hw'. discriminate Hw'.
Qed.

(** Two different handles on one identity: a value written through the
    handle on the committed generation is read through the handle with the
    default order, whose earlier generations do not hold the field. *)
Lemma shared_store_visibility_witness :
  self_id example_committed <> self_id example_default /\
  slot_of example_committed = slot_of example_default /\
  get_data registry (portia_load 2) example_default "field" None
    (set_data example_committed "field" (VBool true) empty_world).2
  = Some (Return (VBool true),
          (set_data example_committed "field" (VBool true) empty_world).2).
Proof.
  destruct (shared_store_visibility registry (portia_load 2)
              example_committed example_default 1 "field" (VBool true) empty_world
              eq_refl eq_refl eq_refl) as (Hslot & Hgeneration & _).
  split; [discriminate|]. split; [exact Hslot|].
  destruct (Hgeneration "committed" [] eq_refl) as (_ & _ & Hvisible).
  apply (Hvisible ["working"; "staged"] []); [reflexivity|].
  repeat constructor; discriminate.
Defined.

(** A storage holding [single.json], and a [SingleFileModel] attached to it
    whose [field] no generation holds. *)
Definition single_world : World :=
  {| heap := empty_heap; loaded := ∅;
     files := {[ 1 := {[ "single.json" := "{}" ]} ]};
     calls := [] |}.

Definition single : Model :=
  {| data_key := ("SingleFileModel", "a"); storage := Some 1;
     snapshots := default_snapshots; _initializing := []; self_id := 1 |}.

(** Two loads of the same instance, one after the other. *)
Definition load_twice : prog unit :=
  CallLoad "SingleFileModel" (Some 1) (Some single) []
    (fun _ => CallLoad "SingleFileModel" (Some 1) (Some single) []
                (fun _ => Pure tt)).

Example second_load_makes_no_call :
  (fun rw => calls rw.2)
    <$> exec (load registry no_getattr decode_nothing 2) load_twice single_world
  = Some [Exists 1 "single.json"; Open 1 "single.json"].
Proof. vm_compute. reflexivity. Qed.

Example missing_document_is_probed_once :
  (fun rw => calls rw.2)
    <$> exec (load registry no_getattr decode_nothing 2) load_twice empty_world
  = Some [Exists 1 "single.json"].
Proof. vm_compute. reflexivity. Qed.

Lemma document_loaded_once_witness :
  exists rw,
    exec (load registry no_getattr decode_nothing 2) load_twice single_world
    = Some rw /\
    opened 1 "single.json" rw.2 <= 1.
Proof.
  destruct (exec (load registry no_getattr decode_nothing 2) load_twice single_world)
    as [[r w']|] eqn:Hexec.
  - exists (r, w'). split; [reflexivity|].
    exact (proj2 (proj2 (proj2 (proj2 (proj2 (proj2
      (document_loaded_once registry no_getattr decode_nothing 2)))
      unit load_twice single_world r w' Hexec)) eq_refl 1 "single.json")).
  - vm_compute in Hexec. discriminate Hexec.
Defined.

(** *** [Model.save]: staging and committing *)
Section Saving.
Variable models : string -> ModelClass.
Variable getattr_value : list string -> value -> string -> prog value.
Variable file_schema_load : string -> nat -> string -> bool -> prog LoadResult.
(** [copy.data_store.copy_from(self.data_store)] of [snapshots.py]: the store
    of a copy made without storage, from the new store and the store copied. *)
Variable copy_from : ModelSnapshots -> ModelSnapshots -> ModelSnapshots.
(** [HasManyDescriptor.__get__], inherited from [ListDescriptor] of
    [collection.py]. *)
Variable getattr_many : Model -> string -> prog value.
(** [model.dumps(state)] and [collection.dumps(state)]: the document codec. *)
Variable dumps : Model -> string -> prog string.
Variable collection_dumps : nat -> string -> prog string.
(** The depth of nested loads allowed. *)
Variable depth : nat.

Definition run_prog (A : Type) (p : prog A) : R A :=
  exec (load models getattr_value file_schema_load depth) p.

Definition on_heap {A : Type} (f : Heap -> A * Heap) : R A :=
  fun w => let '(a, h) := f (heap w) in Some (Return a, with_heap h w).

(** [with_snapshots(snapshots=None)]: the instance itself when the order is
    its own, else a new instance on the same [data_key]; without storage the
    new instance has a store of its own, filled by [copy_from]. *)
Definition with_snapshots (self : Model) (snaps : list string) (h : Heap)
    : Model * Heap :=
  let order := match snaps with [] => default_snapshots | _ => snaps end in
  if bool_decide (snapshots self = order) then (self, h)
  else
    let copy := {| data_key := data_key self; storage := storage self;
                   snapshots := order; _initializing := [];
                   self_id := next_id h |} in
    let h1 := {| stores := stores h; collections := collections h;
                 next_id := S (next_id h) |} in
    let '(copy_store, h2) := data_store copy h1 in
    let '(self_store, h3) := data_store self h2 in
    if bool_decide (slot_of copy = slot_of self) then (copy, h3)
    else (copy,
          with_stores (<[slot_of copy := copy_from copy_store self_store]> (stores h3))
            h3).

(** [getattr(model, name)] through the descriptor of the field. *)
Definition getattr (m : Model) (name : string) : R value :=
  match field_kind <$> field_of (models (cls m)) name with
  | Some (BelongsTo _ _) =>
      get_data models (load_instance models getattr_value file_schema_load depth)
        m name (Some VNone)
  | Some (HasMany _ _) => run_prog value (getattr_many m name)
  | Some Plain =>
      get_data models (load_instance models getattr_value file_schema_load depth)
        m name None
  | None => throw (AttributeError name)
  end.

Definition related_name_of (f : Field) : option string :=
  match field_kind f with
  | BelongsTo _ r | HasMany _ r => Some r
  | Plain => None
  end.

(** [_staged_model_references]: for each relationship field that the staged
    or committed generation holds, the related values (the items of a
    collection, or the value itself) with the name of the inverse field. *)
Definition _staged_model_references (self : Model) (h : Heap)
    : list (value * string) :=
  flat_map
    (fun kf : string * Field =>
       match related_name_of kf.2 with
       | None => []
       | Some related_name =>
           match Snapshots_get kf.1 ["staged"; "committed"] (store_of self h) with
           | None => []
           | Some (VCollection address) =>
               (fun m => (VModel m, related_name))
                 <$> default [] (collections h !! address)
           | Some v => [(v, related_name)]
           end
       end)
    (_fields (models (cls self))).

Definition update_store (m : Model) (f : ModelSnapshots -> ModelSnapshots)
    (h : Heap) : Heap :=
  with_stores (<[slot_of m := f (store_of m h)]> (stores h)) h.

(** [_stage_changes(only)] *)
Definition stage_related (dirty : list string) (h : Heap) (ref : value * string)
    : result Heap :=
  match ref with
  | (VModel model, field) =>
      match field_of (models (cls model)) field with
      | None => Raise (KeyError field)
      | Some related_field =>
          let related_dirty :=
            match only related_field with
            | None => dirty
            | Some names => filter (fun k => k ∈ names) dirty
            end in
          if bool_decide (related_dirty <> [])
             || bool_decide (field ∈ dirty_fields "working" ["committed"]
                                       (store_of model h))
          then Return (update_store model
                         (update_snapshot "staged" ["working"; "committed"] [field]) h)
          else Return h
      end
  | (_, _) => Raise (AttributeError "data_store")
  end.

Definition _stage_changes (self : Model) (chosen : option (list string)) : R unit :=
  fun w =>
    let h := (data_store self (heap w)).2 in
    let dirty := dirty_fields "working" ["committed"] (store_of self h) in
    let dirty :=
      match chosen with
      | None => dirty
      | Some names => filter (fun k => k ∈ names) dirty
      end in
    let h1 :=
      match dirty with
      | [] => h
      | _ => update_store self (update_snapshot "staged" ["working"] dirty) h
      end in
    let step (acc : result Heap) (ref : value * string) : result Heap :=
      match acc with
      | Raise e => Raise e
      | Return h' => stage_related dirty h' ref
      end in
    match foldl step (Return h1) (_staged_model_references self h1) with
    | Return h2 => Some (Return tt, with_heap h2 w)
    | Raise e => Some (Raise e, with_heap h1 w)
    end.

(** The loop over the owners, lines 335 to 344: from the model up to the
    top-most owner, keeping the collection (or model) that holds the last
    child. *)
Fixpoint owner_collection (fuel : nat) (child : Model) (collection : value)
    : R value :=
  match opts_owner (models (cls child)) with
  | None => ret collection
  | Some parent_field =>
      match fuel with
      | O => fun _ => None
      | S fuel' =>
          let* child' :=
            on_heap (with_snapshots child ["staged"; "committed"]) in
          let* parent := getattr child' parent_field in
          match parent with
          | VModel p =>
              let* p' := on_heap (with_snapshots p ["staged"; "committed"]) in
              match field_of (models (cls child)) parent_field
                    ≫= related_name_of with
              | None => throw (AttributeError "related_name")
              | Some related_name =>
                  let* c := getattr p' related_name in
                  owner_collection fuel' p c
              end
          | _ => throw (AttributeError "with_snapshots")
          end
      end
  end.

(** [storage.save(path, ContentFile(content, path))] and
    [storage.delete(path)]: the call is recorded and the file written or
    removed. *)
Definition storage_save (st : nat) (path : option string) (content : string)
    (w : World) : World :=
  {| heap := heap w; loaded := loaded w;
     files := match path with
              | Some p => <[st := <[p := content]> (default ∅ (files w !! st))]> (files w)
              | None => files w
              end;
     calls := calls w ++ [Save st path content] |}.

Definition storage_delete (st : nat) (path : option string) (w : World) : World :=
  {| heap := heap w; loaded := loaded w;
     files := match path with
              | Some p => <[st := delete p (default ∅ (files w !! st))]> (files w)
              | None => files w
              end;
     calls := calls w ++ [Delete st path] |}.

(** The body of the first loop of [_commit_changes] for one model, with the
    sets [saved_paths] and [deleted_paths]. *)
Definition commit_model (model : Model)
    (paths : list (option string) * list (option string))
    : R (list (option string) * list (option string)) :=
  let '(saved_paths, deleted_paths) := paths in
  let c := models (cls model) in
  let* store := on_heap (data_store model) in
  let dirty := filter (fun k => is_Some (generation "staged" store !! k))
                 (_file_fields c) in
  let* path := storage_path models getattr_value run_prog (cls model) (inl model)
                 ["staged"; "committed"] in
  let* old_path := storage_path models getattr_value run_prog (cls model) (inl model)
                     ["committed"; "staged"] in
  if bool_decide (dirty <> []) || negb (bool_decide (old_path = path)) then
    let* saved_paths' :=
      if bool_decide (path ∈ saved_paths) then ret saved_paths
      else
        let* content :=
          match opts_owner c with
          | Some _ =>
              let* collection := owner_collection (S depth) model VNone in
              match collection with
              | VCollection address => run_prog string (collection_dumps address "staged")
              | VModel m => run_prog string (dumps m "staged")
              | _ => throw (AttributeError "dumps")
              end
          | None => run_prog string (dumps model "staged")
          end in
        match storage model with
        | None => throw (AttributeError "save")
        | Some st =>
            fun w => Some (Return (path :: saved_paths), storage_save st path content w)
        end in
    if negb (bool_decide (old_path = path))
       && negb (bool_decide (path ∈ deleted_paths))
    then
      match storage model with
      | None => throw (AttributeError "delete")
      | Some st =>
          fun w => Some (Return (saved_paths', old_path :: deleted_paths),
                         storage_delete st old_path w)
      end
    else ret (saved_paths', deleted_paths)
  else ret (saved_paths, deleted_paths).

Fixpoint commit_models (todo : list value)
    (paths : list (option string) * list (option string))
    : R (list (option string) * list (option string)) :=
  match todo with
  | [] => ret paths
  | VModel model :: todo' =>
      let* paths' := commit_model model paths in
      commit_models todo' paths'
  | _ :: _ => throw (AttributeError "data_store")
  end.

(** The body of the second loop: the staged generation is folded into the
    committed one, and the working entries it made redundant are cleared. *)
Definition fold_staged (model : Model) (h : Heap) : Heap :=
  let store := store_of model h in
  let dirty := (map_to_list (generation "staged" store)).*1 in
  match dirty with
  | [] => (data_store model h).2
  | _ =>
      update_store model
        (fun st =>
           let st1 := update_snapshot "committed" ["staged"] dirty st in
           let st2 := clear_snapshot "staged" None st1 in
           clear_snapshot "working"
             (Some (filter (fun k => is_Some (generation "working" st2 !! k)) dirty))
             st2)
        h
  end.

Fixpoint fold_models (todo : list value) (h : Heap) : result Heap :=
  match todo with
  | [] => Return h
  | VModel model :: todo' => fold_models todo' (fold_staged model h)
  | _ :: _ => Raise (AttributeError "data_store")
  end.

(** [_commit_changes] *)
Definition _commit_changes (self : Model) : R unit :=
  fun w =>
    let todo := VModel self :: (_staged_model_references self (heap w)).*1 in
    match commit_models todo ([], []) w with
    | None => None
    | Some (Raise e, w1) => Some (Raise e, w1)
    | Some (Return _, w1) =>
        let todo' := VModel self :: (_staged_model_references self (heap w1)).*1 in
        match fold_models todo' (heap w1) with
        | Return h2 => Some (Return tt, with_heap h2 w1)
        | Raise e => Some (Raise e, w1)
        end
    end.

(** [save(only=None)] *)
Definition save (self : Model) (chosen : option (list string)) : R unit :=
  match storage self with
  | None => ret tt
  | Some _ =>
      let* _ := resolve_attributes models
                  (load_instance models getattr_value file_schema_load depth)
                  self [] (Some ["committed"]) in
      let* _ := _stage_changes self chosen in
      _commit_changes self
  end.
End Saving.

(** *** Two children moved to another parent *)

(** Collaborators for the models of [tests/models.py]: an attribute of a
    related model is read from its store under the order of the rendering; a
    has-many field is read from the store of its owner; the dumps are opaque
    texts. *)
Definition related_attr (order : list string) (v : value) (name : string)
    : prog value :=
  match v with
  | VModel m =>
      Ask (fun h =>
             match Snapshots_get name order (store_of m h) with
             | Some x => Pure x
             | None => Throw (AttributeError name)
             end)
  | _ => Throw (AttributeError name)
  end.

Definition stored_collection (m : Model) (name : string) : prog value :=
  Ask (fun h =>
         match Snapshots_get name (snapshots m) (store_of m h) with
         | Some x => Pure x
         | None => Throw (AttributeError name)
         end).

Definition dump_text (m : Model) (state : string) : prog string :=
  Pure ("<" +:+ cls m +:+ " " +:+ (data_key m).2 +:+ ">").

Definition collection_text (address : nat) (state : string) : prog string :=
  Pure "<collection>".

Definition handle (class_name pk : string) (self : nat) : Model :=
  {| data_key := (class_name, pk); storage := Some 1;
     snapshots := default_snapshots; _initializing := []; self_id := self |}.

Definition parent_A : Model := handle "ParentModel" "pA" 1.
Definition parent_B : Model := handle "ParentModel" "pB" 2.
Definition child_1 : Model := handle "ChildModel" "c1" 3.
Definition child_2 : Model := handle "ChildModel" "c2" 4.

Definition committed_only (fields : list (string * value)) : ModelSnapshots :=
  {[ "committed" := list_to_map fields ]}.

(** [ParentModel] pA and pB and [ChildModel] c1 and c2, all loaded from the
    storage; both children were committed under pA
    ([pA/children.json]) and have been given [parent = pB] since, which put
    them in the collection of pB. *)
Definition moved_children : World :=
  {| heap :=
       {| stores :=
            {[ slot_of parent_A :=
                 committed_only [("id", VStr "pA"); ("field", VNone);
                                 ("children", VCollection 0)];
               slot_of parent_B :=
                 committed_only [("id", VStr "pB"); ("field", VNone);
                                 ("children", VCollection 1)];
               slot_of child_1 :=
                 <[ "working" := {[ "parent" := VModel parent_B ]} ]>
                   (committed_only [("id", VStr "c1"); ("field", VNone);
                                    ("parent", VModel parent_A)]);
               slot_of child_2 :=
                 <[ "working" := {[ "parent" := VModel parent_B ]} ]>
                   (committed_only [("id", VStr "c2"); ("field", VNone);
                                    ("parent", VModel parent_A)]) ]};
          collections := {[ 0 := []; 1 := [child_1; child_2] ]};
          next_id := 10 |};
     loaded := {[ 1 := {[ "parents.json"; "pA/children.json" ]} ]};
     files := {[ 1 := {[ "parents.json" := "<parents>";
                         "pA/children.json" := "<collection>" ]} ]};
     calls := [] |}.

Definition save_moved_children : option (result unit * World) :=
  save registry related_attr decode_nothing (fun _ s => s) stored_collection
    dump_text collection_text 2 parent_B None moved_children.

(** C2, the defect: [pB.save()] finds both children dirty, with the new path
    [pB/children.json] and the old path [pA/children.json].  The document is
    saved once, for the first child; the old path is deleted for the first
    child and again for the second, because the test before [delete] looks
    for the new path, not the old one, in [deleted_paths]. *)
Theorem moved_children_deleted_twice :
  (fun rw : result unit * World => (rw.1, calls rw.2)) <$> save_moved_children
  = Some (Return tt,
          [Save 1 (Some "pB/children.json") "<collection>";
           Delete 1 (Some "pA/children.json");
           Delete 1 (Some "pA/children.json")]).
Proof. vm_compute. reflexivity. Qed.

(** *** The document codec: [schemas.py] *)

(** A JSON document; an object keeps the order of its members, as the
    [OrderedDict]s of the file schemas do. *)
#[warnings="-register-all"]
Inductive json : Type :=
| JNull
| JBool (b : bool)
| JStr (s : string)
| JList (items : list json)
| JObject (members : list (string * json)).

(** [d[k]], [del d[k]] and [d[k] = v] on an [OrderedDict]. *)
Definition od_get (k : string) (d : list (string * json)) : option json :=
  snd <$> (snd <$> list_find (fun kv => kv.1 = k) d).

Definition od_del (k : string) (d : list (string * json)) : list (string * json) :=
  filter (fun kv => kv.1 <> k) d.

Definition od_set (k : string) (v : json) (d : list (string * json))
    : list (string * json) :=
  if bool_decide (is_Some (od_get k d))
  then (fun kv : string * json => if bool_decide (kv.1 = k) then (k, v) else kv) <$> d
  else d ++ [(k, v)].

(** [sorted(iteritems(data))]: the members by increasing key. *)
Fixpoint insert_sorted (kv : string * json) (d : list (string * json))
    : list (string * json) :=
  match d with
  | [] => [kv]
  | kv' :: d' =>
      if String.leb kv.1 kv'.1 then kv :: d else kv' :: insert_sorted kv d'
  end.

Definition sorted_items (d : list (string * json)) : list (string * json) :=
  foldr insert_sorted [] d.

(** Equality of documents as Python compares dictionaries and lists: the
    order of the members of an object does not count. *)
Fixpoint json_size (j : json) : nat :=
  match j with
  | JList items => S (foldr (fun x n => json_size x + n) 0 items)
  | JObject members => S (foldr (fun kv n => json_size kv.2 + n) 0 members)
  | _ => 1
  end.

Fixpoint json_eqb_fuel (fuel : nat) (a b : json) : bool :=
  match fuel with
  | O => false
  | S fuel' =>
      match a, b with
      | JNull, JNull => true
      | JBool x, JBool y => bool_decide (x = y)
      | JStr x, JStr y => bool_decide (x = y)
      | JList xs, JList ys =>
          bool_decide (length xs = length ys)
          && forallb (fun xy => json_eqb_fuel fuel' xy.1 xy.2) (zip xs ys)
      | JObject xs, JObject ys =>
          bool_decide (length xs = length ys)
          && forallb (fun kv : string * json =>
                        match od_get kv.1 ys with
                        | Some y => json_eqb_fuel fuel' kv.2 y
                        | None => false
                        end) xs
      | _, _ => false
      end
  end.

Definition json_eqb (a b : json) : bool := json_eqb_fuel (json_size a) a b.

(** [FileSchemaOpts]: the model of the schema and the options [envelope]
    and [envelope_remove_key] of its [Meta]. *)
Record FileSchemaOpts := {
  schema_model : string;
  envelope : bool;
  envelope_remove_key : bool
}.

(** A declared field of a file schema: a scalar (with [required] and the
    [default] used when dumping), or a has-many relationship nesting the
    file schema of another model. *)
Inductive field_codec : Type :=
| Scalar (required : bool) (dflt : option json)
| NestedMany (target : string).

(** A file schema: its options, its declared fields (the fields of the model
    that are not [ignore_in_file]) and its [pre_load] processors that take
    one object. *)
Record FileSchema := {
  opts : FileSchemaOpts;
  declared : list (string * field_codec);
  pre_load_each : list (list (string * json) -> list (string * json))
}.

Section Codec.
Variable models : string -> ModelClass.
Variable file_schema : string -> FileSchema.
Variable copy_from : ModelSnapshots -> ModelSnapshots -> ModelSnapshots.

(** [unwrap_envelopes(data, many)], a [pre_load(pass_many=True)] processor. *)
Definition unwrap_envelopes (o : FileSchemaOpts) (data : json) (many : bool)
    : result json :=
  if envelope o then
    match data with
    | JObject members =>
        let pk_field := _pk_field (models (schema_model o)) in
        let step (acc : result (list json)) (kv : string * json)
            : result (list json) :=
          match acc, kv with
          | Raise e, _ => Raise e
          | Return unwrapped, (pk, JObject obj) =>
              let mismatch :=
                negb (envelope_remove_key o)
                && match od_get pk_field obj with
                   | Some (JStr s) => negb (bool_decide (s = pk))
                   | Some _ => true
                   | None => false
                   end in
              if mismatch
              then Raise (ValidationError
                            "Envelope id does not match value of primary key field")
              else Return (unwrapped ++ [JObject (od_set pk_field (JStr pk) obj)])
          | Return _, (_, _) =>
              Raise (TypeError "object does not support item assignment")
          end in
        match foldl step (Return []) members with
        | Raise e => Raise e
        | Return [one] => Return (if many then JList [one] else one)
        | Return unwrapped => Return (JList unwrapped)
        end
    | _ => Raise (AttributeError "iteritems")
    end
  else Return data.

(** [order_keys(data)], a [post_dump] processor. *)
Definition order_keys (data : json) : json :=
  match data with
  | JObject members => JObject (sorted_items members)
  | _ => data
  end.

(** [wrap_envelopes(data, many)], a [post_dump(pass_many=True)] processor. *)
Definition wrap_envelopes (o : FileSchemaOpts) (data : json) (many : bool)
    : result json :=
  if envelope o then
    let items :=
      if many then match data with JList l => l | _ => [data] end
      else [data] in
    let pk_field := _pk_field (models (schema_model o)) in
    let step (acc : result (list (string * json))) (obj : json)
        : result (list (string * json)) :=
      match acc, obj with
      | Raise e, _ => Raise e
      | Return wrapped, JObject d =>
          match od_get pk_field d with
          | Some (JStr pk) =>
              Return (od_set pk
                        (JObject (if envelope_remove_key o then od_del pk_field d
                                  else d))
                        wrapped)
          | Some _ => Raise (TypeError "the primary key is not a string")
          | None => Raise (KeyError pk_field)
          end
      | Return _, _ => Raise (TypeError "object is not subscriptable")
      end in
    match foldl step (Return []) items with
    | Raise e => Raise e
    | Return wrapped => Return (JObject wrapped)
    end
  else Return data.

Definition to_json (v : value) : json :=
  match v with
  | VStr s => JStr s
  | VBool b => JBool b
  | _ => JNull
  end.

(** Sequencing of a step over a list, stopping at the first error or at the
    first step that does not end ([None]). *)
Fixpoint each {A B : Type} (f : A -> option (result B)) (l : list A)
    : option (result (list B)) :=
  match l with
  | [] => Some (Return [])
  | x :: l' =>
      match f x with
      | None => None
      | Some (Raise e) => Some (Raise e)
      | Some (Return y) =>
          match each f l' with
          | None => None
          | Some (Raise e) => Some (Raise e)
          | Some (Return ys) => Some (Return (y :: ys))
          end
      end
  end.

(** [file_schema(context={'snapshots': order}).dump(obj, many)] for models
    whose fields need no lazy resolution (no storage, or every file field in
    the store): the fields are read from the stores under the order of the
    context; every object is marshalled field by field (a missing
    scalar takes its default or is left out, a has-many field nests the dump
    of its collection, empty if it was never set), its keys are ordered, and
    the whole is wrapped in its envelope.  [depth] bounds the nesting. *)
Fixpoint dump (depth : nat) (order : list string) (h : Heap) (class_name : string)
    (objects : list Model) (many : bool) : option (result json) :=
  match depth with
  | O => None
  | S depth' =>
      let schema := file_schema class_name in
      let marshal_field (m : Model) (kf : string * field_codec)
          : option (result (list (string * json))) :=
        match kf.2 with
        | Scalar _ dflt =>
            match Snapshots_get kf.1 order (store_of m h), dflt with
            | Some v, _ => Some (Return [(kf.1, to_json v)])
            | None, Some d => Some (Return [(kf.1, d)])
            | None, None => Some (Return [])
            end
        | NestedMany target =>
            let items :=
              match Snapshots_get kf.1 order (store_of m h) with
              | Some (VCollection address) => default [] (collections h !! address)
              | _ => []
              end in
            match dump depth' order h target items true with
            | None => None
            | Some (Raise e) => Some (Raise e)
            | Some (Return j) => Some (Return [(kf.1, j)])
            end
        end in
      let marshal (m : Model) : option (result json) :=
        match each (marshal_field m) (declared schema) with
        | None => None
        | Some (Raise e) => Some (Raise e)
        | Some (Return members) => Some (Return (order_keys (JObject (concat members))))
        end in
      match each marshal objects with
      | None => None
      | Some (Raise e) => Some (Raise e)
      | Some (Return dumped) =>
          Some (wrap_envelopes (opts schema)
                  (match many, dumped with
                   | false, [one] => one
                   | _, _ => JList dumped
                   end) many)
      end
  end.

(** [Model(storage, snapshots, **kwargs)] for keyword arguments that are
    scalar fields or collections: every name must be a field of the model,
    the handle is built by [__init__], each value is written to the first
    generation of its order, and [_initializing] is cleared.  The values are
    taken to be ones that the descriptors of the fields accept: what the
    descriptors check on assignment is not part of this definition, and an
    argument for a [BelongsTo] field, which [BelongsToDescriptor.__set__]
    would validate and link, is not covered by it. *)
Definition construct (class_name : string) (st : option nat) (snaps : list string)
    (kwargs : list (string * value)) (h : Heap) : result Model * Heap :=
  match list_find (fun kv : string * value =>
                     field_of (models class_name) kv.1 = None) kwargs with
  | Some (_, (name, _)) => (Raise (TypeError name), h)
  | None =>
      match Model__init__ class_name (_pk_field (models class_name)) (next_id h)
              st snaps kwargs with
      | Raise e => (Raise e, h)
      | Return m =>
          let h1 := {| stores := stores h; collections := collections h;
                       next_id := S (next_id h) |} in
          let h2 := foldl (fun acc kv =>
                             write_store m kv.1 kv.2
                               (default "working" (head (snapshots m))) acc)
                      (data_store m h1).2 kwargs in
          (Return {| data_key := data_key m; storage := storage m;
                     snapshots := snapshots m; _initializing := [];
                     self_id := self_id m |}, h2)
      end
  end.

(** [create_object(data)], the [post_load] processor: the model is built on
    the storage of the context with [snapshots=('committed',)], and the
    default view of it is returned. *)
Definition create_object (class_name : string) (st : option nat)
    (data : list (string * value)) (h : Heap) : result Model * Heap :=
  match construct class_name st ["committed"] data h with
  | (Raise e, h1) => (Raise e, h1)
  | (Return m, h1) =>
      let '(view, h2) := with_snapshots copy_from m [] h1 in
      (Return view, h2)
  end.

(** [cls.collection(items)]: a new collection. *)
Definition new_collection (items : list Model) (h : Heap) : nat * Heap :=
  (next_id h,
   {| stores := stores h;
      collections := <[next_id h := items]> (collections h);
      next_id := S (next_id h) |}).

Definition of_json (j : json) : value :=
  match j with
  | JStr s => VStr s
  | JBool b => VBool b
  | _ => VNone
  end.

(** [file_schema(strict=True, context={'storage': st}).load(data, many)]:
    the envelopes are unwrapped, every object goes through the [pre_load]
    processors, its declared fields are deserialized (a has-many field must
    be a mapping when the nested model has an envelope, a list otherwise,
    and loads the nested schema), [create_object] builds the model, and a
    load of many wraps the models in a collection. *)
Fixpoint load_document (depth : nat) (st : option nat) (class_name : string)
    (data : json) (many : bool) (h : Heap) : option (result LoadResult * Heap) :=
  match depth with
  | O => None
  | S depth' =>
      let schema := file_schema class_name in
      let load_field (obj : list (string * json))
          (acc : option (result (list (string * value)) * Heap))
          (kf : string * field_codec)
          : option (result (list (string * value)) * Heap) :=
        match acc with
        | None => None
        | Some (Raise e, h') => Some (Raise e, h')
        | Some (Return fields, h') =>
            match kf.2, od_get kf.1 obj with
            | Scalar required _, None =>
                if required
                then Some (Raise (ValidationError kf.1), h')
                else Some (Return fields, h')
            | Scalar _ _, Some j => Some (Return (fields ++ [(kf.1, of_json j)]), h')
            | NestedMany _, None => Some (Return fields, h')
            | NestedMany target, Some j =>
                let is_collection :=
                  match j with
                  | JObject _ => envelope (opts (file_schema target))
                  | JList _ => negb (envelope (opts (file_schema target)))
                  | _ => false
                  end in
                if negb is_collection
                then Some (Raise (ValidationError kf.1), h')
                else
                  match load_document depth' st target j true h' with
                  | None => None
                  | Some (Raise e, h'') => Some (Raise e, h'')
                  | Some (Return (LCollection items), h'') =>
                      let '(address, h3) := new_collection items h'' in
                      Some (Return (fields ++ [(kf.1, VCollection address)]), h3)
                  | Some (Return _, h'') => Some (Raise (ValidationError kf.1), h'')
                  end
            end
        end in
      let load_object (acc : option (result (list Model) * Heap)) (item : json)
          : option (result (list Model) * Heap) :=
        match acc with
        | None => None
        | Some (Raise e, h') => Some (Raise e, h')
        | Some (Return loaded, h') =>
            match item with
            | JObject obj =>
                let obj' := foldl (fun o hook => hook o) obj (pre_load_each schema) in
                match foldl (load_field obj') (Some (Return [], h')) (declared schema) with
                | None => None
                | Some (Raise e, h'') => Some (Raise e, h'')
                | Some (Return fields, h'') =>
                    match create_object class_name st fields h'' with
                    | (Raise e, h3) => Some (Raise e, h3)
                    | (Return m, h3) => Some (Return (loaded ++ [m]), h3)
                    end
                end
            | _ => Some (Raise (ValidationError "Invalid input type."), h')
            end
        end in
      match unwrap_envelopes (opts schema) data many with
      | Raise e => Some (Raise e, h)
      | Return unwrapped =>
          let items :=
            if many then match unwrapped with JList l => l | _ => [unwrapped] end
            else [unwrapped] in
          match foldl load_object (Some (Return [], h)) items with
          | None => None
          | Some (Raise e, h') => Some (Raise e, h')
          | Some (Return loaded, h') =>
              if many then Some (Return (LCollection loaded), h')
              else Some (Return (LInstance (head loaded)), h')
          end
      end
  end.
End Codec.

(** *** The file schemas of [Schema] and [Field] ([models.py]) *)

(** [Schema.name_from_id], a [pre_load] processor. *)
Definition name_from_id (data : list (string * json)) : list (string * json) :=
  match od_get "name" data, od_get "id" data with
  | None, Some id => od_set "name" id data
  | _, _ => data
  end.

Definition SchemaSchema : FileSchema :=
  {| opts := {| schema_model := "Schema"; envelope := true;
                envelope_remove_key := true |};
     declared := [("id", Scalar false None); ("name", Scalar true None);
                  ("fields", NestedMany "Field")];
     pre_load_each := [name_from_id] |}.

Definition FieldSchema : FileSchema :=
  {| opts := {| schema_model := "Field"; envelope := true;
                envelope_remove_key := false |};
     declared := [("id", Scalar false None); ("name", Scalar true None);
                  ("type", Scalar true (Some (JStr "text")));
                  ("required", Scalar false (Some (JBool false)));
                  ("vary", Scalar false (Some (JBool false)))];
     pre_load_each := [] |}.

Definition file_schemas (name : string) : FileSchema :=
  if bool_decide (name = "Field") then FieldSchema else SchemaSchema.

(** The document of the example: [{"s1": {"name": "default", "fields": {}}}] *)
Definition s1_document : json :=
  JObject [("s1", JObject [("name", JStr "default"); ("fields", JObject [])])].

(** [Schema(id='s1', name='default')] *)
Definition s1_built : result Model * Heap :=
  construct registry "Schema" None [] [("id", VStr "s1"); ("name", VStr "default")]
    empty_heap.

(** The document loaded as [Model.load] loads it, on a storage and with
    [many = cls.opts.owner]. *)
Definition s1_loaded : option (result LoadResult * Heap) :=
  load_document registry file_schemas (fun _ src => src) 3 (Some 1) "Schema"
    s1_document true empty_heap.

(** What a model holds under its own snapshot order. *)
Definition field_value (m : Model) (name : string) (h : Heap) : option value :=
  Snapshots_get name (snapshots m) (store_of m h).

Definition collection_items (m : Model) (name : string) (h : Heap)
    : option (list Model) :=
  match field_value m name h with
  | Some (VCollection address) => collections h !! address
  | _ => None
  end.

(** C9. [Schema(id='s1', name='default')], with no fields, dumps to the
    envelope [{"s1": {"fields": {}, "name": "default"}}], the keys of the body
    sorted and the primary key hoisted out of it, which is the document of
    the example; that document loads to one [Schema] with the primary key
    [s1], the name [default] and an empty collection of fields, and the
    loaded model dumps to the same document again. *)
Theorem schema_envelope_example :
  exists built h loaded h',
    s1_built = (Return built, h) /\
    data_key built = ("Schema", "s1") /\
    dump registry file_schemas 3 default_snapshots h "Schema" [built] false
    = Some (Return (JObject [("s1", JObject [("fields", JObject []);
                                             ("name", JStr "default")])])) /\
    json_eqb (JObject [("s1", JObject [("fields", JObject []);
                                       ("name", JStr "default")])])
             s1_document = true /\
    s1_loaded = Some (Return (LCollection [loaded]), h') /\
    data_key loaded = ("Schema", "s1") /\
    field_value loaded "name" h' = Some (VStr "default") /\
    collection_items loaded "fields" h' = Some [] /\
    dump registry file_schemas 3 default_snapshots h' "Schema" [loaded] false
    = Some (Return (JObject [("s1", JObject [("fields", JObject []);
                                             ("name", JStr "default")])])).
Proof.
  eexists _, _, _, _. split; [vm_compute; reflexivity|].
  split; [reflexivity|]. split; [vm_compute; reflexivity|].
  split; [vm_compute; reflexivity|]. split; [vm_compute; reflexivity|].
  split; [reflexivity|]. split; [vm_compute; reflexivity|].
  split; vm_compute; reflexivity.
Qed.

(** *** Relationships: [BelongsToDescriptor] *)
Section Relationships.
Variable models : string -> ModelClass.
Variable load : Model -> R LoadResult.
Variable copy_from : ModelSnapshots -> ModelSnapshots -> ModelSnapshots.
(** [ListDescriptor.__get__] of [collection.py] on a field that the store
    does not hold: the collection is made by [new_collection] and becomes the
    backing collection of the field. *)
Variable hydrate : Model -> string -> R value.
(** [ListDescriptor.__set__] of [collection.py]. *)
Variable list_set : Model -> string -> value -> R unit.

Definition lift {A : Type} (f : World -> result A * World) : R A :=
  fun w => Some (f w).

(** Modelled from the spec: [HasManyDescriptor.__get__] returns the backing
    collection of the field, populating it on the first access without prior
    hydration. *)
Definition HasMany__get__ (instance : Model) (attrname : string) : R value :=
  let* _ := resolve_attributes models load instance [attrname] None in
  fun w =>
    match Snapshots_get attrname (snapshots instance)
            (store_of instance (heap w)) with
    | Some v => Some (Return v, w)
    | None => hydrate instance attrname w
    end.

(** [getattr(x, name, None)]: through the descriptor of the field, with
    [None] for an [AttributeError]. *)
Definition getattr_or_none (x : Model) (name : string) : R value :=
  match field_kind <$> field_of (models (cls x)) name with
  | Some (BelongsTo _ _) => get_data models load x name (Some VNone)
  | Some (HasMany _ _) =>
      fun w =>
        match HasMany__get__ x name w with
        | Some (Raise (AttributeError _), w1) => Some (Return VNone, w1)
        | r => r
        end
  | Some Plain => get_data models load x name (Some VNone)
  | None => ret VNone
  end.

(** Modelled from the spec: [collection.discard(instance)] removes the
    instance (any model equal to it) from the collection, and
    [collection.add(instance)] adds it unless the collection holds it. *)
Definition discard (address : nat) (instance : Model) : R unit :=
  fun w =>
    Some (Return tt,
          with_heap
            (with_collections
               (<[address := filter (fun m => data_key m <> data_key instance)
                               (default [] (collections (heap w) !! address))]>
                  (collections (heap w)))
               (heap w)) w).

Definition add (address : nat) (instance : Model) : R unit :=
  fun w =>
    let items := default [] (collections (heap w) !! address) in
    if bool_decide (List.Exists (fun m => data_key m = data_key instance) items)
    then Some (Return tt, w)
    else Some (Return tt,
               with_heap
                 (with_collections
                    (<[address := items ++ [instance]]> (collections (heap w)))
                    (heap w)) w).

(** [setattr(x, name, v)]: [Model.__setattr__] refuses a name that is not a
    field, and the descriptor of the field takes the value; [belongs_to] is
    [BelongsToDescriptor.__set__]. *)
Definition setattr_with
    (belongs_to : string -> string -> string -> Model -> value -> R unit)
    (x : Model) (name : string) (v : value) : R unit :=
  match field_kind <$> field_of (models (cls x)) name with
  | Some (BelongsTo target related_name) => belongs_to target related_name name x v
  | Some (HasMany _ _) => list_set x name v
  | Some Plain => lift (set_data x name v)
  | None => throw (TypeError name)
  end.

(** [self._validate(value)] *)
Definition invalid (target : string) (v : value) : bool :=
  match v with
  | VNone => false
  | VModel m => negb (bool_decide (cls m = target))
  | _ => true
  end.

(** The inverse side of the old value is detached: lines 59 to 66. *)
Definition detach (setattr : Model -> string -> value -> R unit)
    (related_name : string) (instance : Model) (current_value : value) : R unit :=
  match current_value with
  | VModel current =>
      let* current' :=
        on_heap (with_snapshots copy_from current (snapshots instance)) in
      let* current_related_value := getattr_or_none current' related_name in
      match current_related_value with
      | VCollection address => discard address instance
      | _ => setattr current' related_name VNone
      end
  | VNone => ret tt
  | _ => throw (AttributeError "with_snapshots")
  end.

(** The inverse side of the new value is attached: lines 68 to 74. *)
Definition attach (setattr : Model -> string -> value -> R unit)
    (related_name : string) (instance : Model) (v : value) : R unit :=
  match v with
  | VModel m =>
      let* m' := on_heap (with_snapshots copy_from m (snapshots instance)) in
      let* related_value := getattr_or_none m' related_name in
      match related_value with
      | VCollection address => add address instance
      | _ => setattr m' related_name (VModel instance)
      end
  | _ => ret tt
  end.

(** The body of [BelongsToDescriptor.__set__(instance, value)], for the
    field [attrname] whose related model is [target] and whose inverse field
    is [related_name]. *)
Definition BelongsTo_body (setattr : Model -> string -> value -> R unit)
    (target related_name attrname : string) (instance : Model) (v : value)
    : R unit :=
  if invalid target v
  then throw (ValidationError "is not an instance of the model")
  else
    let* current_value := get_data models load instance attrname (Some VNone) in
    if value_eqb v current_value then ret tt
    else
      let* stored :=
        match v with
        | VModel m =>
            let* m0 := on_heap (with_snapshots copy_from m []) in
            ret (VModel m0)
        | _ => ret v
        end in
      let* _ := lift (set_data instance attrname stored) in
      let* _ := detach setattr related_name instance current_value in
      attach setattr related_name instance v.

(** [BelongsToDescriptor.__set__]; a [setattr] on the inverse field comes
    back to the descriptor of that field, and [fuel] bounds the calls nested
    in one another. *)
Fixpoint BelongsTo__set__ (fuel : nat) (target related_name attrname : string)
    (instance : Model) (v : value) : R unit :=
  match fuel with
  | O => fun _ => None
  | S fuel' =>
      BelongsTo_body (setattr_with (BelongsTo__set__ fuel'))
        target related_name attrname instance v
  end.

(** What an instance reads in a field under its own snapshot order, and the
    world after a value was written through an instance that has the default
    order. *)
Definition view (x : Model) (name : string) (w : World) : option value :=
  Snapshots_get name (snapshots x) (store_of x (heap w)).

Definition put (x : Model) (name : string) (v : value) (w : World) : World :=
  with_heap (write_store x name v "working" (heap w)) w.

(** The instance has the default snapshot order. *)
Definition settled (x : Model) : Prop := snapshots x = default_snapshots.

(** Reading the field needs no lazy resolution: there is no storage to load
    from, or the field is not kept in the file, or [__init__] is setting it,
    or the view already holds it. *)
Definition quiet (x : Model) (name : string) (w : World) : Prop :=
  storage x = None \/ name ∉ _file_fields (models (cls x))
  \/ name ∈ _initializing x \/ is_Some (view x name w).

Lemma resolve_attributes_quiet x name w :
  quiet x name w -> resolve_attributes models load x [name] None w = Some (Return tt, w).
Proof.
  intros Hq. unfold resolve_attributes. destruct (storage x) eqn:Hst; [|done].
  cbn [existsb data_store snd default]. change (with_heap (heap w) w) with w.
  destruct Hq as [?|[Hfile|[Hinit|Hview]]]; [congruence| | |].
  - by rewrite (bool_decide_eq_false_2 _ Hfile).
  - rewrite (bool_decide_eq_true_2 _ Hinit). cbn. by rewrite andb_false_r.
  - unfold hasattr_accessor. fold (view x name w).
    rewrite (bool_decide_eq_true_2 _ Hview). cbn. by rewrite andb_false_r.
Qed.

Lemma get_data_quiet x name d w :
  quiet x name w ->
  get_data models load x name (Some d) w
  = Some (Return (default d (view x name w)), w).
Proof.
  intros Hq. unfold get_data. rewrite (resolve_attributes_quiet _ _ _ Hq).
  cbn [data_store]. change (with_heap (heap w) w) with w.
  fold (view x name w). by destruct (view x name w).
Qed.

Lemma set_data_settled x name v w :
  settled x -> set_data x name v w = (Return tt, put x name v w).
Proof. unfold settled, set_data. by intros ->. Qed.

Lemma view_put x y name n v w :
  settled y ->
  view y n (put x name v w)
  = if bool_decide (slot_of y = slot_of x /\ n = name) then Some v else view y n w.
Proof.
  unfold settled, view, put. intros ->. cbn [heap with_heap].
  destruct (decide (slot_of y = slot_of x)) as [Hs|Hs].
  - rewrite store_of_write_eq by done.
    destruct (decide (n = name)) as [->|Hn].
    + rewrite bool_decide_eq_true_2 by done.
      apply (Snapshots_get_set name v "working" [] ["staged"; "committed"]).
      constructor.
    + rewrite bool_decide_eq_false_2 by naive_solver.
      rewrite Snapshots_get_set_other by done.
      unfold store_of. by rewrite Hs.
  - rewrite bool_decide_eq_false_2 by naive_solver.
    by rewrite store_of_write_ne.
Qed.

Lemma collections_put x name v w :
  collections (heap (put x name v w)) = collections (heap w).
Proof. done. Qed.

Lemma with_snapshots_settled m order h :
  settled m -> order = [] \/ order = default_snapshots ->
  with_snapshots copy_from m order h = (m, h).
Proof.
  unfold settled, with_snapshots. intros -> [->| ->];
    by rewrite bool_decide_eq_true_2.
Qed.

Lemma quiet_put x y name n v w :
  settled y -> quiet y n w -> quiet y n (put x name v w).
Proof.
  intros Hy [?|[?|[?|Hview]]]; unfold quiet; auto.
  right. right. right. rewrite view_put by done. case_bool_decide; [by eexists|done].
Qed.

Lemma getattr_belongs_to x name target related_name w :
  field_kind <$> field_of (models (cls x)) name = Some (BelongsTo target related_name) ->
  quiet x name w ->
  getattr_or_none x name w = Some (Return (default VNone (view x name w)), w).
Proof. intros Hk Hq. unfold getattr_or_none. rewrite Hk. by apply get_data_quiet. Qed.

Lemma getattr_has_many x name target related_name v w :
  field_kind <$> field_of (models (cls x)) name = Some (HasMany target related_name) ->
  view x name w = Some v ->
  getattr_or_none x name w = Some (Return v, w).
Proof.
  intros Hk Hv. unfold getattr_or_none, HasMany__get__, bind. rewrite Hk.
  rewrite resolve_attributes_quiet
    by (right; right; right; rewrite Hv; by eexists).
  fold (view x name w). by rewrite Hv.
Qed.

Lemma on_heap_with_snapshots m order w :
  settled m -> order = [] \/ order = default_snapshots ->
  on_heap (with_snapshots copy_from m order) w = Some (Return m, w).
Proof.
  intros Hm Ho. unfold on_heap. by rewrite (with_snapshots_settled _ _ _ Hm Ho).
Qed.

(** One call of the descriptor on a settled instance whose field reads
    without lazy resolution: nothing happens when the value equals the
    current one; otherwise the value is written, the old value is detached
    and the new one attached. *)
Lemma BelongsTo_body_step setattr target related_name attrname x v w :
  settled x -> quiet x attrname w -> invalid target v = false ->
  match v with VModel m => settled m | _ => True end ->
  BelongsTo_body setattr target related_name attrname x v w
  = if value_eqb v (default VNone (view x attrname w))
    then Some (Return tt, w)
    else bind (detach setattr related_name x (default VNone (view x attrname w)))
              (fun _ => attach setattr related_name x v)
              (put x attrname v w).
Proof.
  intros Hx Hq Hvalid Hv. unfold BelongsTo_body. rewrite Hvalid.
  unfold bind at 1. rewrite (get_data_quiet _ _ _ _ Hq).
  destruct (value_eqb v (default VNone (view x attrname w))); [done|].
  destruct v as [| | | | | |m|]; unfold bind at 1; cbn [ret];
    try (unfold bind at 1, lift; by rewrite (set_data_settled _ _ _ _ Hx)).
  unfold bind at 1. rewrite on_heap_with_snapshots by auto. cbn [ret].
  unfold bind at 1, lift. by rewrite (set_data_settled _ _ _ _ Hx).
Qed.

Lemma detach_belongs_to setattr related_name x c target' related' w :
  settled x -> settled c ->
  field_kind <$> field_of (models (cls c)) related_name
    = Some (BelongsTo target' related') ->
  quiet c related_name w ->
  detach setattr related_name x (VModel c) w
  = match default VNone (view c related_name w) with
    | VCollection address => discard address x w
    | _ => setattr c related_name VNone w
    end.
Proof.
  intros Hx Hc Hk Hq. unfold detach, bind. rewrite Hx.
  rewrite on_heap_with_snapshots by auto.
  rewrite (getattr_belongs_to _ _ _ _ _ Hk Hq).
  by destruct (default VNone (view c related_name w)).
Qed.

Lemma attach_belongs_to setattr related_name x m target' related' w :
  settled x -> settled m ->
  field_kind <$> field_of (models (cls m)) related_name
    = Some (BelongsTo target' related') ->
  quiet m related_name w ->
  attach setattr related_name x (VModel m) w
  = match default VNone (view m related_name w) with
    | VCollection address => add address x w
    | _ => setattr m related_name (VModel x) w
    end.
Proof.
  intros Hx Hm Hk Hq. unfold attach, bind. rewrite Hx.
  rewrite on_heap_with_snapshots by auto.
  rewrite (getattr_belongs_to _ _ _ _ _ Hk Hq).
  by destruct (default VNone (view m related_name w)).
Qed.

Lemma detach_has_many setattr related_name x c target' related' address w :
  settled x -> settled c ->
  field_kind <$> field_of (models (cls c)) related_name
    = Some (HasMany target' related') ->
  view c related_name w = Some (VCollection address) ->
  detach setattr related_name x (VModel c) w = discard address x w.
Proof.
  intros Hx Hc Hk Hv. unfold detach, bind. rewrite Hx.
  rewrite on_heap_with_snapshots by auto.
  by rewrite (getattr_has_many _ _ _ _ _ _ Hk Hv).
Qed.

Lemma attach_has_many setattr related_name x m target' related' address w :
  settled x -> settled m ->
  field_kind <$> field_of (models (cls m)) related_name
    = Some (HasMany target' related') ->
  view m related_name w = Some (VCollection address) ->
  attach setattr related_name x (VModel m) w = add address x w.
Proof.
  intros Hx Hm Hk Hv. unfold attach, bind. rewrite Hx.
  rewrite on_heap_with_snapshots by auto.
  by rewrite (getattr_has_many _ _ _ _ _ _ Hk Hv).
Qed.

Lemma setattr_belongs_to belongs_to x name target related_name v w :
  field_kind <$> field_of (models (cls x)) name = Some (BelongsTo target related_name) ->
  setattr_with belongs_to x name v w = belongs_to target related_name name x v w.
Proof. intros Hk. unfold setattr_with. by rewrite Hk. Qed.

(** The items of a collection. *)
Definition items (address : nat) (w : World) : list Model :=
  default [] (collections (heap w) !! address).

(** A collection holds a model: one of its items is equal to it. *)
Definition holds (address : nat) (x : Model) (w : World) : Prop :=
  List.Exists (fun m => data_key m = data_key x) (items address w).

(** The worlds that [discard] and [add] leave. *)
Definition discarded (address : nat) (x : Model) (w : World) : World :=
  default w (snd <$> discard address x w).

Definition added (address : nat) (x : Model) (w : World) : World :=
  default w (snd <$> add address x w).

Lemma discard_eq address x w :
  discard address x w = Some (Return tt, discarded address x w).
Proof. done. Qed.

Lemma add_eq address x w : add address x w = Some (Return tt, added address x w).
Proof. unfold added, add. by case_bool_decide. Qed.

Lemma view_discarded address x y name w :
  view y name (discarded address x w) = view y name w.
Proof. done. Qed.

Lemma view_added address x y name w :
  view y name (added address x w) = view y name w.
Proof. unfold added, add. by case_bool_decide. Qed.

Lemma items_put address x name v w : items address (put x name v w) = items address w.
Proof. done. Qed.

Lemma items_discarded address address' x w :
  items address' (discarded address x w)
  = if bool_decide (address' = address)
    then filter (fun m => data_key m <> data_key x) (items address w)
    else items address' w.
Proof.
  unfold items, discarded, discard. cbn. case_bool_decide as Ha.
  - subst. by rewrite lookup_insert_eq.
  - by rewrite lookup_insert_ne.
Qed.

Lemma items_added_ne address address' x w :
  address' <> address -> items address' (added address x w) = items address' w.
Proof.
  intros Hne. unfold items, added, add. case_bool_decide; [done|].
  cbn. by rewrite lookup_insert_ne.
Qed.

Lemma holds_added address x w : holds address x (added address x w).
Proof.
  unfold holds, items, added, add. case_bool_decide as Hin; [done|].
  cbn. rewrite lookup_insert_eq. cbn. apply Exists_app. right. by constructor.
Qed.

Lemma not_holds_discarded address x w : ~ holds address x (discarded address x w).
Proof.
  unfold holds. rewrite items_discarded, bool_decide_eq_true_2 by done.
  rewrite Exists_exists. intros (m & Hin & Hkey).
  apply list_elem_of_filter in Hin as [Hne _]. done.
Qed.

(** The value of an optional model. *)
Definition model_or_none (m : option Model) : value :=
  match m with
  | Some x => VModel x
  | None => VNone
  end.

(** The inverse side of [y] is a hydrated collection: [y] is settled, its
    field [related_name] is a has-many field that holds the collection at
    [address], and that field is not the field being assigned. *)
Definition many_side (attrname related_name : string) (a y : Model)
    (address : nat) (w : World) : Prop :=
  settled y /\
  (exists t r, field_kind <$> field_of (models (cls y)) related_name
               = Some (HasMany t r)) /\
  view y related_name w = Some (VCollection address) /\
  (slot_of y <> slot_of a \/ related_name <> attrname).

Lemma BelongsTo_set_invalid fuel target related_name attrname a v w :
  invalid target v = true ->
  BelongsTo__set__ (S fuel) target related_name attrname a v w
  = Some (Raise (ValidationError "is not an instance of the model"), w).
Proof. intros Hv. cbn [BelongsTo__set__]. unfold BelongsTo_body. by rewrite Hv. Qed.

Lemma BelongsTo_set_S fuel target related_name attrname x v w :
  BelongsTo__set__ (S fuel) target related_name attrname x v w
  = BelongsTo_body (setattr_with (BelongsTo__set__ fuel))
      target related_name attrname x v w.
Proof. done. Qed.

(** The inverse side of [y] is a scalar back-reference: [y] is settled, its
    field [name] is a belongs-to field to [target] whose inverse field is
    [related_name], and the field reads without lazy resolution. *)
Definition one_side (name target related_name : string) (y : Model) (w : World)
    : Prop :=
  settled y /\
  field_kind <$> field_of (models (cls y)) name
    = Some (BelongsTo target related_name) /\
  quiet y name w.

Lemma view_put_eq x y name v w :
  settled y -> slot_of y = slot_of x -> view y name (put x name v w) = Some v.
Proof. intros Hy Hs. rewrite view_put by done. by rewrite bool_decide_eq_true_2. Qed.

Lemma view_put_ne x y name n v w :
  settled y -> slot_of y <> slot_of x \/ n <> name ->
  view y n (put x name v w) = view y n w.
Proof.
  intros Hy Hs. rewrite view_put by done.
  rewrite bool_decide_eq_false_2; [done|]. intros [??]. by destruct Hs.
Qed.

Lemma bind_ret_tt (c : R unit) w : bind c (fun _ => ret tt) w = c w.
Proof. unfold bind, ret. by destruct (c w) as [[[[]|e] w1]|]. Qed.

(** A value that is no collection. *)
Definition scalar (v : value) : Prop :=
  match v with
  | VCollection _ => False
  | _ => True
  end.

(** Assigning the value that the field holds changes nothing. *)
Lemma BelongsTo_set_same fuel target related_name attrname x v w :
  settled x -> quiet x attrname w -> invalid target v = false ->
  match v with VModel m => settled m | _ => True end ->
  value_eqb v (default VNone (view x attrname w)) = true ->
  BelongsTo__set__ (S fuel) target related_name attrname x v w = Some (Return tt, w).
Proof.
  intros Hx Hq Hvalid Hv Heq. rewrite BelongsTo_set_S, BelongsTo_body_step by done.
  by rewrite Heq.
Qed.

(** The old value [y] of the field has a scalar inverse side: detaching it
    assigns [None] to that side. *)
Lemma detach_one fuel related_name x y target' related' w :
  settled x -> one_side related_name target' related' y w ->
  scalar (default VNone (view y related_name w)) ->
  detach (setattr_with (BelongsTo__set__ fuel)) related_name x (VModel y) w
  = BelongsTo__set__ fuel target' related' related_name y VNone w.
Proof.
  intros Hx (Hy & Hk & Hq) Hs.
  rewrite (detach_belongs_to _ _ _ _ _ _ _ Hx Hy Hk Hq).
  rewrite (setattr_belongs_to _ _ _ _ _ _ _ Hk).
  by destruct (default VNone (view y related_name w)).
Qed.

(** The new value [y] of the field has a scalar inverse side: attaching it
    assigns the instance to that side. *)
Lemma attach_one fuel related_name x y target' related' w :
  settled x -> one_side related_name target' related' y w ->
  scalar (default VNone (view y related_name w)) ->
  attach (setattr_with (BelongsTo__set__ fuel)) related_name x (VModel y) w
  = BelongsTo__set__ fuel target' related' related_name y (VModel x) w.
Proof.
  intros Hx (Hy & Hk & Hq) Hs.
  rewrite (attach_belongs_to _ _ _ _ _ _ _ Hx Hy Hk Hq).
  rewrite (setattr_belongs_to _ _ _ _ _ _ _ Hk).
  by destruct (default VNone (view y related_name w)).
Qed.

(** Assigning [None] to a field that holds [y]: the field is cleared, then
    the inverse side of [y] is. *)
Lemma BelongsTo_set_clear fuel target related_name attrname x y target' related' w :
  settled x -> quiet x attrname w ->
  default VNone (view x attrname w) = VModel y ->
  one_side related_name target' related' y (put x attrname VNone w) ->
  scalar (default VNone (view y related_name (put x attrname VNone w))) ->
  BelongsTo__set__ (S fuel) target related_name attrname x VNone w
  = BelongsTo__set__ fuel target' related' related_name y VNone
      (put x attrname VNone w).
Proof.
  intros Hx Hq Hcur Hy Hs. rewrite BelongsTo_set_S, BelongsTo_body_step by done.
  rewrite Hcur. cbn [value_eqb attach]. rewrite bind_ret_tt.
  by apply detach_one.
Qed.

(** Assigning [y] to a field that holds nothing: the field is written, then
    the inverse side of [y] is assigned the instance. *)
Lemma BelongsTo_set_link fuel target related_name attrname x y target' related' w :
  settled x -> quiet x attrname w ->
  default VNone (view x attrname w) = VNone ->
  cls y = target ->
  one_side related_name target' related' y (put x attrname (VModel y) w) ->
  scalar (default VNone (view y related_name (put x attrname (VModel y) w))) ->
  BelongsTo__set__ (S fuel) target related_name attrname x (VModel y) w
  = BelongsTo__set__ fuel target' related' related_name y (VModel x)
      (put x attrname (VModel y) w).
Proof.
  intros Hx Hq Hcur Hcls Hy Hs.
  rewrite BelongsTo_set_S, BelongsTo_body_step; [|done|done| |by destruct Hy].
  2: { cbn. by rewrite bool_decide_eq_true_2. }
  rewrite Hcur. cbn [value_eqb detach]. unfold bind at 1. cbn [ret].
  by apply attach_one.
Qed.

(** Assigning [y] to a field that holds another model [o]: the field is
    written, the inverse side of [o] is cleared, then the inverse side of [y]
    is attached. *)
Lemma BelongsTo_set_move fuel target related_name attrname x o y target' related' w :
  settled x -> quiet x attrname w ->
  default VNone (view x attrname w) = VModel o ->
  data_key y <> data_key o ->
  cls y = target -> settled y ->
  one_side related_name target' related' o (put x attrname (VModel y) w) ->
  scalar (default VNone (view o related_name (put x attrname (VModel y) w))) ->
  BelongsTo__set__ (S fuel) target related_name attrname x (VModel y) w
  = bind (BelongsTo__set__ fuel target' related' related_name o VNone)
         (fun _ => attach (setattr_with (BelongsTo__set__ fuel)) related_name x (VModel y))
         (put x attrname (VModel y) w).
Proof.
  intros Hx Hq Hcur Hne Hcls Hy Ho Hs.
  rewrite BelongsTo_set_S, BelongsTo_body_step; [|done|done| |done].
  2: { cbn. by rewrite bool_decide_eq_true_2. }
  rewrite Hcur. cbn [value_eqb]. rewrite bool_decide_eq_false_2 by done.
  unfold bind. by rewrite (detach_one _ _ _ _ _ _ _ Hx Ho Hs).
Qed.

Definition option_models (m : option Model) : list Model :=
  match m with
  | Some x => [x]
  | None => []
  end.

Ltac views :=
  repeat first
    [ rewrite view_put_eq by first [assumption | reflexivity]
    | rewrite view_put_ne by first [assumption | left; congruence] ].

Ltac quiets := repeat (apply quiet_put; [assumption|]); assumption.

Ltac side :=
  first
    [ assumption
    | reflexivity
    | congruence
    | quiets
    | split; [assumption | split; [assumption | quiets]]
    | views; first [assumption | reflexivity]
    | views;
      repeat match goal with
             | H : default VNone (view _ _ _) = _ |- _ => rewrite H
             end;
      exact I ].

Ltac same :=
  first
    [ side
    | cbn [invalid]; by rewrite bool_decide_eq_true_2
    | views;
      repeat match goal with
             | H : default VNone (view _ _ _) = _ |- _ => rewrite H
             end;
      cbn [from_option id value_eqb]; first [reflexivity | by rewrite bool_decide_eq_true_2] ].

Ltac distinct H :=
  cbn [fmap list_fmap option_models app] in H;
  repeat (apply NoDup_cons in H as [? H]);
  repeat match goal with
         | Hn : _ ∉ _ :: _ |- _ => apply not_elem_of_cons in Hn as [? ?]
         end.

(** C3: assigning to a belongs-to field, [a.ref = b], through
    [BelongsToDescriptor.__set__].

    - The value is validated first: a value that is neither [None] nor an
      instance of the related model raises [ValidationError], and the world
      is the one before the call.
    - Inverse sides that are collections: when the value differs from the
      current one, the call returns, the field holds the new value, the
      collection of the old value no longer holds the instance and the
      collection of the new value holds it.
    - Inverse sides that are scalar back-references (a one-to-one
      relationship): when the value differs from the current one, the call
      returns, the field holds the new value, the back-reference of the new
      value is the instance, the back-reference of the old value is [None],
      and the previous partner of the new value refers to nothing.

    The instances have the default snapshot order, their fields read without
    lazy resolution, and the two sides agree before the assignment. *)
Theorem belongs_to_assignment_symmetric :
  (forall fuel target related_name attrname a v w,
     invalid target v = true ->
     BelongsTo__set__ (S fuel) target related_name attrname a v w
     = Some (Raise (ValidationError "is not an instance of the model"), w)) /\
  (forall fuel target related_name attrname a (old new : option (Model * nat)) w,
     settled a -> quiet a attrname w ->
     default VNone (view a attrname w) = model_or_none (fst <$> old) ->
     invalid target (model_or_none (fst <$> new)) = false ->
     value_eqb (model_or_none (fst <$> new)) (model_or_none (fst <$> old)) = false ->
     match old with
     | Some (o, address) => many_side attrname related_name a o address w
     | None => True
     end ->
     match new with
     | Some (b, address) => many_side attrname related_name a b address w
     | None => True
     end ->
     match old, new with
     | Some (_, address), Some (_, address') => address <> address'
     | _, _ => True
     end ->
     exists w',
       BelongsTo__set__ (S fuel) target related_name attrname a
         (model_or_none (fst <$> new)) w = Some (Return tt, w') /\
       view a attrname w' = Some (model_or_none (fst <$> new)) /\
       match old with
       | Some (_, address) => ~ holds address a w'
       | None => True
       end /\
       match new with
       | Some (_, address) => holds address a w'
       | None => True
       end) /\
  (forall fuel target related_name attrname a (old new prev : option Model) w,
     one_side attrname target related_name a w ->
     default VNone (view a attrname w) = model_or_none old ->
     invalid target (model_or_none new) = false ->
     value_eqb (model_or_none new) (model_or_none old) = false ->
     match old with
     | Some o =>
         one_side related_name (cls a) attrname o w /\
         default VNone (view o related_name w) = VModel a
     | None => True
     end ->
     match new with
     | Some b =>
         one_side related_name (cls a) attrname b w /\
         default VNone (view b related_name w) = model_or_none prev
     | None => prev = None
     end ->
     match prev with
     | Some a2 =>
         one_side attrname target related_name a2 w /\
         default VNone (view a2 attrname w) = model_or_none new /\
         data_key a2 <> data_key a
     | None => True
     end ->
     NoDup (slot_of <$> a :: option_models old ++ option_models new
                          ++ option_models prev) ->
     exists w',
       BelongsTo__set__ (6 + fuel) target related_name attrname a
         (model_or_none new) w = Some (Return tt, w') /\
       view a attrname w' = Some (model_or_none new) /\
       match new with
       | Some b => view b related_name w' = Some (VModel a)
       | None => True
       end /\
       match old with
       | Some o => view o related_name w' = Some VNone
       | None => True
       end /\
       match prev with
       | Some a2 => view a2 attrname w' = Some VNone
       | None => True
       end).
Proof.
  split; [|split].
  { intros fuel target related_name attrname a v w Hv.
    apply BelongsTo_set_invalid, Hv. }
  { intros fuel target related_name attrname a old new w.
    intros Ha Hq Hcur Hvalid Hdiffer Hold Hnew Hdistinct.
    cbn [BelongsTo__set__].
    rewrite BelongsTo_body_step; [|done|done|done|].
    2: { destruct new as [[b ?]|]; [|done]. by destruct Hnew. }
    rewrite Hcur, Hdiffer. unfold bind.
    set (v := model_or_none (fst <$> new)).
    set (w1 := put a attrname v w).
    assert (exists w2,
      detach (setattr_with (BelongsTo__set__ fuel)) related_name a
        (model_or_none (fst <$> old)) w1 = Some (Return tt, w2) /\
      (forall y name, view y name w2 = view y name w1) /\
      match old with
      | Some (_, address) =>
          ~ holds address a w2 /\
          forall address', address' <> address -> items address' w2 = items address' w1
      | None => w2 = w1
      end) as (w2 & -> & Hview2 & Hold2).
    { destruct old as [[o co]|]; cbn [fmap option_fmap option_map fst model_or_none].
      - destruct Hold as (Ho & (t & r & Hk) & Hv & Hne).
        exists (discarded co a w1). split; [|split; [done|split]].
        + erewrite detach_has_many; [apply discard_eq|done|done|exact Hk|].
          unfold w1. rewrite view_put by done.
          rewrite bool_decide_eq_false_2 by naive_solver. done.
        + apply not_holds_discarded.
        + intros address' Hne'. rewrite items_discarded.
          by rewrite bool_decide_eq_false_2.
      - exists w1. by repeat split. }
    destruct new as [[b cb]|]; subst v;
      cbn [fmap option_fmap option_map fst model_or_none] in *.
    - destruct Hnew as (Hb & (t & r & Hk) & Hv & Hne).
      exists (added cb a w2). split; [|split; [|split]].
      + erewrite attach_has_many; [apply add_eq|done|done|exact Hk|].
        rewrite Hview2. unfold w1. rewrite view_put by done.
        rewrite bool_decide_eq_false_2 by naive_solver. done.
      + rewrite view_added, Hview2. unfold w1. rewrite view_put by done.
        by rewrite bool_decide_eq_true_2.
      + destruct old as [[o co]|]; [|done]. destruct Hold2 as [Hnot Hother].
        unfold holds in *. by rewrite items_added_ne.
      + apply holds_added.
    - exists w2. split; [done|]. split; [|split; [|done]].
      + rewrite Hview2. unfold w1. rewrite view_put by done.
        by rewrite bool_decide_eq_true_2.
      + destruct old as [[o co]|]; [|done]. by destruct Hold2.
  }
  intros fuel target related_name attrname a old new prev w.
  intros (Ha & Hka & Hqa) Hcur Hvalid Hdiffer Hold Hnew Hprev Hslots.
  change (6 + fuel) with (S (S (S (S (S (S fuel)))))).
  assert (forall m, invalid target (VModel m) = false -> cls m = target) as Hcls.
  { intros m. cbn. intros Hm%negb_false_iff. by apply bool_decide_eq_true in Hm. }
  destruct old as [o|], new as [b|]; cbn [model_or_none] in *.
  - destruct Hold as ((Ho & Hko & Hqo) & Hvo).
    destruct Hnew as ((Hb & Hkb & Hqb) & Hvb).
    apply Hcls in Hvalid. cbn in Hdiffer. apply bool_decide_eq_false in Hdiffer.
    destruct prev as [a2|]; cbn [model_or_none] in *.
    + destruct Hprev as ((Ha2 & Hka2 & Hqa2) & Hva2 & Hna2).
      distinct Hslots.
      eexists. split.
      * rewrite (BelongsTo_set_move _ _ _ _ a o b (cls a) attrname) by side.
        unfold bind.
        rewrite (BelongsTo_set_clear _ _ _ _ o a target related_name) by side.
        rewrite (BelongsTo_set_clear _ _ _ _ a b (cls a) attrname) by side.
        rewrite (BelongsTo_set_clear _ _ _ _ b a2 target related_name) by side.
        rewrite (BelongsTo_set_clear _ _ _ _ a2 b (cls a) attrname) by side.
        rewrite BelongsTo_set_same by same.
        rewrite (attach_one _ _ a b (cls a) attrname) by side.
        rewrite (BelongsTo_set_link _ _ _ _ b a target related_name) by side.
        rewrite (BelongsTo_set_link _ _ _ _ a b (cls a) attrname) by side.
        by rewrite BelongsTo_set_same by same.
      * repeat split; by views.
    + distinct Hslots. subst.
      eexists. split.
      * rewrite (BelongsTo_set_move _ _ _ _ a o b (cls a) attrname) by side.
        unfold bind.
        rewrite (BelongsTo_set_clear _ _ _ _ o a (cls b) related_name) by side.
        rewrite (BelongsTo_set_clear _ _ _ _ a b (cls a) attrname) by side.
        rewrite BelongsTo_set_same by same.
        rewrite (attach_one _ _ a b (cls a) attrname) by side.
        rewrite (BelongsTo_set_link _ _ _ _ b a (cls b) related_name) by side.
        rewrite (BelongsTo_set_link _ _ _ _ a b (cls a) attrname) by side.
        by rewrite BelongsTo_set_same by same.
      * repeat split; by views.
  - destruct Hold as ((Ho & Hko & Hqo) & Hvo). subst prev.
    distinct Hslots.
    eexists. split.
    + rewrite (BelongsTo_set_clear _ _ _ _ a o (cls a) attrname) by side.
      rewrite (BelongsTo_set_clear _ _ _ _ o a target related_name) by side.
      by rewrite BelongsTo_set_same by same.
    + repeat split; by views.
  - destruct Hnew as ((Hb & Hkb & Hqb) & Hvb).
    apply Hcls in Hvalid.
    destruct prev as [a2|]; cbn [model_or_none] in *.
    + destruct Hprev as ((Ha2 & Hka2 & Hqa2) & Hva2 & Hna2).
      distinct Hslots.
      eexists. split.
      * rewrite (BelongsTo_set_link _ _ _ _ a b (cls a) attrname) by side.
        rewrite (BelongsTo_set_move _ _ _ _ b a2 a target related_name) by side.
        unfold bind.
        rewrite (BelongsTo_set_clear _ _ _ _ a2 b (cls a) attrname) by side.
        rewrite (BelongsTo_set_clear _ _ _ _ b a target related_name) by side.
        rewrite (BelongsTo_set_clear _ _ _ _ a b (cls a) attrname) by side.
        rewrite BelongsTo_set_same by same.
        rewrite (attach_one _ _ b a target related_name) by side.
        rewrite (BelongsTo_set_link _ _ _ _ a b (cls a) attrname) by side.
        rewrite (BelongsTo_set_link _ _ _ _ b a target related_name) by side.
        by rewrite BelongsTo_set_same by same.
      * repeat split; by views.
    + distinct Hslots.
      eexists. split.
      * rewrite (BelongsTo_set_link _ _ _ _ a b (cls a) attrname) by side.
        rewrite (BelongsTo_set_link _ _ _ _ b a target related_name) by side.
        by rewrite BelongsTo_set_same by same.
      * repeat split; by views.
  - done.
Qed.

End Relationships.

(** Scenarios for the assignment.  The instances are not attached to a
    storage; the collections are hydrated, so that the collaborators of
    [collection.py] that make or replace a collection are never reached. *)
Definition free (class_name pk : string) (self : nat) : Model :=
  {| data_key := (class_name, pk); storage := None;
     snapshots := default_snapshots; _initializing := []; self_id := self |}.

Definition unhydrated (m : Model) (name : string) : R value :=
  throw (AttributeError name).

Definition list_set_refused (m : Model) (name : string) (v : value) : R unit :=
  throw (AttributeError name).

Definition assign (fuel : nat) (target related_name attrname : string)
    (instance : Model) (v : value) : R unit :=
  BelongsTo__set__ registry (portia_load 2) (fun _ s => s) unhydrated
    list_set_refused fuel target related_name attrname instance v.

(** A child of parent pA, whose collection holds it, and a parent pB with an
    empty collection. *)
Definition one_child : World :=
  with_heap
    (with_collections {[ 0 := [free "ChildModel" "c" 3]; 1 := [] ]}
       (heap
          (put (free "ChildModel" "c" 3) "parent" (VModel (free "ParentModel" "pA" 1))
             (put (free "ParentModel" "pA" 1) "children" (VCollection 0)
                (put (free "ParentModel" "pB" 2) "children" (VCollection 1)
                   empty_world)))))
    empty_world.

(** Two one-to-one pairs: [a] with [o], and [a2] with [b]. *)
Definition two_pairs : World :=
  put (free "OneToOneModel1" "a" 1) "m2" (VModel (free "OneToOneModel2" "o" 2))
    (put (free "OneToOneModel2" "o" 2) "m1" (VModel (free "OneToOneModel1" "a" 1))
       (put (free "OneToOneModel1" "a2" 4) "m2" (VModel (free "OneToOneModel2" "b" 3))
          (put (free "OneToOneModel2" "b" 3) "m1" (VModel (free "OneToOneModel1" "a2" 4))
             empty_world))).

Lemma belongs_to_assignment_witness :
  assign 1 "OneToOneModel2" "m1" "m2" (free "OneToOneModel1" "a" 1)
    (VModel (free "ParentModel" "pA" 1)) two_pairs
  = Some (Raise (ValidationError "is not an instance of the model"), two_pairs) /\
  (exists w',
     assign 1 "ParentModel" "children" "parent" (free "ChildModel" "c" 3)
       (VModel (free "ParentModel" "pB" 2)) one_child = Some (Return tt, w') /\
     view (free "ChildModel" "c" 3) "parent" w'
     = Some (VModel (free "ParentModel" "pB" 2)) /\
     ~ holds 0 (free "ChildModel" "c" 3) w' /\
     holds 1 (free "ChildModel" "c" 3) w') /\
  (exists w',
     assign 6 "OneToOneModel2" "m1" "m2" (free "OneToOneModel1" "a" 1)
       (VModel (free "OneToOneModel2" "b" 3)) two_pairs = Some (Return tt, w') /\
     view (free "OneToOneModel1" "a" 1) "m2" w'
     = Some (VModel (free "OneToOneModel2" "b" 3)) /\
     view (free "OneToOneModel2" "b" 3) "m1" w'
     = Some (VModel (free "OneToOneModel1" "a" 1)) /\
     view (free "OneToOneModel2" "o" 2) "m1" w' = Some VNone /\
     view (free "OneToOneModel1" "a2" 4) "m2" w' = Some VNone).
Proof.
  pose proof (belongs_to_assignment_symmetric registry (portia_load 2)
                (fun _ s => s) unhydrated list_set_refused) as (Hfirst & Hmany & Hone).
  split; [|split].
  - apply Hfirst. reflexivity.
  - apply (Hmany 0 "ParentModel" "children" "parent" (free "ChildModel" "c" 3)
             (Some (free "ParentModel" "pA" 1, 0))
             (Some (free "ParentModel" "pB" 2, 1)) one_child).
    + reflexivity.
    + left. reflexivity.
    + vm_compute. reflexivity.
    + reflexivity.
    + vm_compute. reflexivity.
    + split; [reflexivity|]. split; [by exists "ChildModel", "parent"|].
      split; [vm_compute; reflexivity|]. right. discriminate.
    + split; [reflexivity|]. split; [by exists "ChildModel", "parent"|].
      split; [vm_compute; reflexivity|]. right. discriminate.
    + discriminate.
  - apply (Hone 0 "OneToOneModel2" "m1" "m2" (free "OneToOneModel1" "a" 1)
             (Some (free "OneToOneModel2" "o" 2))
             (Some (free "OneToOneModel2" "b" 3))
             (Some (free "OneToOneModel1" "a2" 4)) two_pairs).
    + split; [reflexivity|]. split; [reflexivity|]. left. reflexivity.
    + vm_compute. reflexivity.
    + reflexivity.
    + vm_compute. reflexivity.
    + split; [|vm_compute; reflexivity].
      split; [reflexivity|]. split; [reflexivity|]. left. reflexivity.
    + split; [|vm_compute; reflexivity].
      split; [reflexivity|]. split; [reflexivity|]. left. reflexivity.
    + split; [|split; [vm_compute; reflexivity|discriminate]].
      split; [reflexivity|]. split; [reflexivity|]. left. reflexivity.
    + cbn. repeat constructor; rewrite ?not_elem_of_cons, ?elem_of_nil;
        intuition discriminate.
Defined.

End Orm.

(** * Further properties of the code

    The remaining operations of [repo.py] and of the model layer, with what
    their code guarantees. *)

(** Errors of configuration and of arguments, raised by the code below. *)
Inductive failure : Type :=
| ValueError (msg : string)
| ImproperlyConfigured (msg : string)
| MissingKey (key : string)
| MissingAttribute (name : string).

Inductive checked (A : Type) : Type :=
| Fine (a : A)
| Fails (e : failure).
Arguments Fine {A} a.
Arguments Fails {A} e.

(** ** [MysqlObjectStore]: looking objects up *)
Module Lookup.
Import ObjectStore.

(** [binascii.hexlify], which dulwich's [sha_to_hex] applies to the 20 bytes
    of a binary SHA. *)
Definition hex_digit (n : nat) : ascii :=
  nth n ["0"; "1"; "2"; "3"; "4"; "5"; "6"; "7"; "8"; "9";
         "a"; "b"; "c"; "d"; "e"; "f"]%char "0"%char.

Fixpoint hexlify (s : string) : string :=
  match s with
  | EmptyString => EmptyString
  | String c rest =>
      String (hex_digit (nat_of_ascii c / 16))
        (String (hex_digit (nat_of_ascii c mod 16)) (hexlify rest))
  end.

(** [dulwich.objects.sha_to_hex]; its assertion on the length cannot fail
    where [_to_hexsha] calls it. *)
Definition sha_to_hex (sha : string) : string := hexlify sha.

(** [_to_hexsha(sha)] *)
Definition _to_hexsha (sha : string) : checked string :=
  if bool_decide (String.length sha = 40) then Fine sha
  else if bool_decide (String.length sha = 20) then Fine (sha_to_hex sha)
  else Fails (ValueError ("Invalid sha " +:+ sha)).

Section Store.
Variable COMPRESS : string -> string.
Variable UNCOMPRESS : string -> string.

(** [contains_loose(sha)] and [contains_packed(sha)] *)
Definition contains_loose (self : MysqlObjectStore) (sha : string)
    (objs : list ObjRow) : checked bool :=
  match _to_hexsha sha with
  | Fine hexsha => Fine (_has_sha self hexsha objs)
  | Fails e => Fails e
  end.

Definition contains_packed (self : MysqlObjectStore) (sha : string) : bool := false.

(** [get_raw(name)]: statements["GET"] on [_to_hexsha(name)]; the row
    [(type, UNCOMPRESS(data))], or [None]. *)
Definition get_raw (self : MysqlObjectStore) (name : string) (objs : list ObjRow)
    : checked (option (nat * string)) :=
  match _to_hexsha name with
  | Fine hexsha =>
      Fine (match Sql.select_where objs_key (hexsha, _repo self) objs with
            | row :: _ => Some (row_type row, UNCOMPRESS (row_data row))
            | [] => None
            end)
  | Fails e => Fails e
  end.

(** statements["ALL"], behind [_all_shas] and [__iter__]. *)
Definition _all_shas (self : MysqlObjectStore) (objs : list ObjRow) : list string :=
  row_oid <$> filter (fun r => row_repo r = _repo self) objs.

Lemma length_hexlify s : String.length (hexlify s) = 2 * String.length s.
Proof. induction s as [|c s IH]; cbn; lia. Qed.

(** The value of a hexadecimal digit: with it the byte behind two digits of
    [hexlify] is found again, so [hexlify] loses nothing. *)
Definition hex_value (c : ascii) : nat :=
  match find (fun n => Ascii.eqb (hex_digit n) c) (seq 0 16) with
  | Some n => n
  | None => 0
  end.

Lemma hex_digits_byte (c : ascii) :
  ascii_of_nat (16 * hex_value (hex_digit (nat_of_ascii c / 16))
                + hex_value (hex_digit (nat_of_ascii c mod 16))) = c.
Proof. by destruct c as [[] [] [] [] [] [] [] []]. Qed.

Lemma hex_digits_inj (c c' : ascii) :
  hex_digit (nat_of_ascii c / 16) = hex_digit (nat_of_ascii c' / 16) ->
  hex_digit (nat_of_ascii c mod 16) = hex_digit (nat_of_ascii c' mod 16) ->
  c = c'.
Proof.
  intros Hhi Hlo.
  transitivity
    (ascii_of_nat (16 * hex_value (hex_digit (nat_of_ascii c / 16))
                   + hex_value (hex_digit (nat_of_ascii c mod 16)))).
  - symmetry. apply hex_digits_byte.
  - rewrite Hhi, Hlo. apply hex_digits_byte.
Qed.

Lemma hexlify_inj (s s' : string) : hexlify s = hexlify s' -> s = s'.
Proof.
  revert s'. induction s as [|c s IH]; intros [|c' s']; cbn [hexlify]; try done.
  intros Heq. injection Heq as Hhi Hlo Hrest.
  f_equal; [by apply hex_digits_inj|by apply IH].
Qed.

(** X1. [_to_hexsha] returns a SHA of 40 characters as it is, and a SHA of
    20 bytes as its 40 hexadecimal digits, two per byte, so that two
    different binary SHAs never get the same digits; it refuses every other
    length with [ValueError].  What it returns has 40 characters and is left
    as it is by a second call, so a binary SHA and its hexadecimal form name
    the same object for [contains_loose] and [get_raw]. *)
Theorem to_hexsha_normal_form (self : MysqlObjectStore) (sha : string)
    (objs : list ObjRow) :
  (String.length sha = 40 ->
     _to_hexsha sha = Fine sha /\
     contains_loose self sha objs = Fine (_has_sha self sha objs)) /\
  (String.length sha = 20 ->
     _to_hexsha sha = Fine (hexlify sha) /\
     contains_loose self sha objs = Fine (_has_sha self (hexlify sha) objs) /\
     forall sha', String.length sha' = 20 -> _to_hexsha sha' = _to_hexsha sha ->
                  sha' = sha) /\
  (forall hexsha, _to_hexsha sha = Fine hexsha ->
     String.length hexsha = 40 /\ _to_hexsha hexsha = Fine hexsha /\
     contains_loose self hexsha objs = contains_loose self sha objs /\
     get_raw self hexsha objs = get_raw self sha objs) /\
  (String.length sha <> 20 -> String.length sha <> 40 ->
   _to_hexsha sha = Fails (ValueError ("Invalid sha " +:+ sha)) /\
   contains_loose self sha objs = Fails (ValueError ("Invalid sha " +:+ sha)) /\
   get_raw self sha objs = Fails (ValueError ("Invalid sha " +:+ sha))).
Proof.
  assert (forall s, String.length s = 20 -> _to_hexsha s = Fine (hexlify s)) as H20.
  { intros s Hlen. unfold _to_hexsha, sha_to_hex. by rewrite Hlen. }
  split; [|split; [|split]].
  - intros Hlen. unfold contains_loose, _to_hexsha. by rewrite Hlen.
  - intros Hlen. split; [by apply H20|]. split.
    + unfold contains_loose. by rewrite (H20 sha Hlen).
    + intros sha' Hlen'. rewrite (H20 sha Hlen), (H20 sha' Hlen').
      intros [= Heq]. by apply hexlify_inj.
  - intros hexsha Hhex.
    assert (String.length hexsha = 40) as Hlen.
    { unfold _to_hexsha in Hhex. repeat case_bool_decide; simplify_eq; [done|].
      unfold sha_to_hex. rewrite length_hexlify. lia. }
    assert (_to_hexsha hexsha = Fine hexsha) as Hagain
      by (unfold _to_hexsha; by rewrite bool_decide_eq_true_2).
    unfold contains_loose, get_raw. by rewrite Hagain, Hhex.
  - intros Hne20 Hne40. unfold contains_loose, get_raw, _to_hexsha.
    by rewrite !bool_decide_eq_false_2.
Qed.

(** What [get_raw] finds for a hexadecimal id, before the call of
    [UNCOMPRESS]. *)
Definition first_row (self : MysqlObjectStore) (oid : string) (objs : list ObjRow)
    : option ObjRow :=
  head (Sql.select_where objs_key (oid, _repo self) objs).

Lemma get_raw_first_row self oid objs :
  String.length oid = 40 ->
  get_raw self oid objs
  = Fine ((fun row => (row_type row, UNCOMPRESS (row_data row)))
            <$> first_row self oid objs).
Proof.
  intros Hlen. unfold get_raw, first_row, _to_hexsha.
  rewrite bool_decide_eq_true_2 by done.
  by destruct (Sql.select_where objs_key (oid, _repo self) objs).
Qed.

(** X2. Insertion, then lookup: after [add_object(obj)] the store contains
    [obj.id]; [get_raw] returns the type and the raw data of [obj] when the
    id was not stored before, and what the store held before otherwise,
    since [INSERT IGNORE] keeps the first row. *)
Theorem add_object_then_get_raw (self : MysqlObjectStore) (obj : ShaFile)
    (objs : list ObjRow) :
  String.length (obj_id obj) = 40 ->
  (forall data, UNCOMPRESS (COMPRESS data) = data) ->
  let objs' := snd (add_object COMPRESS self obj objs) in
  contains_loose self (obj_id obj) objs' = Fine true /\
  get_raw self (obj_id obj) objs'
  = match get_raw self (obj_id obj) objs with
    | Fine None => Fine (Some (obj_type obj, obj_raw obj))
    | found => found
    end.
Proof.
  intros Hlen Hinverse objs'. split.
  - unfold contains_loose, _to_hexsha. rewrite bool_decide_eq_true_2 by done.
    f_equal.
    exact (Sql.insert_ignore_has_key objs_key
             {| row_oid := obj_id obj; row_type := obj_type obj;
                row_size := String.length (obj_raw obj);
                row_data := COMPRESS (obj_raw obj); row_repo := _repo self |} objs).
  - rewrite !get_raw_first_row by done. unfold first_row, objs'.
    unfold add_object, _add_object, ADD, Sql.insert_ignore. cbn [snd].
    set (row := {| row_oid := obj_id obj; row_type := obj_type obj;
                   row_size := String.length (obj_raw obj);
                   row_data := COMPRESS (obj_raw obj); row_repo := _repo self |}).
    change (obj_id obj, _repo self) with (objs_key row).
    destruct (Sql.has_key objs_key (objs_key row) objs) eqn:Hhas.
    + apply Sql.has_key_true in Hhas as (r & Hin & Hk).
      destruct (Sql.select_where objs_key (objs_key row) objs) as [|r' l] eqn:Hsel; [|done].
      assert (r ∈ Sql.select_where objs_key (objs_key row) objs) as Hr
        by (apply list_elem_of_filter; done).
      rewrite Hsel in Hr. by apply elem_of_nil in Hr.
    + apply Sql.has_key_false in Hhas. rewrite Sql.select_where_app, Hhas.
      unfold Sql.select_where at 1. rewrite filter_cons. case_decide; [|done].
      cbn. by rewrite Hinverse.
Qed.


Lemma select_where_insert_ignore_ne (k : string * string) (r : ObjRow) objs :
  k <> objs_key r ->
  Sql.select_where objs_key k (Sql.insert_ignore objs_key r objs)
  = Sql.select_where objs_key k objs.
Proof.
  intros Hne. unfold Sql.insert_ignore.
  destruct (Sql.has_key objs_key (objs_key r) objs); [done|].
  rewrite Sql.select_where_app. unfold Sql.select_where at 2.
  rewrite filter_cons. case_decide; [congruence|].
  by rewrite filter_nil, app_nil_r.
Qed.

Lemma has_key_insert_ignore_mono (k : string * string) (r : ObjRow) objs :
  Sql.has_key objs_key k objs = true ->
  Sql.has_key objs_key k (Sql.insert_ignore objs_key r objs) = true.
Proof.
  intros (r' & Hin & Hk)%Sql.has_key_true. apply Sql.has_key_true.
  exists r'. split; [|done].
  destruct (Sql.insert_ignore_prefix objs_key r objs) as [u ->].
  apply elem_of_app. by left.
Qed.

(** X3. [add_objects] stores every object of the list: each is contained
    afterwards, the rows stored before are kept in place (the table only
    grows at its end), the primary key stays unique, and the objects of the
    other repositories are what they were. *)
Theorem add_objects_contains (self : MysqlObjectStore)
    (objects : list (ShaFile * string)) (objs : list ObjRow) :
  let objs' := snd (add_objects COMPRESS self objects objs) in
  fst (add_objects COMPRESS self objects objs) = Return tt /\
  (exists added, objs' = objs ++ added) /\
  (forall o path, (o, path) ∈ objects -> _has_sha self (obj_id o) objs' = true) /\
  (forall oid, _has_sha self oid objs = true -> _has_sha self oid objs' = true) /\
  (forall other oid, _repo other <> _repo self ->
     Sql.select_where objs_key (oid, _repo other) objs'
     = Sql.select_where objs_key (oid, _repo other) objs) /\
  (Sql.pk_unique objs_key objs -> Sql.pk_unique objs_key objs').
Proof.
  cbn zeta. revert objs.
  induction objects as [|[o p] rest IH]; intros objs; cbn [add_objects fst snd].
  - repeat split; try done.
    + exists []. by rewrite app_nil_r.
    + intros o path Hin. by apply elem_of_nil in Hin.
  - unfold ADD.
    set (row := {| row_oid := obj_id o; row_type := obj_type o;
                   row_size := String.length (obj_raw o);
                   row_data := COMPRESS (obj_raw o); row_repo := _repo self |}).
    destruct (IH (Sql.insert_ignore objs_key row objs))
      as (Hret & [added Hadded] & Hin & Hmono & Hother & Hpk).
    split; [done|]. split; [|split; [|split; [|split]]].
    + destruct (Sql.insert_ignore_prefix objs_key row objs) as [u Hu].
      exists (u ++ added). by rewrite Hadded, Hu, app_assoc.
    + intros o' path [Heq|Hrest]%elem_of_cons.
      * simplify_eq. apply Hmono.
        exact (Sql.insert_ignore_has_key objs_key row objs).
      * by apply (Hin o' path).
    + intros oid Hhas. apply Hmono. by apply has_key_insert_ignore_mono.
    + intros other oid Hne. rewrite Hother by done.
      apply select_where_insert_ignore_ne. unfold objs_key, row. cbn. congruence.
    + intros Hu. apply Hpk. by apply Sql.insert_ignore_pk_unique.
Qed.

Lemma select_after_deletes (repo : string) (ids : list string)
    (k : string * string) (objs : list ObjRow) :
  Sql.select_where objs_key k (foldl (fun t oid => DEL oid repo t) objs ids)
  = if bool_decide (k ∈ (fun oid => (oid, repo)) <$> ids) then []
    else Sql.select_where objs_key k objs.
Proof.
  revert objs. induction ids as [|oid ids IH]; intros objs; cbn [foldl].
  - rewrite bool_decide_eq_false_2; [done|]. cbn. apply not_elem_of_nil.
  - rewrite IH, fmap_cons. unfold DEL.
    destruct (decide (k = (oid, repo))) as [->|Hne].
    + rewrite Sql.select_where_delete_eq.
      rewrite (bool_decide_eq_true_2 (_ ∈ _ :: _)) by left.
      by case_bool_decide.
    + rewrite Sql.select_where_delete_ne by done.
      case_bool_decide as Hin.
      * rewrite bool_decide_eq_true_2; [done|]. by right.
      * rewrite bool_decide_eq_false_2; [done|].
        by intros [?|?]%elem_of_cons.
Qed.

(** X4. [delete_objects] removes exactly the listed ids of its own
    repository: none of them is contained afterwards, and every other
    object, of this repository or of another, is found as before. *)
Theorem delete_objects_removes (self : MysqlObjectStore) (object_ids : list string)
    (objs : list ObjRow) :
  let objs' := snd (delete_objects self object_ids objs) in
  (forall oid, oid ∈ object_ids -> _has_sha self oid objs' = false) /\
  (forall other oid, _repo other <> _repo self \/ oid ∉ object_ids ->
     Sql.select_where objs_key (oid, _repo other) objs'
     = Sql.select_where objs_key (oid, _repo other) objs).
Proof.
  cbn zeta. unfold delete_objects. cbn [snd]. split.
  - intros oid Hin. unfold _has_sha, HAS. apply Sql.has_key_false.
    rewrite select_after_deletes, bool_decide_eq_true_2; [done|].
    apply list_elem_of_fmap. by exists oid.
  - intros other oid Hne. rewrite select_after_deletes.
    rewrite bool_decide_eq_false_2; [done|].
    intros (oid' & Heq & Hin)%list_elem_of_fmap. simplify_eq.
    destruct Hne as [Hne|Hne]; [by destruct Hne|done].
Qed.

End Store.

(** *** [MysqlRepo]: the repositories of the database *)

(** [repo_exists(name, connection)]: whether the table [objs] has a row of
    the repository. *)
Definition repo_exists (name : string) (objs : list ObjRow) : bool :=
  bool_decide (filter (fun r => row_repo r = name) objs <> []).

(** [list_repos(connection)]: [SELECT DISTINCT repo FROM objs]. *)
Definition list_repos (objs : list ObjRow) : list string :=
  remove_dups (row_repo <$> objs).

(** [delete_repo(name, connection)]: the rows of the repository leave both
    tables. *)
Definition delete_repo (name : string) (tables : list ObjRow * list Refs.RefRow)
    : list ObjRow * list Refs.RefRow :=
  (filter (fun r => row_repo r <> name) (fst tables),
   filter (fun r => Refs.row_repo r <> name) (snd tables)).

Lemma repo_exists_true name objs :
  repo_exists name objs = true <-> exists r, r ∈ objs /\ row_repo r = name.
Proof.
  unfold repo_exists. rewrite bool_decide_eq_true. split.
  - intros Hne. destruct (filter _ objs) as [|r l] eqn:E; [done|].
    exists r. apply and_comm, (list_elem_of_filter (fun r => row_repo r = name)).
    rewrite E. left.
  - intros (r & Hin & Hr) E.
    assert (r ∈ filter (fun r => row_repo r = name) objs) as Hf
      by (by apply list_elem_of_filter).
    rewrite E in Hf. by apply elem_of_nil in Hf.
Qed.

(** X5. A repository exists exactly when [list_repos] lists it, which is
    when it holds an object; [list_repos] names no repository twice, and
    storing one object in a repository makes it exist. *)
Theorem repo_exists_iff_listed (COMPRESS : string -> string) (name : string)
    (objs : list ObjRow) :
  (repo_exists name objs = true <-> name ∈ list_repos objs) /\
  (repo_exists name objs = true <->
   exists oid, _has_sha {| _repo := name |} oid objs = true) /\
  NoDup (list_repos objs) /\
  (forall obj,
     repo_exists name (snd (add_object COMPRESS {| _repo := name |} obj objs)) = true).
Proof.
  split; [|split; [|split]].
  - rewrite repo_exists_true. unfold list_repos.
    rewrite elem_of_remove_dups, list_elem_of_fmap. naive_solver.
  - rewrite repo_exists_true. split.
    + intros (r & Hin & Hr). exists (row_oid r). apply Sql.has_key_true.
      exists r. split; [done|]. unfold objs_key. cbn. by rewrite Hr.
    + intros (oid & (r & Hin & Hk)%Sql.has_key_true). exists r. split; [done|].
      unfold objs_key in Hk. cbn in Hk. congruence.
  - apply NoDup_remove_dups.
  - intros obj. apply repo_exists_true.
    pose proof (Sql.insert_ignore_has_key objs_key
                  {| row_oid := obj_id obj; row_type := obj_type obj;
                     row_size := String.length (obj_raw obj);
                     row_data := COMPRESS (obj_raw obj); row_repo := name |} objs)
      as (r & Hin & Hk)%Sql.has_key_true.
    exists r. split; [done|]. unfold objs_key in Hk. cbn in Hk. congruence.
Qed.

(** X6. [delete_repo] empties the repository and nothing else: afterwards
    the repository does not exist and is not listed, none of its objects
    or refs is found, and the objects and refs of every other repository
    are found as before. *)
Theorem delete_repo_isolated (name : string) (objs : list ObjRow)
    (refs : list Refs.RefRow) :
  let tables := delete_repo name (objs, refs) in
  repo_exists name (fst tables) = false /\
  (name ∉ list_repos (fst tables)) /\
  (forall oid, _has_sha {| _repo := name |} oid (fst tables) = false) /\
  (forall ref, Refs.read_loose_ref {| Refs._repo := name |} ref (snd tables) = None) /\
  (forall other oid, other <> name ->
     Sql.select_where objs_key (oid, other) (fst tables)
     = Sql.select_where objs_key (oid, other) objs) /\
  (forall other ref, other <> name ->
     Refs.read_loose_ref {| Refs._repo := other |} ref (snd tables)
     = Refs.read_loose_ref {| Refs._repo := other |} ref refs).
Proof.
  cbn zeta. unfold delete_repo. cbn [fst snd].
  assert (forall r, r ∈ filter (fun r => row_repo r <> name) objs -> row_repo r <> name)
    as Hobjs by (intros r Hin; by apply list_elem_of_filter in Hin as [? _]).
  assert (repo_exists name (filter (fun r => row_repo r <> name) objs) = false) as Hgone.
  { destruct (repo_exists name _) eqn:E; [|done].
    apply repo_exists_true in E as (r & Hin & Hr). by apply Hobjs in Hin. }
  split; [done|]. split; [|split; [|split; [|split]]].
  - unfold list_repos. rewrite elem_of_remove_dups, list_elem_of_fmap.
    intros (r & Hr & Hin). by apply Hobjs in Hin.
  - intros oid. destruct (_has_sha _ oid _) eqn:E; [|done].
    apply Sql.has_key_true in E as (r & Hin & Hk). apply Hobjs in Hin.
    unfold objs_key in Hk. cbn in Hk. congruence.
  - intros ref. unfold Refs.read_loose_ref, Sql.select_where. cbn [Refs._repo].
    destruct (filter (fun r => Refs.refs_key r = (ref, name)) _) as [|row l] eqn:E;
      [done|].
    assert (row ∈ filter (fun r => Refs.refs_key r = (ref, name))
                    (filter (fun r => Refs.row_repo r <> name) refs)) as Hin
      by (rewrite E; left).
    apply list_elem_of_filter in Hin as [Hk Hin].
    apply list_elem_of_filter in Hin as [Hne _].
    unfold Refs.refs_key in Hk. cbn in Hk. congruence.
  - intros other oid Hne. unfold Sql.select_where.
    rewrite list_filter_filter. apply list_filter_iff. intros r.
    unfold objs_key. cbn. naive_solver.
  - intros other ref Hne. unfold Refs.read_loose_ref, Sql.select_where.
    cbn [Refs._repo]. rewrite list_filter_filter.
    rewrite (list_filter_iff _ (fun r => Refs.refs_key r = (ref, other))); [done|].
    intros r. unfold Refs.refs_key. cbn. naive_solver.
Qed.

Lemma to_hexsha_normal_form_witness :
  _to_hexsha "ce013625030ba8dba906f756967f9e9ca394464a"
  = Fine "ce013625030ba8dba906f756967f9e9ca394464a" /\
  _to_hexsha "hello, binary sha 20" = Fine "68656c6c6f2c2062696e61727920736861203230"
  /\ _to_hexsha "abc" = Fails (ValueError "Invalid sha abc").
Proof.
  split; [|split].
  - exact (proj1 (proj1
      (to_hexsha_normal_form (fun s => s) {| _repo := "p" |}
         "ce013625030ba8dba906f756967f9e9ca394464a" []) eq_refl)).
  - exact (proj1 (proj1 (proj2
      (to_hexsha_normal_form (fun s => s) {| _repo := "p" |}
         "hello, binary sha 20" [])) eq_refl)).
  - apply (proj2 (proj2 (proj2
      (to_hexsha_normal_form (fun s => s) {| _repo := "p" |} "abc" []))));
      cbn; lia.
Defined.

Lemma add_object_then_get_raw_witness :
  get_raw (fun s => s) {| _repo := "p" |} "ce013625030ba8dba906f756967f9e9ca394464a"
    (snd (add_object (fun s => s) {| _repo := "p" |}
            {| obj_id := "ce013625030ba8dba906f756967f9e9ca394464a";
               obj_type := 3; obj_raw := "hello" |} []))
  = Fine (Some (3, "hello")).
Proof.
  exact (proj2 (add_object_then_get_raw (fun s => s) (fun s => s) {| _repo := "p" |}
    {| obj_id := "ce013625030ba8dba906f756967f9e9ca394464a";
       obj_type := 3; obj_raw := "hello" |} [] eq_refl (fun _ => eq_refl))).
Defined.

Lemma add_objects_contains_witness :
  _has_sha {| _repo := "p" |} "ce013625030ba8dba906f756967f9e9ca394464a"
    (snd (add_objects (fun s => s) {| _repo := "p" |}
            [({| obj_id := "ce013625030ba8dba906f756967f9e9ca394464a";
                 obj_type := 3; obj_raw := "hello" |}, "a.txt")] []))
  = true.
Proof.
  apply (proj1 (proj2 (proj2 (add_objects_contains (fun s => s) {| _repo := "p" |}
    [({| obj_id := "ce013625030ba8dba906f756967f9e9ca394464a";
         obj_type := 3; obj_raw := "hello" |}, "a.txt")] [])))
    {| obj_id := "ce013625030ba8dba906f756967f9e9ca394464a";
       obj_type := 3; obj_raw := "hello" |} "a.txt").
  left.
Defined.

Lemma delete_objects_removes_witness :
  _has_sha {| _repo := "p" |} "ce013625030ba8dba906f756967f9e9ca394464a"
    (snd (delete_objects {| _repo := "p" |}
            ["ce013625030ba8dba906f756967f9e9ca394464a"]
            [{| row_oid := "ce013625030ba8dba906f756967f9e9ca394464a";
                row_type := 3; row_size := 5; row_data := "hello";
                row_repo := "p" |}]))
  = false.
Proof.
  apply (proj1 (delete_objects_removes {| _repo := "p" |}
    ["ce013625030ba8dba906f756967f9e9ca394464a"]
    [{| row_oid := "ce013625030ba8dba906f756967f9e9ca394464a";
        row_type := 3; row_size := 5; row_data := "hello"; row_repo := "p" |}])).
  left.
Defined.

Lemma repo_exists_iff_listed_witness :
  repo_exists "p"
    [{| row_oid := "ce013625030ba8dba906f756967f9e9ca394464a";
        row_type := 3; row_size := 5; row_data := "hello"; row_repo := "p" |}]
  = true.
Proof.
  apply (proj1 (repo_exists_iff_listed (fun s => s) "p" _)). left.
Defined.

Lemma delete_repo_isolated_witness :
  Refs.read_loose_ref {| Refs._repo := "q" |} "HEAD"
    (snd (delete_repo "p"
            ([], [{| Refs.row_ref := "HEAD";
                     Refs.row_value := "ref: refs/heads/master";
                     Refs.row_repo := "q" |}])))
  = Some "ref: refs/heads/master".
Proof.
  rewrite (proj2 (proj2 (proj2 (proj2 (proj2
    (delete_repo_isolated "p" [] [{| Refs.row_ref := "HEAD";
       Refs.row_value := "ref: refs/heads/master"; Refs.row_repo := "q" |}])))))
    "q" "HEAD"); [reflexivity|discriminate].
Defined.
End Lookup.

(** ** [MysqlRefsContainer]: the other operations on refs *)
Module RefsOps.
Import Refs Dulwich.

(** [allkeys()]: statements["ALL"]. *)
Definition allkeys (self : MysqlRefsContainer) (refs : list RefRow) : list string :=
  row_ref <$> filter (fun r => row_repo r = _repo self) refs.

(** The column [value] of the table [refs] is [binary(40)] ([_init_db]): a
    value of fewer than 40 bytes is held, and read back, with bytes 0x00
    added on its right up to 40 bytes; a SHA, of 40 characters, is held as it
    is.  What the server does with a longer value depends on its SQL mode
    (the statement is refused, or the value is cut), and is left out. *)
Fixpoint zeros (n : nat) : string :=
  match n with
  | O => EmptyString
  | S n' => String Ascii.zero (zeros n')
  end.

Definition binary40 (value : string) : option string :=
  if bool_decide (String.length value <= 40)
  then Some (value +:+ zeros (40 - String.length value))
  else None.

(** [set_symbolic_ref(name, other)]: [_update_ref(name, SYMREF + other)],
    with the value as the column holds it. *)
Definition set_symbolic_ref (self : MysqlRefsContainer) (name other : string)
    (refs : list RefRow) : option (list RefRow) :=
  match binary40 (SYMREF +:+ other) with
  | Some held => Some (_update_ref self name held refs)
  | None => None
  end.

(** What is read back behind [SYMREF] from a symbolic ref set to [other]. *)
Definition held_target (other : string) : string :=
  other +:+ zeros (35 - String.length other).

(** Every character of the string is allowed in the name of a ref. *)
Definition clean (s : string) : bool :=
  forallb_string (fun c => negb (bad_ref_char c)) s.

(** The truth value of what [read_loose_ref] returns: [None] and the empty
    string are false. *)
Definition truthy_ref (contents : option string) : bool :=
  match contents with
  | Some value => negb (bool_decide (value = ""))
  | None => false
  end.

(** [add_if_new(name, ref)] *)
Definition add_if_new (self : MysqlRefsContainer) (name ref : string)
    (refs : list RefRow) : bool * list RefRow :=
  if truthy_ref (read_loose_ref self name refs) then (false, refs)
  else (true, _update_ref self name ref refs).

(** [_remove_ref(cursor, name)]: statements["DEL"]. *)
Definition _remove_ref (self : MysqlRefsContainer) (name : string)
    (refs : list RefRow) : list RefRow :=
  Sql.delete_where refs_key (name, _repo self) refs.

(** [remove_if_equals(name, old_ref)] *)
Definition remove_if_equals (self : MysqlRefsContainer) (name : string)
    (old_ref : option string) (refs : list RefRow) : bool * list RefRow :=
  let stale :=
    match old_ref with
    | Some old => ref_ne old (read_loose_ref self name refs)
    | None => false
    end in
  if stale then (false, refs) else (true, _remove_ref self name refs).

Lemma read_after_update_other self other name n value refs :
  (n, _repo other) <> (name, _repo self) ->
  read_loose_ref other n (_update_ref self name value refs)
  = read_loose_ref other n refs.
Proof.
  intros Hne. unfold read_loose_ref, _update_ref.
  by rewrite Sql.select_where_replace_ne.
Qed.

Lemma read_after_remove self name refs :
  read_loose_ref self name (_remove_ref self name refs) = None.
Proof.
  unfold read_loose_ref, _remove_ref. by rewrite Sql.select_where_delete_eq.
Qed.

Lemma read_after_remove_other self other name n refs :
  (n, _repo other) <> (name, _repo self) ->
  read_loose_ref other n (_remove_ref self name refs) = read_loose_ref other n refs.
Proof.
  intros Hne. unfold read_loose_ref, _remove_ref.
  by rewrite Sql.select_where_delete_ne.
Qed.

Lemma allkeys_read self name refs :
  name ∈ allkeys self refs <-> is_Some (read_loose_ref self name refs).
Proof.
  unfold allkeys, read_loose_ref, Sql.select_where.
  rewrite list_elem_of_fmap. split.
  - intros (r & -> & [Hrepo Hin]%list_elem_of_filter).
    assert (r ∈ filter (fun r' => refs_key r' = (row_ref r, _repo self)) refs) as Hr.
    { apply list_elem_of_filter. split; [|done]. unfold refs_key. by rewrite Hrepo. }
    destruct (filter _ refs); [by apply elem_of_nil in Hr|by eexists].
  - intros Hsome.
    destruct (filter (fun r => refs_key r = (name, _repo self)) refs) as [|r l] eqn:E;
      [by destruct Hsome|].
    assert (r ∈ filter (fun r => refs_key r = (name, _repo self)) refs) as Hr
      by (rewrite E; left).
    apply list_elem_of_filter in Hr as [Hk Hin]. unfold refs_key in Hk.
    exists r. split; [congruence|]. apply list_elem_of_filter. split; [congruence|done].
Qed.

(** X7. [add_if_new] never replaces a ref that has a value: it returns
    [False] and leaves the table as it is.  When the ref is missing (or its
    value is empty) it stores the value, returns [True], and the ref then
    reads as that value; no other ref, of this or another repository,
    changes. *)
Theorem add_if_new_keeps_existing (self : MysqlRefsContainer) (name ref : string)
    (refs : list RefRow) :
  (forall value, read_loose_ref self name refs = Some value -> value <> "" ->
     add_if_new self name ref refs = (false, refs)) /\
  (read_loose_ref self name refs = None \/ read_loose_ref self name refs = Some "" ->
     fst (add_if_new self name ref refs) = true /\
     read_loose_ref self name (snd (add_if_new self name ref refs)) = Some ref /\
     name ∈ allkeys self (snd (add_if_new self name ref refs))) /\
  (forall other n, (n, _repo other) <> (name, _repo self) ->
     read_loose_ref other n (snd (add_if_new self name ref refs))
     = read_loose_ref other n refs).
Proof.
  unfold add_if_new. split; [|split].
  - intros value -> Hne. cbn. by rewrite bool_decide_eq_false_2.
  - intros Hnew.
    assert (truthy_ref (read_loose_ref self name refs) = false) as ->
      by (by destruct Hnew as [-> | ->]).
    cbn [fst snd]. split; [done|]. split; [apply read_after_update|].
    apply allkeys_read. rewrite read_after_update. by eexists.
  - intros other n Hne. destruct (truthy_ref _); cbn [snd]; [done|].
    by apply read_after_update_other.
Qed.

(** X8. [remove_if_equals] with an expected value that the ref does not hold
    returns [False] and removes nothing.  Otherwise (always when no value
    is expected) it returns [True], the ref is gone from [read_loose_ref]
    and from [allkeys], and no other ref changes; the name is neither
    resolved nor checked, so a symbolic ref is removed itself, not its
    target. *)
Theorem remove_if_equals_spec (self : MysqlRefsContainer) (name : string)
    (old_ref : option string) (refs : list RefRow) :
  (forall old, old_ref = Some old -> read_loose_ref self name refs <> Some old ->
     remove_if_equals self name old_ref refs = (false, refs)) /\
  (old_ref = None \/ read_loose_ref self name refs = old_ref ->
     fst (remove_if_equals self name old_ref refs) = true /\
     read_loose_ref self name (snd (remove_if_equals self name old_ref refs)) = None /\
     (name ∉ allkeys self (snd (remove_if_equals self name old_ref refs))) /\
     forall other n, (n, _repo other) <> (name, _repo self) ->
       read_loose_ref other n (snd (remove_if_equals self name old_ref refs))
       = read_loose_ref other n refs).
Proof.
  unfold remove_if_equals, ref_ne. split.
  - intros old -> Hne. by rewrite bool_decide_eq_false_2.
  - intros Hok.
    assert (match old_ref with
            | Some old => negb (bool_decide (read_loose_ref self name refs = Some old))
            | None => false
            end = false) as ->.
    { destruct old_ref as [old|]; [|done].
      destruct Hok as [?|Hcur]; [done|]. by rewrite bool_decide_eq_true_2. }
    cbn [fst snd]. split; [done|]. split; [apply read_after_remove|]. split.
    + rewrite allkeys_read, read_after_remove. by intros [? ?].
    + intros other n Hne. by apply read_after_remove_other.
Qed.

Lemma substring_whole (s : string) : String.substring 0 (String.length s) s = s.
Proof. induction s as [|c s IH]; [done|]. cbn. by rewrite IH. Qed.

(** What [_follow] does with the contents [SYMREF + other]: they are not
    empty, they start with [SYMREF], and the name behind it is [other]. *)
Lemma symref_contents (other : string) :
  bool_decide (SYMREF +:+ other = "") = false /\
  startswith (SYMREF +:+ other) SYMREF = true /\
  String.substring 5 (String.length (SYMREF +:+ other) - 5) (SYMREF +:+ other) = other.
Proof.
  change (SYMREF +:+ other)
    with (String "r" (String "e" (String "f" (String ":" (String " " other))))).
  split; [done|]. split.
  - unfold startswith, SYMREF. cbn. by destruct other.
  - cbn. rewrite Nat.sub_0_r. apply substring_whole.
Qed.

Lemma follow_from_symbolic hops self name refname other refs :
  read_ref self refname refs = Some (SYMREF +:+ other) ->
  follow_from (S hops) self name refname refs = follow_from hops self name other refs.
Proof.
  intros Hread. cbn [follow_from]. rewrite Hread.
  destruct (symref_contents other) as (_ & -> & ->). done.
Qed.

Lemma length_append (s t : string) :
  String.length (s +:+ t) = String.length s + String.length t.
Proof.
  induction s as [|c s IH]; [done|].
  change (String c s +:+ t) with (String c (s +:+ t)). cbn [String.length].
  by rewrite IH.
Qed.

Lemma length_zeros (n : nat) : String.length (zeros n) = n.
Proof. induction n as [|n IH]; [done|]. cbn. by rewrite IH. Qed.

Lemma append_empty (s : string) : s +:+ "" = s.
Proof.
  induction s as [|c s IH]; [done|].
  change (String c s +:+ "") with (String c (s +:+ "")). by rewrite IH.
Qed.

Lemma held_target_full (other : string) :
  String.length other = 35 -> held_target other = other.
Proof. intros Hlen. unfold held_target. rewrite Hlen. apply append_empty. Qed.

Lemma binary40_symref (other : string) :
  String.length other <= 35 ->
  binary40 (SYMREF +:+ other) = Some (SYMREF +:+ held_target other).
Proof.
  intros Hlen. unfold binary40, held_target.
  rewrite length_append. change (String.length SYMREF) with 5.
  rewrite bool_decide_eq_true_2 by lia.
  replace (40 - (5 + String.length other)) with (35 - String.length other) by lia.
  reflexivity.
Qed.

Lemma clean_append (s t : string) : clean (s +:+ t) = clean s && clean t.
Proof.
  unfold clean. induction s as [|c s IH]; [done|].
  change (String c s +:+ t) with (String c (s +:+ t)).
  cbn [forallb_string]. by rewrite IH, andb_assoc.
Qed.

Lemma held_target_not_clean (other : string) :
  String.length other < 35 -> clean (held_target other) = false.
Proof.
  intros Hlen. unfold held_target. rewrite clean_append.
  destruct (35 - String.length other) as [|n] eqn:E; [lia|].
  apply andb_false_r.
Qed.

Lemma check_ref_format_not_clean (refname : string) :
  clean refname = false -> check_ref_format refname = false.
Proof.
  intros Hclean. unfold check_ref_format.
  destruct (_ || _); [done|]. destruct (negb (contains "/" refname)); [done|].
  destruct (contains ".." refname); [done|].
  fold (clean refname). by rewrite Hclean.
Qed.

Lemma check_refname_not_clean (name : string) :
  clean name = false -> _check_refname name = Raise (RefFormatError name).
Proof.
  intros Hclean. unfold _check_refname.
  rewrite (bool_decide_eq_false_2 (name = "HEAD")) by (by intros ->).
  rewrite (bool_decide_eq_false_2 (name = "refs/stash")) by (by intros ->).
  cbn [orb].
  destruct (startswith name "refs/") eqn:Hprefix; [|done]. cbn [negb orb].
  unfold startswith in Hprefix.
  destruct name as [|c1 [|c2 [|c3 [|c4 [|c5 rest]]]]]; try done.
  cbn [String.prefix] in Hprefix.
  repeat match type of Hprefix with
         | match ascii_dec ?a ?b with left _ => _ | right _ => _ end = true =>
             destruct (ascii_dec a b) as [<-|]; [|done]
         end.
  change (clean rest = false) in Hclean.
  cbn [String.length Nat.sub String.substring].
  rewrite Nat.sub_0_r, substring_whole.
  by rewrite check_ref_format_not_clean.
Qed.

Lemma read_symbolic self name other refs refs1 :
  String.length other <= 35 ->
  set_symbolic_ref self name other refs = Some refs1 ->
  refs1 = _update_ref self name (SYMREF +:+ held_target other) refs /\
  read_ref self name refs1 = Some (SYMREF +:+ held_target other).
Proof.
  intros Hlen. unfold set_symbolic_ref. rewrite binary40_symref by done.
  intros [= <-]. split; [done|].
  unfold read_ref. rewrite read_after_update.
  by rewrite (proj1 (symref_contents (held_target other))).
Qed.

(** X9. A write through a symbolic ref reaches its target only when the
    target fills the column.  [set_symbolic_ref(name, target)] stores
    ['ref: ' + target], which the column [value binary(40)] holds and
    returns padded with bytes 0x00; [name] reads back as that.  When
    [target] has exactly 35 characters nothing is added, and
    [set_if_equals(name, None, sha)], for a SHA of 40 characters, returns
    [True], stores [sha] under [target] and leaves [name] the symbolic ref it
    was.  When [target] is
    shorter, [_follow] resolves [name] to the padded name, which
    [_check_refname] refuses: [set_if_equals] raises [RefFormatError] and
    writes nothing. *)
Theorem write_through_symbolic_ref (self : MysqlRefsContainer)
    (name target sha : string) (refs : list RefRow) :
  String.length target <= 35 ->
  name <> held_target target ->
  match read_ref self (held_target target) refs with
  | Some contents => startswith contents SYMREF = false
  | None => True
  end ->
  exists refs1,
    set_symbolic_ref self name target refs = Some refs1 /\
    read_loose_ref self name refs1 = Some (SYMREF +:+ held_target target) /\
    (String.length target = 35 -> _check_refname target = Return tt ->
     String.length sha = 40 ->
     let outcome := set_if_equals self name None sha refs1 in
     fst outcome = Return true /\
     read_loose_ref self target (snd outcome) = Some sha /\
     read_loose_ref self name (snd outcome) = Some (SYMREF +:+ target)) /\
    (String.length target < 35 ->
     set_if_equals self name None sha refs1
     = (Raise (RefFormatError (held_target target)), refs1)).
Proof.
  intros Hlen Hne Htarget.
  destruct (set_symbolic_ref self name target refs) as [refs1|] eqn:Hset;
    [|unfold set_symbolic_ref in Hset; by rewrite binary40_symref in Hset].
  destruct (read_symbolic _ _ _ _ _ Hlen Hset) as [Hrefs1 Hread].
  exists refs1. split; [done|].
  assert (read_loose_ref self name refs1 = Some (SYMREF +:+ held_target target))
    as Hname by (rewrite Hrefs1; apply read_after_update).
  split; [done|].
  assert (read_ref self (held_target target) refs1
          = read_ref self (held_target target) refs) as Hsame.
  { unfold read_ref. rewrite Hrefs1, read_after_update_other; [done|]. congruence. }
  assert (exists contents,
            _follow self name refs1 = Return (held_target target, contents))
    as [contents Hfollow].
  { unfold _follow.
    rewrite (follow_from_symbolic 4 self name name (held_target target) refs1)
      by done.
    cbn [follow_from]. rewrite Hsame.
    destruct (read_ref self (held_target target) refs) as [c|]; [|by eexists].
    rewrite Htarget. by eexists. }
  split.
  - intros Hfull Hcheck Hsha outcome. rewrite (held_target_full _ Hfull) in *.
    assert (outcome = (Return true, _update_ref self target sha refs1)) as ->.
    { unfold outcome, set_if_equals, Refs.set_if_equals. cbn zeta.
      by rewrite Hfollow, Hcheck. }
    cbn [fst snd]. split; [done|]. split; [apply read_after_update|].
    rewrite read_after_update_other by congruence. done.
  - intros Hshort. unfold set_if_equals, Refs.set_if_equals. cbn zeta.
    rewrite Hfollow.
    by rewrite (check_refname_not_clean _ (held_target_not_clean _ Hshort)).
Qed.

(** X10. A symbolic ref that names itself.  When the name has exactly 35
    characters the ref reads back as itself: [_follow] gives up after five
    hops with [KeyError], and [set_if_equals] raises it and writes nothing.
    When the name is shorter the value reads back padded with bytes 0x00 and
    names another, padded, ref: with no ref stored under that name [_follow]
    stops there, and [set_if_equals] raises [RefFormatError] and writes
    nothing. *)
Theorem symbolic_loop_raises (self : MysqlRefsContainer) (name sha : string)
    (refs : list RefRow) :
  String.length name <= 35 ->
  exists refs1,
    set_symbolic_ref self name name refs = Some refs1 /\
    (String.length name = 35 ->
     _follow self name refs1 = Raise (KeyError name) /\
     set_if_equals self name None sha refs1 = (Raise (KeyError name), refs1)) /\
    (String.length name < 35 ->
     read_loose_ref self (held_target name) refs = None ->
     _follow self name refs1 = Return (held_target name, None) /\
     set_if_equals self name None sha refs1
     = (Raise (RefFormatError (held_target name)), refs1)).
Proof.
  intros Hlen.
  destruct (set_symbolic_ref self name name refs) as [refs1|] eqn:Hset;
    [|unfold set_symbolic_ref in Hset; by rewrite binary40_symref in Hset].
  destruct (read_symbolic _ _ _ _ _ Hlen Hset) as [Hrefs1 Hread].
  exists refs1. split; [done|]. split.
  - intros Hfull. rewrite (held_target_full _ Hfull) in Hread.
    assert (_follow self name refs1 = Raise (KeyError name)) as Hfollow.
    { unfold _follow.
      do 5 (rewrite (follow_from_symbolic _ self name name name refs1) by done).
      cbn [follow_from]. by rewrite Hread. }
    split; [done|].
    unfold set_if_equals, Refs.set_if_equals. cbn zeta. by rewrite Hfollow.
  - intros Hshort Hfree.
    assert (name <> held_target name) as Hne.
    { intros Heq. apply (f_equal String.length) in Heq.
      unfold held_target in Heq. rewrite length_append, length_zeros in Heq. lia. }
    assert (_follow self name refs1 = Return (held_target name, None)) as Hfollow.
    { unfold _follow.
      rewrite (follow_from_symbolic 4 self name name (held_target name) refs1)
        by done.
      cbn [follow_from]. unfold read_ref.
      rewrite Hrefs1, read_after_update_other by congruence. by rewrite Hfree. }
    split; [done|].
    unfold set_if_equals, Refs.set_if_equals. cbn zeta. rewrite Hfollow.
    by rewrite (check_refname_not_clean _ (held_target_not_clean _ Hshort)).
Qed.

Lemma add_if_new_keeps_existing_witness :
  add_if_new {| _repo := "p" |} "refs/heads/master"
    "ce013625030ba8dba906f756967f9e9ca394464a"
    [{| row_ref := "refs/heads/master";
        row_value := "0000000000000000000000000000000000000001";
        row_repo := "p" |}]
  = (false,
     [{| row_ref := "refs/heads/master";
         row_value := "0000000000000000000000000000000000000001";
         row_repo := "p" |}]).
Proof.
  apply (proj1 (add_if_new_keeps_existing {| _repo := "p" |} "refs/heads/master"
    "ce013625030ba8dba906f756967f9e9ca394464a" _)
    "0000000000000000000000000000000000000001"); [reflexivity|discriminate].
Defined.

Lemma remove_if_equals_spec_witness :
  read_loose_ref {| _repo := "p" |} "HEAD"
    (snd (remove_if_equals {| _repo := "p" |} "HEAD" None
            [{| row_ref := "HEAD"; row_value := "ref: refs/heads/master";
                row_repo := "p" |}]))
  = None.
Proof.
  apply (proj2 (remove_if_equals_spec {| _repo := "p" |} "HEAD" None
    [{| row_ref := "HEAD"; row_value := "ref: refs/heads/master";
        row_repo := "p" |}])).
  by left.
Defined.

Lemma write_through_symbolic_ref_witness :
  set_if_equals {| _repo := "p" |} "HEAD" None
    "ce013625030ba8dba906f756967f9e9ca394464a"
    (_update_ref {| _repo := "p" |} "HEAD"
       (SYMREF +:+ held_target "refs/heads/master") [])
  = (Raise (RefFormatError (held_target "refs/heads/master")),
     _update_ref {| _repo := "p" |} "HEAD"
       (SYMREF +:+ held_target "refs/heads/master") []) /\
  read_loose_ref {| _repo := "p" |} "refs/heads/feature-with-a-long-name"
    (snd (set_if_equals {| _repo := "p" |} "HEAD" None
            "ce013625030ba8dba906f756967f9e9ca394464a"
            (_update_ref {| _repo := "p" |} "HEAD"
               (SYMREF +:+ "refs/heads/feature-with-a-long-name") [])))
  = Some "ce013625030ba8dba906f756967f9e9ca394464a".
Proof.
  split.
  - destruct (write_through_symbolic_ref {| _repo := "p" |} "HEAD"
                "refs/heads/master" "ce013625030ba8dba906f756967f9e9ca394464a" [])
      as (refs1 & [= <-] & _ & _ & Hshort);
      [cbn; lia|discriminate|exact I|].
    apply Hshort. cbn. lia.
  - destruct (write_through_symbolic_ref {| _repo := "p" |} "HEAD"
                "refs/heads/feature-with-a-long-name"
                "ce013625030ba8dba906f756967f9e9ca394464a" [])
      as (refs1 & [= <-] & _ & Hfull & _);
      [cbn; lia|discriminate|exact I|].
    apply Hfull; reflexivity.
Defined.

Lemma symbolic_loop_raises_witness :
  set_if_equals {| _repo := "p" |} "refs/heads/feature-with-a-long-name" None
    "ce013625030ba8dba906f756967f9e9ca394464a"
    (_update_ref {| _repo := "p" |} "refs/heads/feature-with-a-long-name"
       (SYMREF +:+ "refs/heads/feature-with-a-long-name") [])
  = (Raise (KeyError "refs/heads/feature-with-a-long-name"),
     _update_ref {| _repo := "p" |} "refs/heads/feature-with-a-long-name"
       (SYMREF +:+ "refs/heads/feature-with-a-long-name") []) /\
  set_if_equals {| _repo := "p" |} "refs/heads/master" None
    "ce013625030ba8dba906f756967f9e9ca394464a"
    (_update_ref {| _repo := "p" |} "refs/heads/master"
       (SYMREF +:+ held_target "refs/heads/master") [])
  = (Raise (RefFormatError (held_target "refs/heads/master")),
     _update_ref {| _repo := "p" |} "refs/heads/master"
       (SYMREF +:+ held_target "refs/heads/master") []).
Proof.
  split.
  - destruct (symbolic_loop_raises {| _repo := "p" |}
                "refs/heads/feature-with-a-long-name"
                "ce013625030ba8dba906f756967f9e9ca394464a" [])
      as (refs1 & [= <-] & Hfull & _); [cbn; lia|].
    apply Hfull. reflexivity.
  - destruct (symbolic_loop_raises {| _repo := "p" |} "refs/heads/master"
                "ce013625030ba8dba906f756967f9e9ca394464a" [])
      as (refs1 & [= <-] & _ & Hshort); [cbn; lia|].
    apply Hshort; [cbn; lia|reflexivity].
Defined.
End RefsOps.

(** ** [_complete_thin_pack]: errors, and an instance of the layout *)
Module PackLayout.
Import ObjectStore ThinPack.

Section Missing.
Variable pack_header : nat -> list Byte.byte.
Variable pack_object : nat -> string -> list Byte.byte.
Variable sha1 : list Byte.byte -> list Byte.byte.
Variable UNCOMPRESS : string -> string.

Lemma append_ext_refs_missing self ext_refs objs hashed f :
  Exists (fun sha => get_raw UNCOMPRESS self sha objs = None) ext_refs ->
  append_ext_refs pack_object UNCOMPRESS self ext_refs objs hashed f
  = Raise (TypeError "'NoneType' object is not iterable").
Proof.
  intros Hex. revert hashed f.
  induction ext_refs as [|sha rest IH]; intros hashed f; [by inversion Hex|].
  cbn [append_ext_refs].
  destruct (get_raw UNCOMPRESS self sha objs) as [[t d]|] eqn:Hsha; [|done].
  apply IH. inversion Hex as [? ? Hnone|]; [congruence|done].
Qed.

(** X12. [_complete_thin_pack] has no answer for a pack that refers to an
    object the store does not hold: [get_raw] returns [None] for it, the
    unpacking of that result raises [TypeError], and no completed buffer is
    returned, whatever the other references are. *)
Theorem complete_thin_pack_missing_object (self : MysqlObjectStore) (entries : nat)
    (ext_refs : list string) (objs : list ObjRow) (f : File) :
  20 <= length (contents (write (pack_header (entries + length ext_refs)) (seek 0 f))) ->
  Exists (fun sha => get_raw UNCOMPRESS self sha objs = None) ext_refs ->
  _complete_thin_pack pack_header pack_object sha1 UNCOMPRESS self entries ext_refs
    objs f
  = Raise (TypeError "'NoneType' object is not iterable").
Proof.
  intros Hlen Hex. unfold _complete_thin_pack, compute_file_sha.
  destruct (Nat.ltb_spec
              (length (contents (write (pack_header (entries + length ext_refs))
                                   (seek 0 f)))) 20) as [Hlt|_]; [lia|].
  by rewrite append_ext_refs_missing.
Qed.
End Missing.

(** A header of twelve bytes and a digest of twenty, to instantiate the
    layout with. *)
Definition header_of (n : nat) : list Byte.byte :=
  [Byte.x50; Byte.x41; Byte.x43; Byte.x4b; Byte.x00; Byte.x00; Byte.x00; Byte.x02;
   Byte.x00; Byte.x00; Byte.x00;
   default Byte.x00 (Byte.of_nat n)].

Definition zero_digest (bytes : list Byte.byte) : list Byte.byte :=
  replicate 20 Byte.x00.

Definition raw_entry (type_num : nat) (data : string) : list Byte.byte :=
  default Byte.x00 (Byte.of_nat type_num) :: list_byte_of_string data.

Definition blob_row : ObjRow :=
  {| row_oid := "ce013625030ba8dba906f756967f9e9ca394464a"; row_type := 3;
     row_size := 5; row_data := "hello"; row_repo := "p" |}.

Lemma complete_thin_pack_layout_witness :
  contents <$> match _complete_thin_pack header_of raw_entry zero_digest (fun s => s)
                       {| _repo := "p" |} 1
                       ["ce013625030ba8dba906f756967f9e9ca394464a"] [blob_row]
                       {| contents := header_of 1 ++ [Byte.x2a] ++ replicate 20 Byte.xff;
                          position := 33 |} with
               | Return f => Some f
               | Raise _ => None
               end
  = Some ((header_of 2 ++ [Byte.x2a] ++ raw_entry 3 "hello")
          ++ zero_digest (header_of 2 ++ [Byte.x2a] ++ raw_entry 3 "hello")).
Proof.
  apply (complete_thin_pack_layout header_of raw_entry zero_digest (fun s => s)
           {| _repo := "p" |} 1 ["ce013625030ba8dba906f756967f9e9ca394464a"]
           [blob_row] (header_of 1) [Byte.x2a] (replicate 20 Byte.xff)).
  - reflexivity.
  - reflexivity.
  - reflexivity.
  - constructor; [|constructor]. vm_compute. by eexists.
Defined.

Lemma complete_thin_pack_missing_object_witness :
  _complete_thin_pack header_of raw_entry zero_digest (fun s => s)
    {| _repo := "p" |} 1 ["ce013625030ba8dba906f756967f9e9ca394464a"] []
    {| contents := header_of 1 ++ [Byte.x2a] ++ replicate 20 Byte.xff;
       position := 33 |}
  = Raise (TypeError "'NoneType' object is not iterable").
Proof.
  apply complete_thin_pack_missing_object.
  - vm_compute. lia.
  - left. reflexivity.
Defined.
End PackLayout.

(** ** Documents: [schemas.py] and the processors of [models.py] *)
Module Documents.
Import Orm.

(** *** [OrderedDict] lookups *)

Lemma od_get_cons k k' v d :
  od_get k ((k', v) :: d) = if bool_decide (k' = k) then Some v else od_get k d.
Proof.
  unfold od_get. cbn. case_decide as Hk; cbn.
  - by rewrite bool_decide_eq_true_2.
  - rewrite bool_decide_eq_false_2 by done.
    by destruct (list_find (fun kv => kv.1 = k) d) as [[i kv]|].
Qed.

Lemma od_get_app k d d' :
  od_get k (d ++ d')
  = match od_get k d with
    | Some v => Some v
    | None => od_get k d'
    end.
Proof.
  induction d as [|[k' v] d IH]; [done|].
  rewrite <- app_comm_cons, !od_get_cons. by case_bool_decide.
Qed.

Lemma od_get_None k d : od_get k d = None <-> k ∉ d.*1.
Proof.
  induction d as [|[k' v] d IH].
  - split; [intros _; apply not_elem_of_nil|done].
  - rewrite od_get_cons, fmap_cons, not_elem_of_cons. cbn.
    case_bool_decide; naive_solver.
Qed.

Lemma od_get_del k k' d :
  od_get k (od_del k' d) = if bool_decide (k = k') then None else od_get k d.
Proof.
  unfold od_del. induction d as [|[k0 v] d IH].
  - by case_bool_decide.
  - destruct (decide (k0 = k')) as [->|Hk0].
    + rewrite filter_cons_False by (cbn; tauto).
      rewrite od_get_cons, IH. repeat case_bool_decide; congruence.
    + rewrite filter_cons_True by done.
      rewrite !od_get_cons, IH. repeat case_bool_decide; congruence.
Qed.

Lemma od_get_replace_ne k k' v d :
  k <> k' ->
  od_get k ((fun kv : string * json => if bool_decide (kv.1 = k') then (k', v) else kv)
              <$> d)
  = od_get k d.
Proof.
  intros Hne. induction d as [|[k0 v0] d IH]; [done|].
  rewrite fmap_cons. cbn [fst]. destruct (decide (k0 = k')) as [->|Hk0].
  - rewrite (bool_decide_eq_true_2 (k' = k')) by done.
    rewrite !od_get_cons, IH. by rewrite bool_decide_eq_false_2.
  - rewrite (bool_decide_eq_false_2 (k0 = k')) by done.
    by rewrite !od_get_cons, IH.
Qed.

Lemma od_get_set k k' v d :
  od_get k (od_set k' v d) = if bool_decide (k = k') then Some v else od_get k d.
Proof.
  unfold od_set. destruct (decide (k = k')) as [->|Hne].
  - rewrite (bool_decide_eq_true_2 (k' = k')) by done.
    case_bool_decide as Hsome.
    + induction d as [|[k0 v0] d IH]; [by destruct Hsome|].
      rewrite fmap_cons. cbn [fst]. rewrite od_get_cons in Hsome.
      destruct (decide (k0 = k')) as [->|Hk0].
      * rewrite (bool_decide_eq_true_2 (k' = k')) by done.
        rewrite od_get_cons. by rewrite bool_decide_eq_true_2.
      * rewrite (bool_decide_eq_false_2 (k0 = k')) in Hsome |- * by done.
        rewrite od_get_cons, bool_decide_eq_false_2 by done. by apply IH.
    + rewrite od_get_app, od_get_cons, bool_decide_eq_true_2 by done.
      by destruct (od_get k' d); [destruct Hsome|].
  - rewrite (bool_decide_eq_false_2 (k = k')) by done. case_bool_decide.
    + by apply od_get_replace_ne.
    + rewrite od_get_app, od_get_cons, bool_decide_eq_false_2 by done.
      by destruct (od_get k d).
Qed.

Lemma od_del_absent k d : k ∉ d.*1 -> od_del k d = d.
Proof.
  intros Hk. unfold od_del. induction d as [|[k0 v] d IH]; [done|].
  rewrite fmap_cons in Hk. apply not_elem_of_cons in Hk as [Hne Hk].
  rewrite filter_cons_True by (cbn in *; congruence). by rewrite IH.
Qed.

Lemma od_set_absent k v d : k ∉ d.*1 -> od_set k v d = d ++ [(k, v)].
Proof.
  intros Hk%od_get_None. unfold od_set. rewrite Hk.
  rewrite bool_decide_eq_false_2; [done|]. by intros [? ?].
Qed.

Lemma od_set_same k v d :
  NoDup d.*1 -> od_get k d = Some v -> od_set k v d = d.
Proof.
  intros Hnd Hget. unfold od_set. rewrite Hget.
  rewrite bool_decide_eq_true_2 by by eexists.
  induction d as [|[k0 v0] d IH]; [done|].
  rewrite fmap_cons in Hnd. apply NoDup_cons in Hnd as [Hk0 Hnd].
  rewrite od_get_cons in Hget. rewrite fmap_cons. cbn [fst].
  case_bool_decide as Hk; cbn [fst] in Hk.
  - simplify_eq. f_equal.
    clear IH Hnd. induction d as [|[k1 v1] d IH]; [done|].
    rewrite fmap_cons in Hk0. apply not_elem_of_cons in Hk0 as [Hne Hk0].
    rewrite fmap_cons. cbn [fst]. rewrite bool_decide_eq_false_2 by done.
    by rewrite IH.
  - by rewrite IH.
Qed.

Lemma od_get_Some k v d : NoDup d.*1 -> od_get k d = Some v <-> (k, v) ∈ d.
Proof.
  induction d as [|[k0 v0] d IH]; intros Hnd.
  - split; [done|]. by intros ?%elem_of_nil.
  - rewrite fmap_cons in Hnd. apply NoDup_cons in Hnd as [Hk0 Hnd].
    rewrite od_get_cons, elem_of_cons. cbn [fst] in Hk0. case_bool_decide as Hk.
    + subst k0. split; [intros [= ->]; by left|].
      intros [[= ->]|Hin]; [done|]. destruct Hk0.
      apply list_elem_of_fmap. by exists (k, v).
    + rewrite (IH Hnd). split; [by right|]. intros [[= -> ->]|Hin]; done.
Qed.

Lemma od_get_perm k d d' : NoDup d.*1 -> d ≡ₚ d' -> od_get k d = od_get k d'.
Proof.
  intros Hnd Hperm.
  assert (NoDup d'.*1) as Hnd' by (by rewrite <- Hperm).
  destruct (od_get k d) as [v|] eqn:Hd.
  - symmetry. apply od_get_Some; [done|]. rewrite <- Hperm. by apply od_get_Some.
  - destruct (od_get k d') as [v'|] eqn:Hd'; [|done].
    apply od_get_Some in Hd'; [|done]. rewrite <- Hperm in Hd'.
    apply od_get_Some in Hd'; [|done]. congruence.
Qed.

(** *** [order_keys] *)

(** The keys are in increasing order. *)
Fixpoint ascending (keys : list string) : Prop :=
  match keys with
  | k :: (k' :: _) as rest => String.leb k k' = true /\ ascending rest
  | _ => True
  end.

Lemma insert_sorted_perm kv d : insert_sorted kv d ≡ₚ kv :: d.
Proof.
  induction d as [|kv' d IH]; [done|]. cbn [insert_sorted].
  destruct (String.leb kv.1 kv'.1); [done|]. by rewrite IH, Permutation_swap.
Qed.

Lemma sorted_items_perm d : sorted_items d ≡ₚ d.
Proof.
  induction d as [|kv d IH]; [done|]. unfold sorted_items in *. cbn [foldr].
  by rewrite insert_sorted_perm, IH.
Qed.

Lemma insert_sorted_ascending kv d :
  ascending d.*1 -> ascending (insert_sorted kv d).*1.
Proof.
  induction d as [|kv' d IH]; [done|]. intros Hasc. cbn [insert_sorted].
  destruct (String.leb kv.1 kv'.1) eqn:Hle; [done|].
  assert (String.leb kv'.1 kv.1 = true) as Hge
    by (destruct (String.leb_total kv.1 kv'.1); [congruence|done]).
  destruct d as [|kv'' d]; [done|].
  destruct Hasc as [Hle' Hasc]. specialize (IH Hasc).
  cbn [insert_sorted] in *. by destruct (String.leb kv.1 kv''.1).
Qed.

Lemma sorted_items_ascending d : ascending (sorted_items d).*1.
Proof.
  induction d as [|kv d IH]; [done|]. by apply insert_sorted_ascending.
Qed.

Lemma sorted_items_stable d : ascending d.*1 -> sorted_items d = d.
Proof.
  induction d as [|kv d IH]; [done|]. intros Hasc.
  unfold sorted_items in *. cbn [foldr]. destruct d as [|kv' d]; [done|].
  destruct Hasc as [Hle Hasc]. rewrite (IH Hasc). cbn [insert_sorted].
  cbn [fmap list_fmap] in Hle. by rewrite Hle.
Qed.

(** X13. [order_keys] returns the members of the dumped object in increasing
    order of their keys: the same members, none lost or added, so that
    every key has the value it had; ordering a second time changes
    nothing. *)
Theorem order_keys_sorts (members : list (string * json)) :
  exists ordered,
    order_keys (JObject members) = JObject ordered /\
    ascending ordered.*1 /\
    ordered ≡ₚ members /\
    (NoDup members.*1 -> forall k, od_get k ordered = od_get k members) /\
    order_keys (JObject ordered) = JObject ordered.
Proof.
  exists (sorted_items members). split; [done|].
  split; [apply sorted_items_ascending|]. split; [apply sorted_items_perm|].
  split.
  - intros Hnd k. symmetry. apply od_get_perm; [done|]. by rewrite sorted_items_perm.
  - cbn [order_keys]. f_equal. apply sorted_items_stable, sorted_items_ascending.
Qed.

Lemma order_keys_sorts_witness :
  od_get "name" (sorted_items [("name", JStr "default"); ("fields", JObject [])])
  = Some (JStr "default").
Proof.
  destruct (order_keys_sorts [("name", JStr "default"); ("fields", JObject [])])
    as (ordered & Hordered & _ & _ & Hget & _).
  injection Hordered as <-. rewrite Hget; [reflexivity|].
  repeat constructor; rewrite ?not_elem_of_cons, ?elem_of_nil; intuition discriminate.
Defined.

(** *** Envelopes: [wrap_envelopes] and [unwrap_envelopes] *)
Section Envelopes.
Variable models : string -> ModelClass.
Variable o : FileSchemaOpts.

(** The primary key of a dumped object, the body that [wrap_envelopes] files
    under it, and the object that [unwrap_envelopes] makes of that body. *)
Definition pk_of (d : list (string * json)) : string :=
  match od_get (_pk_field (models (schema_model o))) d with
  | Some (JStr pk) => pk
  | _ => ""
  end.

Definition keyed (d : list (string * json)) : Prop :=
  exists pk, od_get (_pk_field (models (schema_model o))) d = Some (JStr pk).

Definition body (d : list (string * json)) : list (string * json) :=
  if envelope_remove_key o then od_del (_pk_field (models (schema_model o))) d else d.

Definition unwrapped (d : list (string * json)) : list (string * json) :=
  od_set (_pk_field (models (schema_model o))) (JStr (pk_of d)) (body d).

Definition wrap_step (acc : result (list (string * json))) (obj : json)
    : result (list (string * json)) :=
  match acc, obj with
  | Raise e, _ => Raise e
  | Return wrapped, JObject d =>
      match od_get (_pk_field (models (schema_model o))) d with
      | Some (JStr pk) =>
          Return (od_set pk
                    (JObject (if envelope_remove_key o
                              then od_del (_pk_field (models (schema_model o))) d
                              else d))
                    wrapped)
      | Some _ => Raise (TypeError "the primary key is not a string")
      | None => Raise (KeyError (_pk_field (models (schema_model o))))
      end
  | Return _, _ => Raise (TypeError "object is not subscriptable")
  end.

Definition unwrap_step (acc : result (list json)) (kv : string * json)
    : result (list json) :=
  match acc, kv with
  | Raise e, _ => Raise e
  | Return unwrapped, (pk, JObject obj) =>
      let mismatch :=
        negb (envelope_remove_key o)
        && match od_get (_pk_field (models (schema_model o))) obj with
           | Some (JStr s) => negb (bool_decide (s = pk))
           | Some _ => true
           | None => false
           end in
      if mismatch
      then Raise (ValidationError
                    "Envelope id does not match value of primary key field")
      else Return (unwrapped ++ [JObject (od_set (_pk_field (models (schema_model o)))
                                            (JStr pk) obj)])
  | Return _, (_, _) =>
      Raise (TypeError "object does not support item assignment")
  end.

Lemma wrap_envelopes_fold data many :
  envelope o = true ->
  wrap_envelopes models o data many
  = match foldl wrap_step (Return [])
            (if many then match data with JList l => l | _ => [data] end
             else [data]) with
    | Raise e => Raise e
    | Return wrapped => Return (JObject wrapped)
    end.
Proof. intros Henv. unfold wrap_envelopes. by rewrite Henv. Qed.

Lemma unwrap_envelopes_fold members many :
  envelope o = true ->
  unwrap_envelopes models o (JObject members) many
  = match foldl unwrap_step (Return []) members with
    | Raise e => Raise e
    | Return [one] => Return (if many then JList [one] else one)
    | Return unwrapped => Return (JList unwrapped)
    end.
Proof. intros Henv. unfold unwrap_envelopes. by rewrite Henv. Qed.

Lemma wrap_steps objs acc :
  Forall keyed objs ->
  NoDup (acc.*1 ++ (pk_of <$> objs)) ->
  foldl wrap_step (Return acc) (JObject <$> objs)
  = Return (acc ++ ((fun d => (pk_of d, JObject (body d))) <$> objs)).
Proof.
  intros Hkeyed. revert acc.
  induction Hkeyed as [|d objs [pk Hpk] _ IH]; intros acc Hnd.
  - by rewrite app_nil_r.
  - rewrite !fmap_cons. cbn [foldl wrap_step]. rewrite Hpk.
    assert (pk_of d = pk) as Hd by (unfold pk_of; by rewrite Hpk).
    rewrite fmap_cons, Hd in Hnd.
    rewrite od_set_absent.
    + rewrite IH.
      * rewrite <- app_assoc. cbn. by rewrite Hd.
      * rewrite fmap_app. cbn. rewrite <- app_assoc. done.
    + apply NoDup_app in Hnd as (_ & Hdisj & _). intros Hin.
      apply (Hdisj pk Hin). left.
Qed.

Lemma unwrap_steps objs acc :
  Forall keyed objs ->
  foldl unwrap_step (Return acc) ((fun d => (pk_of d, JObject (body d))) <$> objs)
  = Return (acc ++ (JObject <$> (unwrapped <$> objs))).
Proof.
  intros Hkeyed. revert acc.
  induction Hkeyed as [|d objs [pk Hpk] _ IH]; intros acc.
  - by rewrite app_nil_r.
  - rewrite !fmap_cons. cbn [foldl unwrap_step].
    assert (pk_of d = pk) as Hd by (unfold pk_of; by rewrite Hpk).
    assert (negb (envelope_remove_key o)
            && match od_get (_pk_field (models (schema_model o))) (body d) with
               | Some (JStr s) => negb (bool_decide (s = pk_of d))
               | Some _ => true
               | None => false
               end = false) as ->.
    { unfold body. destruct (envelope_remove_key o); [done|]. cbn.
      rewrite Hpk, Hd. by rewrite bool_decide_eq_true_2. }
    rewrite IH, <- app_assoc. done.
Qed.

Lemma unwrapped_same d :
  keyed d -> forall k, od_get k (unwrapped d) = od_get k d.
Proof.
  intros [pk Hpk] k. unfold unwrapped, body, pk_of. rewrite Hpk, od_get_set.
  case_bool_decide as Hk; [by subst|].
  destruct (envelope_remove_key o); [|done].
  by rewrite od_get_del, bool_decide_eq_false_2.
Qed.

(** X14. Dumping, then loading, through the envelope: for objects that each
    hold a string primary key, no two the same, [wrap_envelopes] files every
    body under its primary key, in order, and [unwrap_envelopes] gives the
    objects back, in the same order, every key with the value it had (with
    [envelope_remove_key] the primary key comes back as the last member). *)
Theorem envelope_round_trip (objs : list (list (string * json))) :
  envelope o = true ->
  Forall keyed objs ->
  NoDup (pk_of <$> objs) ->
  wrap_envelopes models o (JList (JObject <$> objs)) true
  = Return (JObject ((fun d => (pk_of d, JObject (body d))) <$> objs)) /\
  unwrap_envelopes models o
    (JObject ((fun d => (pk_of d, JObject (body d))) <$> objs)) true
  = Return (JList (JObject <$> (unwrapped <$> objs))) /\
  Forall (fun d => forall k, od_get k (unwrapped d) = od_get k d) objs /\
  (forall d, objs = [d] ->
     wrap_envelopes models o (JObject d) false
     = Return (JObject [(pk_of d, JObject (body d))]) /\
     unwrap_envelopes models o (JObject [(pk_of d, JObject (body d))]) false
     = Return (JObject (unwrapped d))).
Proof.
  intros Henv Hkeyed Hnd. split; [|split; [|split]].
  - rewrite wrap_envelopes_fold by done. by rewrite (wrap_steps objs []).
  - rewrite unwrap_envelopes_fold by done. rewrite (unwrap_steps objs []) by done.
    cbn [app]. by destruct objs as [|d [|d' objs']].
  - eapply Forall_impl; [exact Hkeyed|]. intros d Hd. by apply unwrapped_same.
  - intros d ->. split.
    + rewrite wrap_envelopes_fold by done.
      change [JObject d] with (JObject <$> [d]).
      by rewrite (wrap_steps [d] [] Hkeyed Hnd).
    + rewrite unwrap_envelopes_fold by done.
      change [(pk_of d, JObject (body d))]
        with ((fun d => (pk_of d, JObject (body d))) <$> [d]).
      by rewrite (unwrap_steps [d] [] Hkeyed).
Qed.

Lemma unwrap_steps_raise members e :
  foldl unwrap_step (Raise e) members = Raise e.
Proof. induction members as [|[k v] members IH]; [done|]. by cbn. Qed.

(** A member of an envelope whose body holds another primary key than the
    envelope key. *)
Definition mismatched (kv : string * json) : Prop :=
  match kv.2 with
  | JObject obj =>
      match od_get (_pk_field (models (schema_model o))) obj with
      | Some (JStr pk) => pk <> kv.1
      | Some _ => True
      | None => False
      end
  | _ => False
  end.

Definition is_object (j : json) : Prop :=
  match j with
  | JObject _ => True
  | _ => False
  end.

Lemma unwrap_steps_mismatch members acc :
  envelope_remove_key o = false ->
  Forall (fun kv => is_object kv.2) members ->
  List.Exists mismatched members ->
  foldl unwrap_step (Return acc) members
  = Raise (ValidationError "Envelope id does not match value of primary key field").
Proof.
  intros Hkeep Hobjects Hex. revert acc.
  induction Hobjects as [|[k v] members Hobject _ IH]; intros acc;
    [by inversion Hex|].
  destruct v as [| | | |obj]; try done. cbn [foldl unwrap_step]. rewrite Hkeep.
  cbn [negb andb].
  destruct (od_get (_pk_field (models (schema_model o))) obj) as [[| |s| |]|] eqn:Hget;
    try apply unwrap_steps_raise.
  - case_bool_decide as Hs; cbn [negb]; [|apply unwrap_steps_raise].
    apply IH. inversion Hex as [? ? Hm|]; [|done].
    unfold mismatched in Hm. cbn in Hm. rewrite Hget in Hm. done.
  - apply IH. inversion Hex as [? ? Hm|]; [|done].
    unfold mismatched in Hm. cbn in Hm. by rewrite Hget in Hm.
Qed.

(** X15. An envelope is refused when the key is kept in the body
    ([envelope_remove_key] is off) and some body holds a primary key other
    than its envelope key: [unwrap_envelopes] raises [ValidationError] and
    returns no object.  With [envelope_remove_key] on there is no such
    check. *)
Theorem unwrap_envelopes_mismatch (members : list (string * json)) (many : bool) :
  envelope o = true ->
  envelope_remove_key o = false ->
  Forall (fun kv => is_object kv.2) members ->
  List.Exists mismatched members ->
  unwrap_envelopes models o (JObject members) many
  = Raise (ValidationError "Envelope id does not match value of primary key field").
Proof.
  intros Henv Hkeep Hobjects Hex. rewrite unwrap_envelopes_fold by done.
  by rewrite unwrap_steps_mismatch.
Qed.
End Envelopes.

Lemma envelope_round_trip_witness :
  unwrap_envelopes registry (opts FieldSchema)
    (JObject [("f1", JObject [("id", JStr "f1"); ("name", JStr "title")])]) true
  = Return (JList [JObject [("id", JStr "f1"); ("name", JStr "title")]]).
Proof.
  apply (proj1 (proj2 (envelope_round_trip registry (opts FieldSchema)
    [[("id", JStr "f1"); ("name", JStr "title")]] eq_refl
    ltac:(constructor; [by exists "f1"|constructor])
    ltac:(repeat constructor; apply not_elem_of_nil)))).
Defined.

Lemma unwrap_envelopes_mismatch_witness :
  unwrap_envelopes registry (opts FieldSchema)
    (JObject [("f1", JObject [("id", JStr "f2"); ("name", JStr "title")])]) true
  = Raise (ValidationError "Envelope id does not match value of primary key field").
Proof.
  apply (unwrap_envelopes_mismatch registry (opts FieldSchema)); [done|done| |].
  - constructor; [exact I|constructor].
  - left. unfold mismatched. cbn. discriminate.
Defined.

(** *** The processors of [Extractor] and [Spider] ([models.py]) *)

(** The truth value of a document, and of what [data.get(key)] or
    [data.pop(key, None)] return. *)
Definition truthy (j : json) : bool :=
  match j with
  | JNull => false
  | JBool b => b
  | JStr s => negb (bool_decide (s = ""))
  | JList [] => false
  | JList _ => true
  | JObject [] => false
  | JObject _ => true
  end.

Definition truthy_opt (j : option json) : bool :=
  match j with
  | Some v => truthy v
  | None => false
  end.

(** [Extractor.to_type_and_value], a [pre_load] processor. *)
Definition to_type_and_value (data : list (string * json)) : list (string * json) :=
  let type_extractor := od_get "type_extractor" data in
  let data1 := od_del "type_extractor" data in
  let regular_expression := od_get "regular_expression" data1 in
  let data2 := od_del "regular_expression" data1 in
  if truthy_opt type_extractor
  then od_set "value" (default JNull type_extractor) (od_set "type" (JStr "type") data2)
  else if truthy_opt regular_expression
  then od_set "value" (default JNull regular_expression)
         (od_set "type" (JStr "regex") data2)
  else data2.

(** [Extractor.from_type_and_value], a [post_dump] processor; [data.pop(key)]
    raises [KeyError] for a missing key. *)
Definition from_type_and_value (data : list (string * json))
    : result (list (string * json)) :=
  match od_get "type" data with
  | None => Raise (KeyError "type")
  | Some type_ =>
      let data1 := od_del "type" data in
      match od_get "value" data1 with
      | None => Raise (KeyError "value")
      | Some v =>
          let data2 := od_del "value" data1 in
          match type_ with
          | JStr "type" => Return (od_set "type_extractor" v data2)
          | _ => Return (od_set "regular_expression" v data2)
          end
      end
  end.

Ltac od_lookup :=
  repeat first
    [ rewrite od_get_set | rewrite od_get_del | case_bool_decide; simplify_eq ];
  try done.

Lemma to_type_and_value_type data v :
  od_get "type_extractor" data = Some v -> truthy v = true ->
  to_type_and_value data
  = od_set "value" v
      (od_set "type" (JStr "type")
         (od_del "regular_expression" (od_del "type_extractor" data))).
Proof.
  intros Hte Hv. unfold to_type_and_value. rewrite Hte.
  cbn [truthy_opt from_option id]. by rewrite Hv.
Qed.

Lemma to_type_and_value_regex data v :
  truthy_opt (od_get "type_extractor" data) = false ->
  od_get "regular_expression" data = Some v -> truthy v = true ->
  to_type_and_value data
  = od_set "value" v
      (od_set "type" (JStr "regex")
         (od_del "regular_expression" (od_del "type_extractor" data))).
Proof.
  intros Hte Hre Hv. unfold to_type_and_value. rewrite Hte.
  rewrite od_get_del, bool_decide_eq_false_2, Hre by done.
  cbn [truthy_opt from_option id]. by rewrite Hv.
Qed.

Lemma to_type_and_value_neither data :
  truthy_opt (od_get "type_extractor" data) = false ->
  truthy_opt (od_get "regular_expression" data) = false ->
  to_type_and_value data
  = od_del "regular_expression" (od_del "type_extractor" data).
Proof.
  intros Hte Hre. unfold to_type_and_value. rewrite Hte.
  by rewrite od_get_del, bool_decide_eq_false_2, Hre by done.
Qed.

(** X16. The file format of an extractor and back: for a document with
    [type] one of ['type'] and ['regex'] and a [value], [from_type_and_value]
    replaces both by the one key [type_extractor] or [regular_expression];
    applied to its result, [to_type_and_value] restores [type] and [value]
    and every other key when the value is true, and restores neither when
    it is not (an empty string), so that such an extractor loses its type
    on the way. *)
Theorem extractor_type_and_value_round_trip (data : list (string * json))
    (t : string) (v : json) :
  od_get "type" data = Some (JStr t) ->
  t = "type" \/ t = "regex" ->
  od_get "value" data = Some v ->
  od_get "type_extractor" data = None ->
  od_get "regular_expression" data = None ->
  exists dumped,
    from_type_and_value data = Return dumped /\
    od_get "type" dumped = None /\ od_get "value" dumped = None /\
    od_get (if bool_decide (t = "type") then "type_extractor"
            else "regular_expression") dumped = Some v /\
    (truthy v = true ->
     forall k, od_get k (to_type_and_value dumped) = od_get k data) /\
    (truthy v = false ->
     od_get "type" (to_type_and_value dumped) = None /\
     od_get "value" (to_type_and_value dumped) = None).
Proof.
  intros Htype Ht Hvalue Hte Hre.
  unfold from_type_and_value. rewrite Htype, od_get_del, Hvalue.
  rewrite bool_decide_eq_false_2 by done.
  destruct Ht as [-> | ->].
  - eexists. split; [reflexivity|]. rewrite bool_decide_eq_true_2 by done.
    split; [by od_lookup|]. split; [by od_lookup|]. split; [by od_lookup|]. split.
    + intros Hv k. rewrite (to_type_and_value_type _ v) by (by od_lookup).
      od_lookup; congruence.
    + intros Hv. rewrite to_type_and_value_neither.
      * split; by od_lookup.
      * by od_lookup.
      * od_lookup. by rewrite Hre.
  - eexists. split; [reflexivity|]. rewrite bool_decide_eq_false_2 by done.
    split; [by od_lookup|]. split; [by od_lookup|]. split; [by od_lookup|]. split.
    + intros Hv k. rewrite (to_type_and_value_regex _ v); [| |by od_lookup|done].
      * od_lookup; congruence.
      * od_lookup. by rewrite Hte.
    + intros Hv. rewrite to_type_and_value_neither.
      * split; by od_lookup.
      * od_lookup. by rewrite Hte.
      * by od_lookup.
Qed.

Lemma extractor_type_and_value_round_trip_witness :
  od_get "value"
    (to_type_and_value [("id", JStr "e1"); ("regular_expression", JStr "[0-9]+")])
  = Some (JStr "[0-9]+").
Proof.
  destruct (extractor_type_and_value_round_trip
              [("id", JStr "e1"); ("type", JStr "regex"); ("value", JStr "[0-9]+")]
              "regex" (JStr "[0-9]+") eq_refl (or_intror eq_refl) eq_refl eq_refl eq_refl)
    as (dumped & Hdumped & _ & _ & _ & Hback & _).
  injection Hdumped as <-. exact (Hback eq_refl "value").
Defined.

Lemma od_del_keys k d : (od_del k d).*1 = filter (fun x => x <> k) d.*1.
Proof.
  unfold od_del. induction d as [|[k0 v] d IH]; [done|].
  rewrite fmap_cons. cbn [fst]. destruct (decide (k0 = k)) as [->|Hne].
  - rewrite !filter_cons_False by (cbn; tauto). done.
  - rewrite !filter_cons_True by done. rewrite fmap_cons. cbn [fst]. by rewrite IH.
Qed.

Lemma NoDup_od_del k d : NoDup d.*1 -> NoDup (od_del k d).*1.
Proof. intros Hnd. rewrite od_del_keys. by apply NoDup_filter. Qed.

Lemma NoDup_od_set k v d : NoDup d.*1 -> NoDup (od_set k v d).*1.
Proof.
  intros Hnd. unfold od_set. case_bool_decide as Hsome.
  - rewrite <- list_fmap_compose.
    erewrite (list_fmap_ext _ fst); [done|]. intros i [k0 v0] _. cbn.
    by case_bool_decide.
  - rewrite fmap_app. cbn. apply NoDup_app. split; [done|]. split.
    + intros k' Hin ->%list_elem_of_singleton. apply Hsome.
      destruct (od_get k d) eqn:E; [by eexists|]. by apply od_get_None in E.
    + apply NoDup_singleton.
Qed.

Lemma od_get_sorted_items k d :
  NoDup d.*1 -> od_get k (sorted_items d) = od_get k d.
Proof.
  intros Hnd. symmetry. apply od_get_perm; [done|]. by rewrite sorted_items_perm.
Qed.

Lemma od_get_sorted_items_None k d :
  od_get k d = None -> od_get k (sorted_items d) = None.
Proof. rewrite !od_get_None. by rewrite sorted_items_perm. Qed.

(** [Spider._is_perform_login] *)
Definition _is_perform_login (data : list (string * json)) : bool :=
  forallb (fun field => truthy_opt (od_get field data))
    ["login_url"; "login_user"; "login_password"].

(** [Spider.get_init_requests], a [pre_load] processor.  [init_requests[0]]
    is the first item of a list, a [KeyError] on a mapping, a character of a
    string, and a [TypeError] on [True]. *)
Definition get_init_requests (data : list (string * json))
    : result (list (string * json)) :=
  let init_requests := default (JList []) (od_get "init_requests" data) in
  let data1 := od_del "init_requests" data in
  let with_login (found : result (list (string * json))) :=
    match found with
    | Raise e => Raise e
    | Return data2 =>
        Return (od_set "perform_login" (JBool (_is_perform_login data2)) data2)
    end in
  with_login
    (if truthy init_requests then
       match init_requests with
       | JList (JObject login_request :: _) =>
           Return
             (od_set "login_password"
                (default (JStr "") (od_get "password" login_request))
                (od_set "login_user"
                   (default (JStr "") (od_get "username" login_request))
                   (od_set "login_url"
                      (default (JStr "") (od_get "loginurl" login_request))
                      data1)))
       | JObject _ => Raise (KeyError "0")
       | JBool _ => Raise (TypeError "'bool' object has no attribute '__getitem__'")
       | _ => Return data1
       end
     else Return data1).

(** The [init_requests] that [set_init_requests] writes. *)
Definition login_request (data : list (string * json)) : json :=
  JList [JObject [("type", JStr "login");
                  ("loginurl", default JNull (od_get "login_url" data));
                  ("username", default JNull (od_get "login_user" data));
                  ("password", default JNull (od_get "login_password" data))]].

(** [Spider.set_init_requests], a [post_dump] processor; the three fields are
    in [data] when [_is_perform_login] holds, so that reading them cannot
    raise. *)
Definition set_init_requests (data : list (string * json)) : list (string * json) :=
  let perform_login := od_get "perform_login" data in
  let data1 := od_del "perform_login" data in
  let data2 :=
    if truthy_opt perform_login && _is_perform_login data1
    then od_set "init_requests" (login_request data1) data1
    else data1 in
  sorted_items
    (od_del "login_password" (od_del "login_user" (od_del "login_url" data2))).

(** X17. The dumped document of a spider never shows the login fields: after
    [set_init_requests] the keys [perform_login], [login_url], [login_user]
    and [login_password] are gone, whatever the data; the credentials
    appear, inside [init_requests], exactly when [perform_login] is true and
    the three of them are non-empty, and otherwise [init_requests] is what it
    was. *)
Theorem set_init_requests_hides_login (data : list (string * json)) :
  (forall k, k ∈ ["perform_login"; "login_url"; "login_user"; "login_password"] ->
     od_get k (set_init_requests data) = None) /\
  (NoDup data.*1 ->
   od_get "init_requests" (set_init_requests data)
   = if truthy_opt (od_get "perform_login" data)
        && _is_perform_login (od_del "perform_login" data)
     then Some (login_request (od_del "perform_login" data))
     else od_get "init_requests" data).
Proof.
  unfold set_init_requests. split.
  - intros k Hk. apply od_get_sorted_items_None.
    destruct (truthy_opt _ && _);
      repeat (apply elem_of_cons in Hk as [->|Hk]; [by od_lookup|]);
      by apply elem_of_nil in Hk.
  - intros Hnd. rewrite od_get_sorted_items.
    + destruct (truthy_opt _ && _); by od_lookup.
    + destruct (truthy_opt _ && _);
        repeat first [apply NoDup_od_del | apply NoDup_od_set]; done.
Qed.

(** X18. Credentials survive the file format: for a dumped spider with
    [perform_login] on and the three login fields non-empty,
    [set_init_requests] moves them into [init_requests], and
    [get_init_requests] applied to the result returns a document in which
    every key, the login fields and [perform_login] included, has the value
    it had. *)
Theorem init_requests_round_trip (data : list (string * json))
    (url user password : json) :
  NoDup data.*1 ->
  od_get "perform_login" data = Some (JBool true) ->
  od_get "login_url" data = Some url -> truthy url = true ->
  od_get "login_user" data = Some user -> truthy user = true ->
  od_get "login_password" data = Some password -> truthy password = true ->
  od_get "init_requests" data = None ->
  exists loaded,
    get_init_requests (set_init_requests data) = Return loaded /\
    forall k, od_get k loaded = od_get k data.
Proof.
  intros Hnd Hperform Hurl Turl Huser Tuser Hpassword Tpassword Hinit.
  set (data1 := od_del "perform_login" data).
  assert (od_get "login_url" data1 = Some url) as Hurl1 by (unfold data1; by od_lookup).
  assert (od_get "login_user" data1 = Some user) as Huser1
    by (unfold data1; by od_lookup).
  assert (od_get "login_password" data1 = Some password) as Hpassword1
    by (unfold data1; by od_lookup).
  set (dumped := od_del "login_password"
                   (od_del "login_user"
                      (od_del "login_url"
                         (od_set "init_requests" (login_request data1) data1)))).
  assert (set_init_requests data = sorted_items dumped) as ->.
  { unfold set_init_requests, _is_perform_login. fold data1. cbn [forallb].
    rewrite Hperform, Hurl1, Huser1, Hpassword1. cbn [truthy_opt truthy].
    by rewrite Turl, Tuser, Tpassword. }
  assert (NoDup dumped.*1) as Hdumped
    by (unfold dumped, data1; repeat first [apply NoDup_od_del | apply NoDup_od_set];
        done).
  assert (od_get "init_requests" (sorted_items dumped) = Some (login_request data1))
    as Hrequests.
  { rewrite od_get_sorted_items by done. unfold dumped. by od_lookup. }
  unfold get_init_requests. rewrite Hrequests.
  unfold login_request at 1 2. rewrite Hurl1, Huser1, Hpassword1.
  cbn [from_option id truthy].
  set (loaded := od_set "login_password" _ _).
  assert (forall k, od_get k loaded
                    = if bool_decide (k = "perform_login") then None
                      else od_get k data) as Hloaded.
  { intros k. unfold loaded.
    change (od_get "password" _) with (Some password).
    change (od_get "username" _) with (Some user).
    change (od_get "loginurl" _) with (Some url).
    cbn [from_option id].
    rewrite !od_get_set, od_get_del, od_get_sorted_items by done.
    unfold dumped, data1. od_lookup; congruence. }
  assert (_is_perform_login loaded = true) as ->.
  { unfold _is_perform_login. cbn [forallb]. rewrite !Hloaded.
    rewrite !bool_decide_eq_false_2 by done.
    rewrite Hurl, Huser, Hpassword. cbn [truthy_opt].
    by rewrite Turl, Tuser, Tpassword. }
  eexists. split; [reflexivity|]. intros k.
  rewrite od_get_set, Hloaded. case_bool_decide; by subst.
Qed.

Lemma set_init_requests_hides_login_witness :
  od_get "login_password"
    (set_init_requests [("id", JStr "s"); ("login_password", JStr "secret")])
  = None.
Proof.
  apply (proj1 (set_init_requests_hides_login _)). do 3 right. left.
Defined.

Lemma init_requests_round_trip_witness :
  exists loaded,
    get_init_requests
      (set_init_requests
         [("id", JStr "s"); ("perform_login", JBool true);
          ("login_url", JStr "http://example.com/login");
          ("login_user", JStr "admin"); ("login_password", JStr "secret")])
    = Return loaded /\
    od_get "login_password" loaded = Some (JStr "secret").
Proof.
  destruct (init_requests_round_trip
              [("id", JStr "s"); ("perform_login", JBool true);
               ("login_url", JStr "http://example.com/login");
               ("login_user", JStr "admin"); ("login_password", JStr "secret")]
              (JStr "http://example.com/login") (JStr "admin") (JStr "secret"))
    as (loaded & Hloaded & Hsame); try reflexivity.
  - repeat constructor; rewrite ?not_elem_of_cons, ?elem_of_nil; intuition discriminate.
  - exists loaded. split; [exact Hloaded|]. by rewrite Hsame.
Defined.
End Documents.

(** ** Instances: [has_data] *)
Module Instances.
Import Orm.

Section HasData.
Variable models : string -> ModelClass.
Variable load : Model -> R LoadResult.

(** [has_data(key)]: [get_data(key)], with [False] for an [AttributeError]. *)
Definition has_data (self : Model) (key : string) : R bool :=
  fun w =>
    match get_data models load self key None w with
    | None => None
    | Some (Raise (AttributeError _), w1) => Some (Return false, w1)
    | Some (Raise e, w1) => Some (Raise e, w1)
    | Some (Return _, w1) => Some (Return true, w1)
    end.

Lemma resolve_attributes_no_path_error self attributes snaps w msg w' :
  resolve_attributes models load self attributes snaps w
  <> Some (Raise (PathResolutionError msg), w').
Proof.
  unfold resolve_attributes. destruct (storage self); [|done].
  destruct (existsb _ _); [|done].
  by destruct (load self _) as [[[r|[]] w2]|].
Qed.

(** X19. Asking whether a field has a value never fails for a missing value
    or an unresolvable path: [has_data] raises neither [AttributeError] (its
    answer is [False] then) nor [PathResolutionError] (which
    [resolve_attributes] swallows), whatever [load] does; and right after
    [set_data] of the field through the same instance its answer is [True],
    with no call of [load]. *)
Theorem has_data_answers (self : Model) (key : string) (w : World) :
  (forall e w', has_data self key w = Some (Raise e, w') ->
     (forall name, e <> AttributeError name) /\
     (forall msg, e <> PathResolutionError msg)) /\
  (forall v, snapshots self <> [] ->
     has_data self key (set_data self key v w).2
     = Some (Return true, (set_data self key v w).2)).
Proof.
  split.
  - intros e w' Hhas. unfold has_data in Hhas.
    destruct (get_data models load self key None w) as [[[v|e0] w1]|] eqn:Hget;
      [done| |done].
    assert (forall msg, e0 <> PathResolutionError msg) as Hpath.
    { intros msg ->. unfold get_data in Hget.
      destruct (resolve_attributes models load self [key] None w)
        as [[[u|e1] w2]|] eqn:Hres; [| |done].
      - destruct (data_store self (heap w2)) as [st h2].
        destruct (Snapshots_get key (snapshots self) st); done.
      - injection Hget as -> ->.
        by apply resolve_attributes_no_path_error in Hres. }
    destruct e0; simplify_eq; split; try done; intros ? ?; simplify_eq;
      by eapply Hpath.
  - intros v Hsnap. unfold has_data.
    destruct (snapshots self) as [|g rest] eqn:Hs; [done|].
    rewrite (get_data_present models load self key None v); [done|].
    unfold set_data. rewrite Hs. cbn [snd heap with_heap].
    rewrite store_of_write_eq by done.
    apply (Snapshots_get_set key v g [] rest). constructor.
Qed.
End HasData.

Lemma has_data_answers_witness :
  has_data registry (portia_load 2) example_default "field"
    (set_data example_default "field" (VBool true) empty_world).2
  = Some (Return true, (set_data example_default "field" (VBool true) empty_world).2).
Proof.
  apply (proj2 (has_data_answers registry (portia_load 2) example_default "field"
                  empty_world)).
  discriminate.
Defined.

End Instances.

(** ** Model classes: [_file_model] *)
Module FileModel.
Import Orm.

#[local] Instance segment_eq_dec : EqDecision segment.
Proof. solve_decision. Defined.

Section FileModel.
Variable models : string -> ModelClass.

(** One turn of the loop of [_file_model]: the owner to continue with, the
    model to stop at, or the [AttributeError] of [.model] on a field that is
    no relationship.  A missing owner field is the [KeyError] that the loop
    passes over. *)
Definition file_model_step (path : option (list segment)) (model : string)
    : result (string + string) :=
  match opts_owner (models model) with
  | None => Return (inr model)
  | Some owner_field =>
      if bool_decide (owner_field = "") then Return (inr model)
      else
        match field_kind <$> field_of (models model) owner_field with
        | Some (BelongsTo owner _) | Some (HasMany owner _) =>
            if bool_decide (owner <> model)
               && bool_decide (opts_path (models owner) = path)
            then Return (inl owner)
            else Return (inr model)
        | Some Plain => Raise (AttributeError "model")
        | None => Return (inr model)
        end
  end.

(** The loop, for at most [fuel] turns. *)
Fixpoint file_model_from (fuel : nat) (path : option (list segment)) (model : string)
    : option (result string) :=
  match fuel with
  | O => None
  | S fuel' =>
      match file_model_step path model with
      | Raise e => Some (Raise e)
      | Return (inl owner) => file_model_from fuel' path owner
      | Return (inr found) => Some (Return found)
      end
  end.

(** [cls._file_model]: the top-level model stored in the path of [cls]. *)
Definition _file_model (fuel : nat) (class_name : string) : option (result string) :=
  file_model_from fuel (opts_path (models class_name)) class_name.

Lemma file_model_step_stop path model stop :
  file_model_step path model = Return (inr stop) -> stop = model.
Proof.
  unfold file_model_step.
  destruct (opts_owner (models model)) as [owner_field|]; [|by intros [= <-]].
  case_bool_decide; [by intros [= <-]|].
  destruct (field_kind <$> field_of (models model) owner_field)
    as [[|target r|target r]|]; try done;
    try (by intros [= <-]); by destruct (_ && _); intros [= <-].
Qed.

Lemma file_model_step_owner path model owner :
  file_model_step path model = Return (inl owner) ->
  opts_path (models owner) = path.
Proof.
  unfold file_model_step.
  destruct (opts_owner (models model)) as [owner_field|]; [|done].
  case_bool_decide; [done|].
  destruct (field_kind <$> field_of (models model) owner_field)
    as [[|target r|target r]|]; try done;
    destruct (bool_decide (target <> model)); try done; cbn;
    case_bool_decide; by intros [= <-].
Qed.

Lemma file_model_from_found fuel path model found :
  opts_path (models model) = path ->
  file_model_from fuel path model = Some (Return found) ->
  opts_path (models found) = path /\
  file_model_step path found = Return (inr found).
Proof.
  revert model. induction fuel as [|fuel IH]; intros model Hpath; [done|].
  cbn [file_model_from].
  destruct (file_model_step path model) as [[owner|stop]|e] eqn:Hstep; [| |done].
  - apply IH. by eapply file_model_step_owner.
  - intros [= <-]. pose proof (file_model_step_stop _ _ _ Hstep) as ->. done.
Qed.

Lemma file_model_from_more fuel fuel' path model found :
  fuel <= fuel' ->
  file_model_from fuel path model = Some (Return found) ->
  file_model_from fuel' path model = Some (Return found).
Proof.
  revert fuel' model. induction fuel as [|fuel IH]; intros fuel' model Hle; [done|].
  destruct fuel' as [|fuel']; [lia|]. cbn [file_model_from].
  destruct (file_model_step path model) as [[owner|stop]|e]; [|done|done].
  apply IH. lia.
Qed.

(** X21. The model that [_file_model] finds is stored in the same file as
    the class it was asked for (their paths are equal), it is its own
    [_file_model], found in one turn, and more turns of the loop give the
    same answer. *)
Theorem file_model_same_file (fuel : nat) (class_name found : string) :
  _file_model fuel class_name = Some (Return found) ->
  opts_path (models found) = opts_path (models class_name) /\
  _file_model 1 found = Some (Return found) /\
  forall fuel', fuel <= fuel' -> _file_model fuel' class_name = Some (Return found).
Proof.
  unfold _file_model. intros Hfound.
  destruct (file_model_from_found _ _ _ _ eq_refl Hfound) as [Hpath Hstop].
  split; [done|]. split.
  - cbn [file_model_from]. by rewrite Hpath, Hstop.
  - intros fuel' Hle. by eapply file_model_from_more.
Qed.
End FileModel.

(** X22. Among the classes of [models.py] and of the tests, the fields of a
    schema are stored in the file of their schema, [items.json], and every
    other class is the top-level model of its own file: [_file_model] ends
    within three turns for every class. *)
Theorem file_model_of_registry (class_name : string) :
  _file_model registry 3 class_name
  = Some (Return (if bool_decide (class_name = "Field") then "Schema"
                  else class_name)).
Proof.
  destruct (decide (class_name ∈ ["Project"; "Schema"; "Field"; "Spider"; "Sample";
                                  "SingleFileModel"; "ParamFileModel";
                                  "OneToOneModel1"; "OneToOneModel2"; "ChildModel";
                                  "ParentModel"])) as [Hin|Hout].
  - repeat (apply elem_of_cons in Hin as [->|Hin]; [vm_compute; reflexivity|]).
    by apply elem_of_nil in Hin.
  - repeat (apply not_elem_of_cons in Hout as [? Hout]).
    assert (registry class_name = ExampleModel) as Hclass
      by (unfold registry; by rewrite !bool_decide_eq_false_2).
    unfold _file_model. cbn [file_model_from]. unfold file_model_step.
    rewrite Hclass. cbn [opts_owner ExampleModel].
    by rewrite bool_decide_eq_false_2.
Qed.

Lemma file_model_same_file_witness :
  opts_path (registry "Schema") = opts_path (registry "Field").
Proof.
  apply (proj1 (file_model_same_file registry 3 "Field" "Schema" eq_refl)).
Defined.
End FileModel.

(** ** Model classes: [ModelMeta.__new__], [ModelOpts] and
    [BaseRelationship.contribute_to_class] *)
Module Metaclass.

(** An attribute of [Meta] as [getattr] finds it: absent, [None], a boolean,
    a string, or an object of another kind (and not equal to [False]). *)
Inductive meta_value : Type :=
| MAbsent
| MNone
| MBool (b : bool)
| MStr (s : string)
| MOther.

Record Meta := {
  meta_path : meta_value;
  meta_owner : meta_value;
  meta_envelope : meta_value;
  meta_envelope_remove_key : meta_value
}.

(** The model of a relationship: its name, or the class itself. *)
Inductive given : Type :=
| ByName (name : string)
| ByClass (name : string).

(** The [only] of a relationship: [None], one name, or a list of names. *)
Inductive only_fields : Type :=
| OnlyNone
| OnlyName (name : string)
| OnlyNames (names : list string).

(** An attribute of the class body: a relationship, a field, a method
    decorated as a processor of the file schema, or anything else. *)
Inductive attribute : Type :=
| Relationship (model : given) (related_name : string) (ignore_in_file : bool)
    (only : only_fields)
| Field (primary_key : bool) (ignore_in_file : bool)
| Processor
| Other.

Definition is_relationship (a : option attribute) : bool :=
  match a with
  | Some (Relationship _ _ _ _) => true
  | _ => false
  end.

Definition ignored (a : attribute) : bool :=
  match a with
  | Relationship _ _ ignore_in_file _ => ignore_in_file
  | Field _ ignore_in_file => ignore_in_file
  | _ => false
  end.

(** [fields.get(name)] *)
Definition lookup_field (name : string) (fields : list (string * attribute))
    : option attribute :=
  snd <$> (snd <$> list_find (fun kv => kv.1 = name) fields).

(** [ModelOpts]: [path], [owner] ([None] stands for [False]) and
    [envelope]. *)
Record Options := {
  path : option string;
  owner : option string;
  envelope : bool
}.

(** [ModelOpts.__init__(meta, model)] *)
Definition ModelOpts__init__ (meta : Meta) (fields : list (string * attribute))
    : checked Options :=
  match meta_path meta with
  | MBool _ | MOther => Fails (ValueError "'path' option must be a string or None.")
  | given_path =>
      match meta_owner meta with
      | MNone | MBool true | MOther =>
          Fails (ValueError "'many' option must be a string or False.")
      | given_owner =>
          let owner := match given_owner with MStr s => Some s | _ => None end in
          if match owner with
             | Some s => negb (bool_decide (s = ""))
                         && negb (is_relationship (lookup_field s fields))
             | None => false
             end
          then Fails (ValueError "'many' option must be a relationship name.")
          else
            match meta_envelope meta with
            | MAbsent | MBool _ =>
                Fine {| path := match given_path with MStr s => Some s | _ => None end;
                        owner := owner;
                        envelope := match meta_envelope meta with
                                    | MBool b => b
                                    | _ => false
                                    end |}
            | _ => Fails (ValueError "'envelope' option must be a boolean.")
            end
      end
  end.

(** What the metaclass records for a class. *)
Record Description := {
  _pk_field : option string;
  _fields : list (string * attribute);
  _file_fields : list string;
  opts : Options;
  envelope_remove_key : bool
}.

(** [BaseRelationship._includes_relationships(field, model)]: [model._fields]
    is indexed by every name of [field.only], a [KeyError] for one that is
    no field. *)
Definition _includes_relationships (only : only_fields)
    (fields : list (string * attribute)) : checked bool :=
  let names :=
    match only with
    | OnlyNone => []
    | OnlyName name => if bool_decide (name = "") then [] else [name]
    | OnlyNames names => names
    end in
  match names with
  | [] => Fine true
  | _ =>
      match list_find (fun name => lookup_field name fields = None) names with
      | Some (_, name) => Fails (MissingKey name)
      | None =>
          Fine (existsb (fun name => is_relationship (lookup_field name fields)) names)
      end
  end.

Section New.
(** The classes created so far, by name; a class given as an object to a
    relationship is one of them. *)
Variable classes : string -> Description.
(** [Field.contribute_to_class(cls, attrname)] of [fields.py], for a field
    that is no relationship. *)
Variable Field_contribute_to_class : string -> string -> checked unit.

(** [BaseRelationship.contribute_to_class(cls, attrname)], before the
    descriptor is set on the class. *)
Definition contribute_to_class (self : attribute)
    (cls_fields : list (string * attribute)) (attrname : string) : checked unit :=
  match self with
  | Relationship (ByClass target) related_name false only =>
      match lookup_field related_name (_fields (classes target)) with
      | None =>
          Fails (ImproperlyConfigured
                   ("Model '" +:+ target +:+ "' has not declared field '"
                    +:+ related_name +:+ "'"))
      | Some (Relationship _ related_related related_ignore related_only) =>
          if negb (bool_decide (related_related = attrname))
          then Fails (ImproperlyConfigured
                        ("Related name of Model '" +:+ target +:+ "' field '"
                         +:+ related_name +:+ "' is not '" +:+ attrname +:+ "'"))
          else
            match _includes_relationships only (_fields (classes target)) with
            | Fails e => Fails e
            | Fine class_includes_relationships =>
                match
                  if related_ignore then Fine false
                  else _includes_relationships related_only cls_fields
                with
                | Fails e => Fails e
                | Fine related_includes_relationships =>
                    if class_includes_relationships && related_includes_relationships
                    then Fails (ImproperlyConfigured
                                  "cannot both include relationships")
                    else Fine tt
                end
            end
      | Some _ => Fails (MissingAttribute "related_name")
      end
  | _ => Fine tt
  end.

(** The first loop of [__new__], over the attributes of the class body: the
    primary key found so far and the fields collected so far. *)
Definition scan (name : string)
    (acc : checked (option string * list (string * attribute)))
    (item : string * attribute)
    : checked (option string * list (string * attribute)) :=
  match acc with
  | Fails e => Fails e
  | Fine (primary_key, fields) =>
      match item.2 with
      | Relationship _ _ _ _ => Fine (primary_key, fields ++ [item])
      | Field true _ =>
          match primary_key with
          | Some _ =>
              Fails (ImproperlyConfigured
                       ("Model '" +:+ name
                        +:+ "' declared with more than one primary key"))
          | None => Fine (Some item.1, fields ++ [item])
          end
      | Field false _ => Fine (primary_key, fields ++ [item])
      | _ => Fine (primary_key, fields)
      end
  end.

(** The second loop of [__new__]: every field contributes to the class. *)
Fixpoint contribute_all (name : string) (cls_fields : list (string * attribute))
    (fields : list (string * attribute)) : checked unit :=
  match fields with
  | [] => Fine tt
  | (attrname, field) :: rest =>
      match
        match field with
        | Relationship _ _ _ _ => contribute_to_class field cls_fields attrname
        | _ => Field_contribute_to_class name attrname
        end
      with
      | Fails e => Fails e
      | Fine _ => contribute_all name cls_fields rest
      end
  end.

(** [ModelMeta.__new__(mcs, name, bases, attrs)] for a class that derives
    from [Model]: the description of the class and the registry with its
    name added.  The options of the file schema are checked when its class
    is created ([FileSchemaOpts]). *)
Definition ModelMeta__new__ (registered : list string) (name : string)
    (attrs : list (string * attribute)) (meta : Meta)
    : checked (Description * list string) :=
  if bool_decide (name ∈ registered)
  then Fails (ImproperlyConfigured ("A Model named '" +:+ name +:+ "' already exists"))
  else
    match foldl (scan name) (Fine (None, [])) attrs with
    | Fails e => Fails e
    | Fine (primary_key, fields) =>
        if negb (bool_decide (fields = [])) && bool_decide (primary_key = None)
        then Fails (ImproperlyConfigured
                      ("Model '" +:+ name +:+ "' declared with no primary key"))
        else
          match ModelOpts__init__ meta fields with
          | Fails e => Fails e
          | Fine options =>
              match contribute_all name fields fields with
              | Fails e => Fails e
              | Fine _ =>
                  match meta_envelope_remove_key meta with
                  | MAbsent | MBool _ =>
                      Fine ({| _pk_field := primary_key;
                               _fields := fields;
                               _file_fields :=
                                 (filter (fun kf => ignored kf.2 = false) fields).*1;
                               opts := options;
                               envelope_remove_key :=
                                 match meta_envelope_remove_key meta with
                                 | MBool b => b
                                 | _ => false
                                 end |},
                            registered ++ [name])
                  | _ =>
                      Fails (ValueError
                               "'envelope_remove_key' option must be a boolean.")
                  end
              end
          end
    end.

(** The attributes that are fields, and the names of those declared as
    primary key. *)
Definition declared (a : attribute) : bool :=
  match a with
  | Relationship _ _ _ _ | Field _ _ => true
  | _ => false
  end.

Definition is_primary_key (a : attribute) : bool :=
  match a with
  | Field true _ => true
  | _ => false
  end.

Definition primary_keys (attrs : list (string * attribute)) : list string :=
  (filter (fun kv => is_primary_key kv.2 = true) attrs).*1.

Lemma scan_fails name attrs e : foldl (scan name) (Fails e) attrs = Fails e.
Proof. by induction attrs. Qed.

Lemma scan_item name pk0 fields0 k a :
  scan name (Fine (pk0, fields0)) (k, a)
  = match a with
    | Relationship _ _ _ _ | Field false _ => Fine (pk0, fields0 ++ [(k, a)])
    | Field true _ =>
        match pk0 with
        | Some _ =>
            Fails (ImproperlyConfigured
                     ("Model '" +:+ name
                      +:+ "' declared with more than one primary key"))
        | None => Fine (Some k, fields0 ++ [(k, a)])
        end
    | _ => Fine (pk0, fields0)
    end.
Proof. by destruct a as [? ? ? ?|[|] ?| |]. Qed.

Lemma scan_collects name attrs pk0 fields0 pk fields :
  foldl (scan name) (Fine (pk0, fields0)) attrs = Fine (pk, fields) ->
  fields = fields0 ++ filter (fun kv => declared kv.2 = true) attrs /\
  option_list pk0 ++ primary_keys attrs = option_list pk.
Proof.
  revert pk0 fields0.
  induction attrs as [|[k a] attrs IH]; intros pk0 fields0 Hscan.
  - injection Hscan as -> ->. by rewrite !app_nil_r.
  - cbn [foldl] in Hscan. rewrite scan_item in Hscan. unfold primary_keys in *.
    destruct a as [m r ig o|[|] ig| |].
    + apply IH in Hscan as [-> <-]. rewrite filter_cons_True by done.
      rewrite (filter_cons_False (fun kv => is_primary_key kv.2 = true)) by done.
      by rewrite <- app_assoc.
    + destruct pk0 as [p|]; [by rewrite scan_fails in Hscan|].
      apply IH in Hscan as [-> <-]. rewrite !filter_cons_True by done.
      by rewrite <- app_assoc.
    + apply IH in Hscan as [-> <-]. rewrite filter_cons_True by done.
      rewrite (filter_cons_False (fun kv => is_primary_key kv.2 = true)) by done.
      by rewrite <- app_assoc.
    + apply IH in Hscan as [-> <-].
      by rewrite !filter_cons_False by done.
    + apply IH in Hscan as [-> <-].
      by rewrite !filter_cons_False by done.
Qed.

Lemma options_owner meta fields options o :
  ModelOpts__init__ meta fields = Fine options ->
  owner options = Some o -> o <> "" ->
  is_relationship (lookup_field o fields) = true.
Proof.
  unfold ModelOpts__init__. intros Hopts Howner Ho.
  destruct (meta_path meta) as [| |b|p|], (meta_owner meta) as [| |[|]|s|];
    try done; cbn in Hopts;
    try (destruct (meta_envelope meta); simplify_eq; done).
  all: destruct (bool_decide (s = "")) eqn:Hs;
    [apply bool_decide_eq_true in Hs; subst s; cbn in Hopts;
     destruct (meta_envelope meta); simplify_eq; cbn in Howner; congruence|].
  all: cbn in Hopts;
    destruct (is_relationship (lookup_field s fields)) eqn:Hrel; [|done].
  all: cbn in Hopts; destruct (meta_envelope meta); simplify_eq; cbn in Howner;
    by simplify_eq.
Qed.

Lemma contribute_all_accepts name cls_fields fields attrname target related_name only :
  contribute_all name cls_fields fields = Fine tt ->
  (attrname, Relationship (ByClass target) related_name false only) ∈ fields ->
  exists model ignore related_only,
    lookup_field related_name (_fields (classes target))
    = Some (Relationship model attrname ignore related_only) /\
    exists class_includes related_includes,
      _includes_relationships only (_fields (classes target)) = Fine class_includes /\
      (if ignore then Fine false
       else _includes_relationships related_only cls_fields) = Fine related_includes /\
      class_includes && related_includes = false.
Proof.
  induction fields as [|[k a] fields IH]; intros Hall Hin;
    [by apply elem_of_nil in Hin|].
  cbn [contribute_all] in Hall.
  apply elem_of_cons in Hin as [Heq|Hin].
  - injection Heq as <- <-. unfold contribute_to_class in Hall.
    destruct (lookup_field related_name (_fields (classes target)))
      as [[model related_related ignore related_only| | |]|]; try done.
    case_bool_decide as Hname; [|done]. subst related_related. cbn [negb] in Hall.
    destruct (_includes_relationships only _) as [class_includes|]; [|done].
    destruct (if ignore then Fine false else _) as [related_includes|] eqn:Hrelated;
      [|done].
    destruct (class_includes && related_includes) eqn:Hboth; [done|].
    by eauto 10.
  - apply IH; [|done].
    by destruct (match a with Relationship _ _ _ _ => _ | _ => _ end) as [[]|].
Qed.

(** X23. What a class created by [ModelMeta.__new__] guarantees.  Its name
    was free and is registered afterwards, so that a second class of the
    name is refused.  Its fields are the relationships and fields of the
    class body; exactly one of them is declared as primary key when there
    are fields ([_pk_field]), and none otherwise.  [_file_fields] are the
    fields without [ignore_in_file].  A non-empty [owner] names a
    relationship.  A relationship to a class given as an object, and kept in
    the file, has an inverse relationship on that class whose related name
    is the field, and the two do not both include relationships. *)
Theorem created_class_is_consistent (registered : list string) (name : string)
    (attrs : list (string * attribute)) (meta : Meta) (c : Description)
    (registered' : list string) :
  ModelMeta__new__ registered name attrs meta = Fine (c, registered') ->
  (name ∉ registered) /\ registered' = registered ++ [name] /\
  (forall attrs' meta', exists msg,
     ModelMeta__new__ registered' name attrs' meta'
     = Fails (ImproperlyConfigured msg)) /\
  _fields c = filter (fun kv => declared kv.2 = true) attrs /\
  primary_keys attrs = option_list (_pk_field c) /\
  (_fields c <> [] -> is_Some (_pk_field c)) /\
  (forall n, n ∈ _file_fields c <->
             exists a, (n, a) ∈ _fields c /\ ignored a = false) /\
  (forall o, owner (opts c) = Some o -> o <> "" ->
     is_relationship (lookup_field o (_fields c)) = true) /\
  (forall attrname target related_name only,
     (attrname, Relationship (ByClass target) related_name false only) ∈ _fields c ->
     exists model ignore related_only,
       lookup_field related_name (_fields (classes target))
       = Some (Relationship model attrname ignore related_only) /\
       exists class_includes related_includes,
         _includes_relationships only (_fields (classes target))
         = Fine class_includes /\
         (if ignore then Fine false
          else _includes_relationships related_only (_fields c))
         = Fine related_includes /\
         class_includes && related_includes = false).
Proof.
  unfold ModelMeta__new__. intros Hnew.
  case_bool_decide as Hfree; [done|].
  destruct (foldl (scan name) (Fine (None, [])) attrs) as [[pk fields]|] eqn:Hscan;
    [|done].
  apply scan_collects in Hscan as [Hfields Hpk]. cbn [option_list app] in Hfields, Hpk.
  destruct (negb (bool_decide (fields = [])) && bool_decide (pk = None)) eqn:Hnone;
    [done|].
  destruct (ModelOpts__init__ meta fields) as [options|] eqn:Hopts; [|done].
  destruct (contribute_all name fields fields) as [[]|] eqn:Hall; [|done].
  assert (c = {| _pk_field := pk; _fields := fields;
                 _file_fields := (filter (fun kf => ignored kf.2 = false) fields).*1;
                 opts := options;
                 envelope_remove_key := match meta_envelope_remove_key meta with
                                        | MBool b => b
                                        | _ => false
                                        end |}
          /\ registered' = registered ++ [name]) as [-> ->]
    by (destruct (meta_envelope_remove_key meta); by simplify_eq).
  cbn [_fields _pk_field _file_fields opts].
  split; [done|]. split; [done|]. split.
  { intros attrs' meta'. eexists. rewrite bool_decide_eq_true_2; [done|].
    apply elem_of_app. right. left. }
  split; [done|]. split; [done|]. split.
  { intros Hne. destruct pk; [by eexists|].
    by rewrite (bool_decide_eq_false_2 (fields = [])), bool_decide_eq_true_2 in Hnone. }
  split.
  { intros n. rewrite list_elem_of_fmap. split.
    - intros ([k a] & -> & [Hig Hin]%list_elem_of_filter). by exists a.
    - intros (a & Hin & Hig). exists (n, a). split; [done|].
      by apply list_elem_of_filter. }
  split.
  { intros o. by apply (options_owner meta). }
  intros attrname target related_name only.
  by apply (contribute_all_accepts name).
Qed.
End New.

(** [ChildModel] and [ParentModel] of the tests: the child names its parent
    class, the parent is given the class of its children. *)
Definition child_model : Description :=
  {| _pk_field := Some "id";
     _fields := [("id", Field true false); ("field", Field false false);
                 ("parent", Relationship (ByName "ParentModel") "children" false
                              (OnlyName "id"))];
     _file_fields := ["id"; "field"; "parent"];
     opts := {| path := Some "{self.parent.id}/children.json";
                owner := Some "parent"; envelope := false |};
     envelope_remove_key := false |}.

Definition parent_attrs : list (string * attribute) :=
  [("id", Field true false); ("field", Field false false);
   ("children", Relationship (ByClass "ChildModel") "parent" false OnlyNone)].

Definition parent_meta : Meta :=
  {| meta_path := MStr "parents.json"; meta_owner := MAbsent;
     meta_envelope := MAbsent; meta_envelope_remove_key := MAbsent |}.

Lemma created_class_is_consistent_witness :
  exists c,
    ModelMeta__new__ (fun _ => child_model) (fun _ _ => Fine tt) ["ChildModel"]
      "ParentModel" parent_attrs parent_meta
    = Fine (c, ["ChildModel"; "ParentModel"]) /\
    primary_keys parent_attrs = option_list (_pk_field c).
Proof.
  eexists. split; [reflexivity|].
  apply (created_class_is_consistent (fun _ => child_model) (fun _ _ => Fine tt)
           ["ChildModel"] "ParentModel" parent_attrs parent_meta _ _ eq_refl).
Defined.
End Metaclass.

(** ** [save]: each path is written once *)
Module Saves.
Import Orm.

(** The paths given to [storage.save], in the order of the calls. *)
Definition save_paths (log : list call) : list (option string) :=
  omap (fun c => match c with Save _ path _ => Some path | _ => None end) log.

Definition saves (w : World) : list (option string) := save_paths (calls w).

(** A computation that makes no call of [storage.save]. *)
Definition saves_nothing {A : Type} (c : R A) : Prop :=
  forall w r w', c w = Some (r, w') -> saves w' = saves w.

Lemma save_paths_app l l' : save_paths (l ++ l') = save_paths l ++ save_paths l'.
Proof. apply omap_app. Qed.

Lemma saves_ret {A : Type} (a : A) : saves_nothing (ret a).
Proof. by intros w r w' [= <- <-]. Qed.

Lemma saves_throw {A : Type} (e : exn) : saves_nothing (@throw A e).
Proof. by intros w r w' [= <- <-]. Qed.

Lemma saves_bind {A B : Type} (c : R A) (k : A -> R B) :
  saves_nothing c -> (forall a, saves_nothing (k a)) -> saves_nothing (bind c k).
Proof.
  intros Hc Hk w r w'. unfold bind.
  destruct (c w) as [[[a|e] w1]|] eqn:E; [| |done].
  - intros Hka. rewrite (Hk a _ _ _ Hka). by eapply Hc.
  - intros [= <- <-]. by eapply Hc.
Qed.

Lemma saves_on_heap {A : Type} (f : Heap -> A * Heap) : saves_nothing (on_heap f).
Proof.
  intros w r w'. unfold on_heap. destruct (f (heap w)) as [a h]. by intros [= <- <-].
Qed.

Lemma saves_exec {A : Type} call_load (p : prog A) :
  (forall c st i kw, saves_nothing (call_load c st i kw)) ->
  saves_nothing (exec call_load p).
Proof.
  intros Hload. induction p as [a|e|k IH|f k IH|c st i kw k IH]; intros w r w'; cbn.
  - by intros [= <- <-].
  - by intros [= <- <-].
  - apply IH.
  - intros Hk. by rewrite (IH _ _ _ Hk).
  - destruct (call_load c st i kw w) as [[r1 w1]|] eqn:E; [|done].
    intros Hk. rewrite (IH _ _ _ _ Hk). by eapply Hload.
Qed.

Section Saves.
Variable models : string -> ModelClass.
Variable getattr_value : list string -> value -> string -> prog value.
Variable file_schema_load : string -> nat -> string -> bool -> prog LoadResult.
Variable copy_from : ModelSnapshots -> ModelSnapshots -> ModelSnapshots.
Variable getattr_many : Model -> string -> prog value.
Variable dumps : Model -> string -> prog string.
Variable collection_dumps : nat -> string -> prog string.
Variable depth : nat.

Section Run.
Variable run : forall A : Type, prog A -> R A.
Hypothesis run_saves : forall A (p : prog A), saves_nothing (run A p).

Lemma saves_first_attr data order name : saves_nothing (first_attr data order name).
Proof.
  intros w r w'. unfold first_attr. destruct data as [inst|kwargs].
  - destruct (data_store inst (heap w)) as [st h1].
    by destruct (Snapshots_get name order st); intros [= <- <-].
  - by destruct (kwarg name kwargs); intros [= <- <-].
Qed.

Lemma saves_rest_attrs order v names :
  saves_nothing (rest_attrs getattr_value run order v names).
Proof using run_saves.
  revert v. induction names as [|name names IH]; intros v; cbn.
  - apply saves_ret.
  - apply saves_bind; [apply run_saves|]. intros v'. apply IH.
Qed.

Lemma saves_format template data order :
  saves_nothing (format getattr_value run template data order).
Proof using run_saves.
  induction template as [|[text|[|name names]] template IH]; cbn.
  - apply saves_ret.
  - apply saves_bind; [done|]. intros. apply saves_ret.
  - apply saves_bind; [done|]. intros. apply saves_ret.
  - apply saves_bind; [apply saves_first_attr|]. intros v.
    apply saves_bind; [apply saves_rest_attrs|]. intros v'.
    apply saves_bind; [done|]. intros. apply saves_ret.
Qed.

Lemma saves_storage_path class_name data order :
  saves_nothing (storage_path models getattr_value run class_name data order).
Proof using run_saves.
  intros w r w'. unfold storage_path.
  destruct (format getattr_value run _ data order w) as [[[path|e] w1]|] eqn:E;
    [| |done].
  - intros [= <- <-]. by eapply saves_format.
  - destruct e; intros [= <- <-]; by eapply saves_format.
Qed.

Lemma saves_load_path class_name st instance path :
  saves_nothing (load_path models file_schema_load run class_name st instance path).
Proof using run_saves.
  intros w r w'. unfold load_path.
  destruct (pk_guard_heap models class_name instance w) as [h Hguard].
  destruct (pk_guard models class_name instance w) as [pk_known w1].
  cbn [snd] in Hguard. subst w1.
  destruct pk_known; cbn [negb]; [|by intros [= <- <-]].
  destruct (already_loaded st path (with_heap h w)); [by intros [= <- <-]|].
  destruct (file st path _) as [content|].
  - intros Hrun. rewrite (run_saves _ _ _ _ _ Hrun).
    unfold saves, log, mark_loaded. cbn [calls with_heap].
    by rewrite !save_paths_app, !app_nil_r.
  - intros [= <- <-]. unfold saves, log, mark_loaded. cbn [calls with_heap].
    by rewrite save_paths_app, app_nil_r.
Qed.

Lemma saves_load_body class_name st instance kwargs :
  saves_nothing
    (load_body models getattr_value file_schema_load run class_name st instance kwargs).
Proof using run_saves.
  unfold load_body. destruct st as [s|]; [|apply saves_ret].
  apply saves_bind; [apply saves_storage_path|].
  intros [p|]; [apply saves_load_path|apply saves_ret].
Qed.
End Run.

Lemma saves_load fuel class_name st instance kwargs :
  saves_nothing (load models getattr_value file_schema_load fuel class_name st
                   instance kwargs).
Proof.
  revert class_name st instance kwargs.
  induction fuel as [|fuel IH]; intros class_name st instance kwargs; [done|].
  cbn [load]. apply saves_load_body. intros A p. by apply saves_exec.
Qed.

Lemma saves_run_prog A (p : prog A) :
  saves_nothing (run_prog models getattr_value file_schema_load depth A p).
Proof. apply saves_exec. intros. apply saves_load. Qed.

Lemma saves_load_instance m :
  saves_nothing (load_instance models getattr_value file_schema_load depth m).
Proof. apply saves_load. Qed.

Lemma saves_resolve_attributes (load : Model -> R LoadResult) self attributes snaps :
  (forall m, saves_nothing (load m)) ->
  saves_nothing (resolve_attributes models load self attributes snaps).
Proof.
  intros Hload w r w'. unfold resolve_attributes.
  destruct (storage self); [|by intros [= <- <-]].
  destruct (existsb _ _); [|by intros [= <- <-]].
  destruct (load self _) as [[[res|e] w2]|] eqn:E; [| |done].
  - intros [= <- <-]. by rewrite (Hload _ _ _ _ E).
  - destruct e; intros [= <- <-]; by rewrite (Hload _ _ _ _ E).
Qed.

Lemma saves_get_data (load : Model -> R LoadResult) self key dflt :
  (forall m, saves_nothing (load m)) ->
  saves_nothing (get_data models load self key dflt).
Proof.
  intros Hload w r w'. unfold get_data.
  destruct (resolve_attributes models load self [key] None w)
    as [[[res|e] w1]|] eqn:E; [| |done].
  - apply saves_resolve_attributes in E; [|done].
    destruct (data_store self (heap w1)) as [st h2].
    destruct (Snapshots_get key (snapshots self) st); [by intros [= <- <-]|].
    by destruct dflt; intros [= <- <-].
  - intros [= <- <-]. by eapply saves_resolve_attributes.
Qed.

Lemma saves_getattr m name :
  saves_nothing
    (getattr models getattr_value file_schema_load getattr_many depth m name).
Proof.
  unfold getattr.
  destruct (field_kind <$> field_of (models (cls m)) name) as [[| |]|].
  - apply saves_get_data, saves_load_instance.
  - apply saves_get_data, saves_load_instance.
  - apply saves_run_prog.
  - apply saves_throw.
Qed.

Lemma saves_owner_collection fuel child collection :
  saves_nothing
    (owner_collection models getattr_value file_schema_load copy_from getattr_many depth
       fuel child collection).
Proof.
  revert child collection.
  induction fuel as [|fuel IH]; intros child collection; cbn [owner_collection];
    (destruct (opts_owner (models (cls child))) as [parent_field|];
     [|apply saves_ret]); [done|].
  apply saves_bind; [apply saves_on_heap|]. intros child'.
  apply saves_bind; [apply saves_getattr|]. intros parent.
  destruct parent; try apply saves_throw.
  apply saves_bind; [apply saves_on_heap|]. intros p'.
  destruct (field_of (models (cls child)) parent_field ≫= related_name_of);
    [|apply saves_throw].
  apply saves_bind; [apply saves_getattr|]. intros c. apply IH.
Qed.

Lemma bind_inv {A B : Type} (c : R A) (k : A -> R B) w r w' :
  bind c k w = Some (r, w') ->
  (exists a w1, c w = Some (Return a, w1) /\ k a w1 = Some (r, w'))
  \/ (exists e, c w = Some (Raise e, w') /\ r = Raise e).
Proof.
  unfold bind. destruct (c w) as [[[a|e] w1]|]; [| |done].
  - intros Hk. left. by exists a, w1.
  - intros [= <- <-]. right. by exists e.
Qed.

(** What a run of the first loop of [_commit_changes] adds to the calls of
    [storage.save]: paths [new], all different and none of them in
    [saved_paths] before; and [saved_paths] has grown by them. *)
Definition grows (saved : list (option string)) (w : World)
    (r : result (list (option string) * list (option string))) (w' : World)
    : Prop :=
  exists new,
    saves w' = saves w ++ new /\ NoDup new /\ (forall p, p ∈ new -> p ∉ saved)
    /\ forall paths', r = Return paths' ->
         forall p, p ∈ paths'.1 <-> p ∈ new \/ p ∈ saved.

Lemma grows_nothing saved w r w' :
  saves w' = saves w ->
  (forall paths', r = Return paths' -> paths'.1 = saved) ->
  grows saved w r w'.
Proof.
  intros Hsaves Hpaths. exists []. rewrite app_nil_r.
  split; [done|]. split; [constructor|]. split.
  - by intros p ?%elem_of_nil.
  - intros paths' Hr p. rewrite (Hpaths _ Hr), elem_of_nil.
    split; [by right|by intros [[]|]].
Qed.

Lemma grows_one saved path w r w' :
  path ∉ saved ->
  saves w' = saves w ++ [path] ->
  (forall paths', r = Return paths' -> paths'.1 = path :: saved) ->
  grows saved w r w'.
Proof.
  intros Hnew Hsaves Hpaths. exists [path].
  split; [done|]. split; [apply NoDup_singleton|]. split.
  - by intros p ->%list_elem_of_singleton.
  - intros paths' Hr p. rewrite (Hpaths _ Hr), elem_of_cons, list_elem_of_singleton.
    done.
Qed.

(** The end of the loop body, after the document is saved: at most a call of
    [storage.delete]. *)
Lemma delete_step_saves (model : Model) (old_path path : option string)
    (saved' deleted : list (option string)) w r w' :
  (if negb (bool_decide (old_path = path)) && negb (bool_decide (path ∈ deleted))
   then
     match storage model with
     | None => throw (AttributeError "delete")
     | Some st =>
         fun w => Some (Return (saved', old_path :: deleted),
                        storage_delete st old_path w)
     end
   else ret (saved', deleted)) w = Some (r, w') ->
  saves w' = saves w /\ forall paths', r = Return paths' -> paths'.1 = saved'.
Proof.
  destruct (_ && _).
  - destruct (storage model) as [st|]; intros [= <- <-].
    + split; [|by intros ? [= <-]].
      unfold saves, storage_delete. cbn [calls].
      by rewrite save_paths_app, app_nil_r.
    + by split.
  - intros [= <- <-]. split; [done|by intros ? [= <-]].
Qed.

Lemma commit_model_grows model saved deleted w r w' :
  commit_model models getattr_value file_schema_load copy_from getattr_many dumps
    collection_dumps depth model (saved, deleted) w = Some (r, w') ->
  grows saved w r w'.
Proof.
  unfold commit_model.
  intros [(store & w1 & Hstore & Hrun)|(e & Hstore & ->)]%bind_inv;
    [|apply grows_nothing; [by eapply saves_on_heap|done]].
  apply saves_on_heap in Hstore.
  apply bind_inv in Hrun as [(path & w2 & Hpath & Hrun)|(e & Hpath & ->)];
    apply (saves_storage_path _ saves_run_prog) in Hpath;
    [|apply grows_nothing; [congruence|done]].
  apply bind_inv in Hrun as [(old_path & w3 & Hold & Hrun)|(e & Hold & ->)];
    apply (saves_storage_path _ saves_run_prog) in Hold;
    [|apply grows_nothing; [congruence|done]].
  assert (saves w3 = saves w) as Hw3 by congruence. clear Hstore Hpath Hold.
  destruct (_ || _); [|injection Hrun as <- <-; apply grows_nothing;
                        [done|by intros ? [= <-]]].
  apply bind_inv in Hrun as [(saved' & w4 & Hsave & Hrun)|(e & Hsave & ->)].
  - apply delete_step_saves in Hrun as [Hw' Hpaths].
    case_bool_decide as Hin.
    + injection Hsave as <- <-. apply grows_nothing; [congruence|done].
    + apply bind_inv in Hsave as [(content & w5 & Hcontent & Hsave)|(e & _ & [=])].
      assert (saves w5 = saves w3) as Hw5.
      { destruct (opts_owner (models (cls model))).
        - apply bind_inv in Hcontent
            as [(collection & w6 & Hcoll & Hcontent)|(e & _ & [=])].
          apply saves_owner_collection in Hcoll.
          destruct collection; try discriminate Hcontent;
            apply saves_run_prog in Hcontent; congruence.
        - by apply saves_run_prog in Hcontent. }
      destruct (storage model) as [st|]; [|done].
      injection Hsave as <- <-.
      apply (grows_one _ path); [done| |done].
      rewrite Hw'. unfold saves at 1, storage_save. cbn [calls].
      rewrite save_paths_app. cbn. unfold saves in *. congruence.
  - case_bool_decide as Hin; [done|].
    apply bind_inv in Hsave as [(content & w5 & Hcontent & Hsave)|(e' & Hcontent & _)].
    + destruct (storage model) as [st|]; [done|]. injection Hsave as _ <-.
      apply grows_nothing; [|done]. rewrite <- Hw3.
      destruct (opts_owner (models (cls model))).
      * apply bind_inv in Hcontent
          as [(collection & w6 & Hcoll & Hcontent)|(e'' & _ & [=])].
        apply saves_owner_collection in Hcoll.
        destruct collection; try discriminate Hcontent;
          apply saves_run_prog in Hcontent; congruence.
      * by apply saves_run_prog in Hcontent.
    + apply grows_nothing; [|done]. rewrite <- Hw3.
      destruct (opts_owner (models (cls model))).
      * apply bind_inv in Hcontent
          as [(collection & w6 & Hcoll & Hcontent)|(e'' & Hcoll & _)].
        -- apply saves_owner_collection in Hcoll.
           destruct collection;
             first [apply saves_run_prog in Hcontent; congruence
                   |injection Hcontent as _ Hw; congruence].
        -- by apply saves_owner_collection in Hcoll.
      * by apply saves_run_prog in Hcontent.
Qed.

Lemma commit_models_grows todo saved deleted w r w' :
  commit_models models getattr_value file_schema_load copy_from getattr_many dumps
    collection_dumps depth todo (saved, deleted) w = Some (r, w') ->
  grows saved w r w'.
Proof.
  revert saved deleted w.
  induction todo as [|v todo IH]; intros saved deleted w; cbn [commit_models].
  - intros [= <- <-]. apply grows_nothing; [done|by intros ? [= <-]].
  - destruct v; try (intros [= <- <-]; by apply grows_nothing).
    intros [([saved1 deleted1] & w1 & Hfirst & Hrest)|(e & Hfirst & ->)]%bind_inv.
    + apply commit_model_grows in Hfirst as (new1 & Hs1 & Hnd1 & Hfresh1 & Hset1).
      apply IH in Hrest as (new2 & Hs2 & Hnd2 & Hfresh2 & Hset2).
      specialize (Hset1 _ eq_refl). cbn [fst] in Hset1.
      exists (new1 ++ new2). split; [by rewrite Hs2, Hs1, app_assoc|]. split.
      { apply NoDup_app. split; [done|]. split; [|done].
        intros p Hp1 Hp2. apply (Hfresh2 p Hp2), Hset1. by left. }
      split.
      * intros p [Hp|Hp]%elem_of_app; [by apply Hfresh1|].
        intros Hsaved. apply (Hfresh2 p Hp), Hset1. by right.
      * intros paths' Hr p. rewrite (Hset2 _ Hr p), Hset1, elem_of_app.
        split; [intros [?|[?|?]]|intros [[?|?]|?]]; auto.
    + apply commit_model_grows in Hfirst as (new & Hs & Hnd & Hfresh & _).
      exists new. by repeat split.
Qed.

Lemma commit_changes_saves self w r w' :
  _commit_changes models getattr_value file_schema_load copy_from getattr_many
    dumps collection_dumps depth self w = Some (r, w') ->
  exists new, saves w' = saves w ++ new /\ NoDup new.
Proof.
  unfold _commit_changes.
  destruct (commit_models _ _ _ _ _ _ _ _ _ _ w) as [[[paths|e] w1]|] eqn:E; [| |done].
  - apply commit_models_grows in E as (new & Hs & Hnd & _).
    destruct (fold_models _ _); intros [= <- <-]; by exists new.
  - apply commit_models_grows in E as (new & Hs & Hnd & _).
    intros [= <- <-]. by exists new.
Qed.

Lemma saves_stage_changes self chosen :
  saves_nothing (_stage_changes models self chosen).
Proof.
  intros w r w'. unfold _stage_changes.
  by destruct (foldl _ _ _); intros [= <- <-].
Qed.

(** X24. Whatever [save] is called on, in whatever state, it never gives
    [storage.save] the same path twice: the paths of the calls of
    [storage.save] it adds to the record of the storage calls are pairwise
    different (and the earlier calls stay as they were). *)
Theorem save_writes_each_path_once self chosen w r w' :
  save models getattr_value file_schema_load copy_from getattr_many dumps
    collection_dumps depth self chosen w = Some (r, w') ->
  exists new,
    save_paths (calls w') = save_paths (calls w) ++ new /\ NoDup new.
Proof.
  unfold save. destruct (storage self).
  - intros [(u & w1 & Hresolve & Hrun)|(e & Hresolve & ->)]%bind_inv.
    + apply (saves_resolve_attributes _ _ _ _ saves_load_instance) in Hresolve.
      apply bind_inv in Hrun as [(u' & w2 & Hstage & Hrun)|(e & Hstage & ->)];
        apply saves_stage_changes in Hstage.
      * apply commit_changes_saves in Hrun as (new & Hs & Hnd).
        exists new. split; [|done]. unfold saves in *. congruence.
      * exists []. split; [|constructor]. rewrite app_nil_r.
        unfold saves in *. congruence.
    + apply (saves_resolve_attributes _ _ _ _ saves_load_instance) in Hresolve.
      exists []. split; [|constructor]. by rewrite app_nil_r.
  - intros [= <- <-]. exists []. split; [|constructor]. by rewrite app_nil_r.
Qed.
End Saves.

(** [pB.save()] with the two children moved from pA to pB: both children
    name the document [pB/children.json], which is written once. *)
Lemma save_writes_each_path_once_witness :
  exists new,
    save_paths (calls (from_option snd moved_children save_moved_children))
    = save_paths (calls moved_children) ++ new /\ NoDup new.
Proof.
  apply (save_writes_each_path_once registry related_attr decode_nothing
           (fun _ s => s) stored_collection dump_text collection_text 2
           parent_B None moved_children (Return tt)).
  vm_compute. reflexivity.
Defined.
End Saves.
